(** * easyproto-gen: the struct-tag parser of [cmd/protogen]

    A shallow embedding of [parseStruct], [inferProtoType], [analyzeType],
    [exprToString], [getTypeName] and of the validation tables of
    [validation.go], together with the properties of the metadata parser
    and the type classifier.

    Go strings are byte sequences: they are [string]s here (lists of
    [ascii] bytes).  Go's [int] is a [Z]; every integer the parser handles
    comes out of [strconv.Atoi], which bounds it to the 64-bit range, and
    the parser only compares it, so no wrap-around can occur. *)

From Stdlib Require Import ZArith String Ascii List Lia Bool DecimalString.
From stdpp Require Import base gmap list strings sorting.

Open Scope Z_scope.

(** ** Go library functions the parser calls *)

(** [s[:n]] and [s[n:]] on byte strings. *)
Fixpoint strTake (n : nat) (s : string) : string :=
  match n, s with
  | S k, String c s' => String c (strTake k s')
  | _, _ => ""
  end.

Fixpoint strDrop (n : nat) (s : string) : string :=
  match n, s with
  | S k, String _ s' => strDrop k s'
  | _, _ => s
  end.

Fixpoint strRev (s : string) : string :=
  match s with
  | "" => ""
  | String c s' => strRev s' +:+ String c ""
  end.

(** [strings.HasPrefix]. *)
Fixpoint HasPrefix (s prefix : string) {struct prefix} : bool :=
  match prefix with
  | "" => true
  | String c prefix' =>
      match s with
      | "" => false
      | String d s' => Ascii.eqb c d && HasPrefix s' prefix'
      end
  end.

Definition byte (n : nat) : ascii := ascii_of_nat n.

(** The UTF-8 encodings of the runes for which [unicode.IsSpace] holds:
    the six ASCII ones, U+0085, U+00A0, U+1680, U+2000..U+200A, U+2028,
    U+2029, U+202F, U+205F and U+3000. *)
Definition utf8 (bs : list nat) : string :=
  fold_right (fun b s => String (byte b) s) "" bs.

Definition spaceRunes : list string :=
  map utf8
    ([ [9]; [10]; [11]; [12]; [13]; [32];
       [194; 133]; [194; 160]; [225; 154; 128] ] ++
     map (fun k => [226; 128; k]) (seq 128 11) ++
     [ [226; 128; 168]; [226; 128; 169]; [226; 128; 175];
       [226; 129; 159]; [227; 128; 128] ])%nat.

(** Width in bytes of the white-space rune [s] starts with, [0] when it
    starts with none. *)
Definition leadingSpace (s : string) : nat :=
  match find (fun r => HasPrefix s r) spaceRunes with
  | Some r => String.length r
  | None => 0%nat
  end.

(** The same, reading [s] backwards ([s] is a reversed string). *)
Definition trailingSpace (s : string) : nat :=
  match find (fun r => HasPrefix s (strRev r)) spaceRunes with
  | Some r => String.length r
  | None => 0%nat
  end.

Fixpoint trimWhile (width : string -> nat) (fuel : nat) (s : string) : string :=
  match fuel with
  | O => s
  | S fuel' =>
      match width s with
      | O => s
      | w => trimWhile width fuel' (strDrop w s)
      end
  end.

(** [strings.TrimSpace]: all leading and trailing white space removed. *)
Definition TrimSpace (s : string) : string :=
  let s1 := trimWhile leadingSpace (String.length s) s in
  strRev (trimWhile trailingSpace (String.length s1) (strRev s1)).

(** [strings.Split(s, sep)] for a non-empty [sep]: the pieces between the
    leftmost non-overlapping occurrences of [sep].  [skip] counts the
    bytes of a matched separator still to be passed over and [cur] holds
    the current piece, reversed. *)
Fixpoint splitFrom (sep : string) (skip : nat) (cur : string) (s : string)
  : list string :=
  match s with
  | "" => [strRev cur]
  | String c s' =>
      match skip with
      | S k => splitFrom sep k cur s'
      | O =>
          if HasPrefix s sep
          then strRev cur :: splitFrom sep (String.length sep - 1) "" s'
          else splitFrom sep 0 (String c cur) s'
      end
  end.

Definition Split (s sep : string) : list string := splitFrom sep 0 "" s.

(** [strings.LastIndex(s, substr)]: byte index of the last occurrence,
    [-1] when there is none. *)
Fixpoint LastIndex (s substr : string) : Z :=
  match s with
  | "" => if HasPrefix "" substr then 0 else -1
  | String _ s' =>
      let r := LastIndex s' substr in
      if 0 <=? r then r + 1
      else if HasPrefix s substr then 0 else -1
  end.

(** [strings.Contains], as the repository's tests use it on diagnostics. *)
Fixpoint Contains (s substr : string) : bool :=
  HasPrefix s substr ||
  match s with
  | "" => false
  | String _ s' => Contains s' substr
  end.

(** [strconv.Atoi] on a 64-bit platform: an optional sign, then one or
    more decimal digits, and a value that fits [int]. *)
Definition digitVal (c : ascii) : option Z :=
  let n := Z.of_nat (nat_of_ascii c) in
  if (48 <=? n) && (n <=? 57) then Some (n - 48) else None.

Fixpoint parseDigits (acc : Z) (s : string) : option Z :=
  match s with
  | "" => Some acc
  | String c s' =>
      match digitVal c with
      | Some d => parseDigits (acc * 10 + d) s'
      | None => None
      end
  end.

Definition minInt : Z := - 2 ^ 63.
Definition maxInt : Z := 2 ^ 63 - 1.

Definition Atoi (s : string) : option Z :=
  let '(neg, ds) :=
    match s with
    | String "-" s' => (true, s')
    | String "+" s' => (false, s')
    | _ => (false, s)
    end in
  match ds with
  | "" => None
  | _ =>
      match parseDigits 0 ds with
      | Some n =>
          let v := if neg then - n else n in
          if (minInt <=? v) && (v <=? maxInt) then Some v else None
      | None => None
      end
  end.

(** ** Diagnostics

    An error value is the call [fmt.Errorf(format, args...)] that made it.
    [ErrorText] renders it the way [fmt] does for the verbs the program
    uses ([%d], [%q], [%s], [%w]); [strconv.Quote], which [%q] applies, is
    left as a parameter of the rendering, so a statement about a
    diagnostic's text holds however the quoted arguments come out. *)
Inductive Arg :=
| AStr (s : string)
| AInt (n : Z)
| AErr (text : (string -> string) -> string).

Inductive Error := Errorf (format : string) (args : list Arg).

Definition itoa (n : Z) : string := NilZero.string_of_int (Z.to_int n).

Definition verb (Quote : string -> string) (v : ascii) (a : Arg) : string :=
  match a with
  | AStr s => if Ascii.eqb v "q" then Quote s else s
  | AInt n => itoa n
  | AErr text => text Quote
  end.

Fixpoint Sprintf (Quote : string -> string) (format : string) (args : list Arg)
  : string :=
  match format with
  | "" => ""
  | String c rest =>
      if Ascii.eqb c "%" then
        match rest with
        | "" => "%!(NOVERB)"
        | String v rest' =>
            match args with
            | a :: args' => verb Quote v a +:+ Sprintf Quote rest' args'
            | [] => "%!" +:+ String v "(MISSING)" +:+ Sprintf Quote rest' []
            end
        end
      else String c (Sprintf Quote rest args)
  end.

Definition ErrorText (Quote : string -> string) (e : Error) : string :=
  match e with Errorf format args => Sprintf Quote format args end.

(** The operand of [%w]: a wrapped error prints as its own text. *)
Definition wrap (e : Error) : Arg := AErr (fun Quote => ErrorText Quote e).

(** [strings.Contains(err.Error(), phrase)]. *)
Definition mentions (e : Error) (phrase : string) : Prop :=
  forall Quote, Contains (ErrorText Quote e) phrase = true.

Inductive Result (A : Type) :=
| OK (a : A)
| Err (e : Error).
Arguments OK {A} a.
Arguments Err {A} e.

Notation "'let!' x ':=' c 'in' k" :=
  (match c with OK x => k | Err e => Err e end)
  (at level 10, x name, c at level 100, k at level 200, only parsing).
Notation "'let!' ' p ':=' c 'in' k" :=
  (match c with OK p => k | Err e => Err e end)
  (at level 10, p pattern, c at level 100, k at level 200, only parsing).

(** ** The Go AST of a field's type ([go/ast])

    The node kinds the program distinguishes; every other kind of
    expression is an [OtherExpr], which carries what [%T] prints for it. *)
#[warnings="-register-all"]
Inductive Expr :=
| Ident (Name : string)
| SelectorExpr (X : Expr) (Sel : string)
| StarExpr (X : Expr)
| ArrayType (Len : option Expr) (Elt : Expr)
| MapType (Key Value : Expr)
| InterfaceType
| ChanType (Value : Expr)
| FuncType
| BasicLit (Value : string)
| OtherExpr (goType : string).

(** A field of a struct declaration.  [Tag] is [None] when the field has
    no tag ([field.Tag == nil]) and otherwise holds the value that
    [reflect.StructTag(strings.Trim(field.Tag.Value, "`")).Get("protobuf")]
    returns for it: the text between the quotes after [protobuf:], or the
    empty string when the tag has no such key. *)
Module Field.
Record t := { Names : list string; Type_ : Expr; Tag : option string }.
End Field.

(** ** Descriptors ([types.go]) *)
Module OneofVariant.
Record t := { TypeName : string; FieldNum : Z }.
End OneofVariant.

Module FieldInfo.
Record t := {
  Name : string;
  GoType : string;
  FieldNum : Z;
  ProtoType : string;
  IsRepeated : bool;
  IsMessage : bool;
  IsPointer : bool;
  IsSliceOfPtr : bool;
  IsOptional : bool;
  IsEnum : bool;
  IsMap : bool;
  IsCustom : bool;
  ElemType : string;
  RawElemType : string;
  BaseType : string;
  NeedsTypeConv : bool;
  ConvType : string;
  MapKeyType : string;
  MapValueType : string;
  MapKeyProto : string;
  MapValueProto : string;
  MapValueIsMsg : bool;
  MapValueIsPtr : bool;
  MapValueCustom : bool;
  IsOneof : bool;
  OneofVariants : list OneofVariant.t
}.

(** Field updates, one per field the parser assigns after construction. *)
Definition set_GoType (v : string) (fi : t) : t :=
  {| Name := Name fi; GoType := v; FieldNum := FieldNum fi;
     ProtoType := ProtoType fi; IsRepeated := IsRepeated fi;
     IsMessage := IsMessage fi; IsPointer := IsPointer fi;
     IsSliceOfPtr := IsSliceOfPtr fi; IsOptional := IsOptional fi;
     IsEnum := IsEnum fi; IsMap := IsMap fi; IsCustom := IsCustom fi;
     ElemType := ElemType fi; RawElemType := RawElemType fi;
     BaseType := BaseType fi; NeedsTypeConv := NeedsTypeConv fi;
     ConvType := ConvType fi; MapKeyType := MapKeyType fi;
     MapValueType := MapValueType fi; MapKeyProto := MapKeyProto fi;
     MapValueProto := MapValueProto fi; MapValueIsMsg := MapValueIsMsg fi;
     MapValueIsPtr := MapValueIsPtr fi; MapValueCustom := MapValueCustom fi;
     IsOneof := IsOneof fi; OneofVariants := OneofVariants fi |}.

Definition set_IsRepeated (v : bool) (fi : t) : t :=
  {| Name := Name fi; GoType := GoType fi; FieldNum := FieldNum fi;
     ProtoType := ProtoType fi; IsRepeated := v; IsMessage := IsMessage fi;
     IsPointer := IsPointer fi; IsSliceOfPtr := IsSliceOfPtr fi;
     IsOptional := IsOptional fi; IsEnum := IsEnum fi; IsMap := IsMap fi;
     IsCustom := IsCustom fi; ElemType := ElemType fi;
     RawElemType := RawElemType fi; BaseType := BaseType fi;
     NeedsTypeConv := NeedsTypeConv fi; ConvType := ConvType fi;
     MapKeyType := MapKeyType fi; MapValueType := MapValueType fi;
     MapKeyProto := MapKeyProto fi; MapValueProto := MapValueProto fi;
     MapValueIsMsg := MapValueIsMsg fi; MapValueIsPtr := MapValueIsPtr fi;
     MapValueCustom := MapValueCustom fi; IsOneof := IsOneof fi;
     OneofVariants := OneofVariants fi |}.

Definition set_IsPointer (v : bool) (fi : t) : t :=
  {| Name := Name fi; GoType := GoType fi; FieldNum := FieldNum fi;
     ProtoType := ProtoType fi; IsRepeated := IsRepeated fi;
     IsMessage := IsMessage fi; IsPointer := v;
     IsSliceOfPtr := IsSliceOfPtr fi; IsOptional := IsOptional fi;
     IsEnum := IsEnum fi; IsMap := IsMap fi; IsCustom := IsCustom fi;
     ElemType := ElemType fi; RawElemType := RawElemType fi;
     BaseType := BaseType fi; NeedsTypeConv := NeedsTypeConv fi;
     ConvType := ConvType fi; MapKeyType := MapKeyType fi;
     MapValueType := MapValueType fi; MapKeyProto := MapKeyProto fi;
     MapValueProto := MapValueProto fi; MapValueIsMsg := MapValueIsMsg fi;
     MapValueIsPtr := MapValueIsPtr fi; MapValueCustom := MapValueCustom fi;
     IsOneof := IsOneof fi; OneofVariants := OneofVariants fi |}.

Definition set_IsSliceOfPtr (v : bool) (fi : t) : t :=
  {| Name := Name fi; GoType := GoType fi; FieldNum := FieldNum fi;
     ProtoType := ProtoType fi; IsRepeated := IsRepeated fi;
     IsMessage := IsMessage fi; IsPointer := IsPointer fi; IsSliceOfPtr := v;
     IsOptional := IsOptional fi; IsEnum := IsEnum fi; IsMap := IsMap fi;
     IsCustom := IsCustom fi; ElemType := ElemType fi;
     RawElemType := RawElemType fi; BaseType := BaseType fi;
     NeedsTypeConv := NeedsTypeConv fi; ConvType := ConvType fi;
     MapKeyType := MapKeyType fi; MapValueType := MapValueType fi;
     MapKeyProto := MapKeyProto fi; MapValueProto := MapValueProto fi;
     MapValueIsMsg := MapValueIsMsg fi; MapValueIsPtr := MapValueIsPtr fi;
     MapValueCustom := MapValueCustom fi; IsOneof := IsOneof fi;
     OneofVariants := OneofVariants fi |}.

Definition set_IsOptional (v : bool) (fi : t) : t :=
  {| Name := Name fi; GoType := GoType fi; FieldNum := FieldNum fi;
     ProtoType := ProtoType fi; IsRepeated := IsRepeated fi;
     IsMessage := IsMessage fi; IsPointer := IsPointer fi;
     IsSliceOfPtr := IsSliceOfPtr fi; IsOptional := v; IsEnum := IsEnum fi;
     IsMap := IsMap fi; IsCustom := IsCustom fi; ElemType := ElemType fi;
     RawElemType := RawElemType fi; BaseType := BaseType fi;
     NeedsTypeConv := NeedsTypeConv fi; ConvType := ConvType fi;
     MapKeyType := MapKeyType fi; MapValueType := MapValueType fi;
     MapKeyProto := MapKeyProto fi; MapValueProto := MapValueProto fi;
     MapValueIsMsg := MapValueIsMsg fi; MapValueIsPtr := MapValueIsPtr fi;
     MapValueCustom := MapValueCustom fi; IsOneof := IsOneof fi;
     OneofVariants := OneofVariants fi |}.

Definition set_ElemType (v : string) (fi : t) : t :=
  {| Name := Name fi; GoType := GoType fi; FieldNum := FieldNum fi;
     ProtoType := ProtoType fi; IsRepeated := IsRepeated fi;
     IsMessage := IsMessage fi; IsPointer := IsPointer fi;
     IsSliceOfPtr := IsSliceOfPtr fi; IsOptional := IsOptional fi;
     IsEnum := IsEnum fi; IsMap := IsMap fi; IsCustom := IsCustom fi;
     ElemType := v; RawElemType := RawElemType fi; BaseType := BaseType fi;
     NeedsTypeConv := NeedsTypeConv fi; ConvType := ConvType fi;
     MapKeyType := MapKeyType fi; MapValueType := MapValueType fi;
     MapKeyProto := MapKeyProto fi; MapValueProto := MapValueProto fi;
     MapValueIsMsg := MapValueIsMsg fi; MapValueIsPtr := MapValueIsPtr fi;
     MapValueCustom := MapValueCustom fi; IsOneof := IsOneof fi;
     OneofVariants := OneofVariants fi |}.

Definition set_RawElemType (v : string) (fi : t) : t :=
  {| Name := Name fi; GoType := GoType fi; FieldNum := FieldNum fi;
     ProtoType := ProtoType fi; IsRepeated := IsRepeated fi;
     IsMessage := IsMessage fi; IsPointer := IsPointer fi;
     IsSliceOfPtr := IsSliceOfPtr fi; IsOptional := IsOptional fi;
     IsEnum := IsEnum fi; IsMap := IsMap fi; IsCustom := IsCustom fi;
     ElemType := ElemType fi; RawElemType := v; BaseType := BaseType fi;
     NeedsTypeConv := NeedsTypeConv fi; ConvType := ConvType fi;
     MapKeyType := MapKeyType fi; MapValueType := MapValueType fi;
     MapKeyProto := MapKeyProto fi; MapValueProto := MapValueProto fi;
     MapValueIsMsg := MapValueIsMsg fi; MapValueIsPtr := MapValueIsPtr fi;
     MapValueCustom := MapValueCustom fi; IsOneof := IsOneof fi;
     OneofVariants := OneofVariants fi |}.

Definition set_BaseType (v : string) (fi : t) : t :=
  {| Name := Name fi; GoType := GoType fi; FieldNum := FieldNum fi;
     ProtoType := ProtoType fi; IsRepeated := IsRepeated fi;
     IsMessage := IsMessage fi; IsPointer := IsPointer fi;
     IsSliceOfPtr := IsSliceOfPtr fi; IsOptional := IsOptional fi;
     IsEnum := IsEnum fi; IsMap := IsMap fi; IsCustom := IsCustom fi;
     ElemType := ElemType fi; RawElemType := RawElemType fi; BaseType := v;
     NeedsTypeConv := NeedsTypeConv fi; ConvType := ConvType fi;
     MapKeyType := MapKeyType fi; MapValueType := MapValueType fi;
     MapKeyProto := MapKeyProto fi; MapValueProto := MapValueProto fi;
     MapValueIsMsg := MapValueIsMsg fi; MapValueIsPtr := MapValueIsPtr fi;
     MapValueCustom := MapValueCustom fi; IsOneof := IsOneof fi;
     OneofVariants := OneofVariants fi |}.

Definition set_NeedsTypeConv (v : bool) (fi : t) : t :=
  {| Name := Name fi; GoType := GoType fi; FieldNum := FieldNum fi;
     ProtoType := ProtoType fi; IsRepeated := IsRepeated fi;
     IsMessage := IsMessage fi; IsPointer := IsPointer fi;
     IsSliceOfPtr := IsSliceOfPtr fi; IsOptional := IsOptional fi;
     IsEnum := IsEnum fi; IsMap := IsMap fi; IsCustom := IsCustom fi;
     ElemType := ElemType fi; RawElemType := RawElemType fi;
     BaseType := BaseType fi; NeedsTypeConv := v; ConvType := ConvType fi;
     MapKeyType := MapKeyType fi; MapValueType := MapValueType fi;
     MapKeyProto := MapKeyProto fi; MapValueProto := MapValueProto fi;
     MapValueIsMsg := MapValueIsMsg fi; MapValueIsPtr := MapValueIsPtr fi;
     MapValueCustom := MapValueCustom fi; IsOneof := IsOneof fi;
     OneofVariants := OneofVariants fi |}.

Definition set_ConvType (v : string) (fi : t) : t :=
  {| Name := Name fi; GoType := GoType fi; FieldNum := FieldNum fi;
     ProtoType := ProtoType fi; IsRepeated := IsRepeated fi;
     IsMessage := IsMessage fi; IsPointer := IsPointer fi;
     IsSliceOfPtr := IsSliceOfPtr fi; IsOptional := IsOptional fi;
     IsEnum := IsEnum fi; IsMap := IsMap fi; IsCustom := IsCustom fi;
     ElemType := ElemType fi; RawElemType := RawElemType fi;
     BaseType := BaseType fi; NeedsTypeConv := NeedsTypeConv fi;
     ConvType := v; MapKeyType := MapKeyType fi;
     MapValueType := MapValueType fi; MapKeyProto := MapKeyProto fi;
     MapValueProto := MapValueProto fi; MapValueIsMsg := MapValueIsMsg fi;
     MapValueIsPtr := MapValueIsPtr fi; MapValueCustom := MapValueCustom fi;
     IsOneof := IsOneof fi; OneofVariants := OneofVariants fi |}.

Definition set_MapKeyType (v : string) (fi : t) : t :=
  {| Name := Name fi; GoType := GoType fi; FieldNum := FieldNum fi;
     ProtoType := ProtoType fi; IsRepeated := IsRepeated fi;
     IsMessage := IsMessage fi; IsPointer := IsPointer fi;
     IsSliceOfPtr := IsSliceOfPtr fi; IsOptional := IsOptional fi;
     IsEnum := IsEnum fi; IsMap := IsMap fi; IsCustom := IsCustom fi;
     ElemType := ElemType fi; RawElemType := RawElemType fi;
     BaseType := BaseType fi; NeedsTypeConv := NeedsTypeConv fi;
     ConvType := ConvType fi; MapKeyType := v;
     MapValueType := MapValueType fi; MapKeyProto := MapKeyProto fi;
     MapValueProto := MapValueProto fi; MapValueIsMsg := MapValueIsMsg fi;
     MapValueIsPtr := MapValueIsPtr fi; MapValueCustom := MapValueCustom fi;
     IsOneof := IsOneof fi; OneofVariants := OneofVariants fi |}.

Definition set_MapValueType (v : string) (fi : t) : t :=
  {| Name := Name fi; GoType := GoType fi; FieldNum := FieldNum fi;
     ProtoType := ProtoType fi; IsRepeated := IsRepeated fi;
     IsMessage := IsMessage fi; IsPointer := IsPointer fi;
     IsSliceOfPtr := IsSliceOfPtr fi; IsOptional := IsOptional fi;
     IsEnum := IsEnum fi; IsMap := IsMap fi; IsCustom := IsCustom fi;
     ElemType := ElemType fi; RawElemType := RawElemType fi;
     BaseType := BaseType fi; NeedsTypeConv := NeedsTypeConv fi;
     ConvType := ConvType fi; MapKeyType := MapKeyType fi; MapValueType := v;
     MapKeyProto := MapKeyProto fi; MapValueProto := MapValueProto fi;
     MapValueIsMsg := MapValueIsMsg fi; MapValueIsPtr := MapValueIsPtr fi;
     MapValueCustom := MapValueCustom fi; IsOneof := IsOneof fi;
     OneofVariants := OneofVariants fi |}.

Definition set_MapKeyProto (v : string) (fi : t) : t :=
  {| Name := Name fi; GoType := GoType fi; FieldNum := FieldNum fi;
     ProtoType := ProtoType fi; IsRepeated := IsRepeated fi;
     IsMessage := IsMessage fi; IsPointer := IsPointer fi;
     IsSliceOfPtr := IsSliceOfPtr fi; IsOptional := IsOptional fi;
     IsEnum := IsEnum fi; IsMap := IsMap fi; IsCustom := IsCustom fi;
     ElemType := ElemType fi; RawElemType := RawElemType fi;
     BaseType := BaseType fi; NeedsTypeConv := NeedsTypeConv fi;
     ConvType := ConvType fi; MapKeyType := MapKeyType fi;
     MapValueType := MapValueType fi; MapKeyProto := v;
     MapValueProto := MapValueProto fi; MapValueIsMsg := MapValueIsMsg fi;
     MapValueIsPtr := MapValueIsPtr fi; MapValueCustom := MapValueCustom fi;
     IsOneof := IsOneof fi; OneofVariants := OneofVariants fi |}.

Definition set_MapValueProto (v : string) (fi : t) : t :=
  {| Name := Name fi; GoType := GoType fi; FieldNum := FieldNum fi;
     ProtoType := ProtoType fi; IsRepeated := IsRepeated fi;
     IsMessage := IsMessage fi; IsPointer := IsPointer fi;
     IsSliceOfPtr := IsSliceOfPtr fi; IsOptional := IsOptional fi;
     IsEnum := IsEnum fi; IsMap := IsMap fi; IsCustom := IsCustom fi;
     ElemType := ElemType fi; RawElemType := RawElemType fi;
     BaseType := BaseType fi; NeedsTypeConv := NeedsTypeConv fi;
     ConvType := ConvType fi; MapKeyType := MapKeyType fi;
     MapValueType := MapValueType fi; MapKeyProto := MapKeyProto fi;
     MapValueProto := v; MapValueIsMsg := MapValueIsMsg fi;
     MapValueIsPtr := MapValueIsPtr fi; MapValueCustom := MapValueCustom fi;
     IsOneof := IsOneof fi; OneofVariants := OneofVariants fi |}.

Definition set_MapValueIsMsg (v : bool) (fi : t) : t :=
  {| Name := Name fi; GoType := GoType fi; FieldNum := FieldNum fi;
     ProtoType := ProtoType fi; IsRepeated := IsRepeated fi;
     IsMessage := IsMessage fi; IsPointer := IsPointer fi;
     IsSliceOfPtr := IsSliceOfPtr fi; IsOptional := IsOptional fi;
     IsEnum := IsEnum fi; IsMap := IsMap fi; IsCustom := IsCustom fi;
     ElemType := ElemType fi; RawElemType := RawElemType fi;
     BaseType := BaseType fi; NeedsTypeConv := NeedsTypeConv fi;
     ConvType := ConvType fi; MapKeyType := MapKeyType fi;
     MapValueType := MapValueType fi; MapKeyProto := MapKeyProto fi;
     MapValueProto := MapValueProto fi; MapValueIsMsg := v;
     MapValueIsPtr := MapValueIsPtr fi; MapValueCustom := MapValueCustom fi;
     IsOneof := IsOneof fi; OneofVariants := OneofVariants fi |}.

Definition set_MapValueIsPtr (v : bool) (fi : t) : t :=
  {| Name := Name fi; GoType := GoType fi; FieldNum := FieldNum fi;
     ProtoType := ProtoType fi; IsRepeated := IsRepeated fi;
     IsMessage := IsMessage fi; IsPointer := IsPointer fi;
     IsSliceOfPtr := IsSliceOfPtr fi; IsOptional := IsOptional fi;
     IsEnum := IsEnum fi; IsMap := IsMap fi; IsCustom := IsCustom fi;
     ElemType := ElemType fi; RawElemType := RawElemType fi;
     BaseType := BaseType fi; NeedsTypeConv := NeedsTypeConv fi;
     ConvType := ConvType fi; MapKeyType := MapKeyType fi;
     MapValueType := MapValueType fi; MapKeyProto := MapKeyProto fi;
     MapValueProto := MapValueProto fi; MapValueIsMsg := MapValueIsMsg fi;
     MapValueIsPtr := v; MapValueCustom := MapValueCustom fi;
     IsOneof := IsOneof fi; OneofVariants := OneofVariants fi |}.

Definition set_MapValueCustom (v : bool) (fi : t) : t :=
  {| Name := Name fi; GoType := GoType fi; FieldNum := FieldNum fi;
     ProtoType := ProtoType fi; IsRepeated := IsRepeated fi;
     IsMessage := IsMessage fi; IsPointer := IsPointer fi;
     IsSliceOfPtr := IsSliceOfPtr fi; IsOptional := IsOptional fi;
     IsEnum := IsEnum fi; IsMap := IsMap fi; IsCustom := IsCustom fi;
     ElemType := ElemType fi; RawElemType := RawElemType fi;
     BaseType := BaseType fi; NeedsTypeConv := NeedsTypeConv fi;
     ConvType := ConvType fi; MapKeyType := MapKeyType fi;
     MapValueType := MapValueType fi; MapKeyProto := MapKeyProto fi;
     MapValueProto := MapValueProto fi; MapValueIsMsg := MapValueIsMsg fi;
     MapValueIsPtr := MapValueIsPtr fi; MapValueCustom := v;
     IsOneof := IsOneof fi; OneofVariants := OneofVariants fi |}.

End FieldInfo.

Module TypeInfo.
Record t := { Name : string; Fields : list FieldInfo.t }.
End TypeInfo.

(** ** Validation tables and checks ([validation.go]) *)

(** [validProtoTypes] is the set of valid protobuf types. *)
Definition validProtoTypes : gmap string bool :=
  list_to_map
    [ ("string", true); ("bytes", true); ("int32", true); ("int64", true);
      ("uint32", true); ("uint64", true); ("sint32", true); ("sint64", true);
      ("bool", true); ("double", true); ("float", true); ("fixed32", true);
      ("fixed64", true); ("sfixed32", true); ("sfixed64", true);
      ("message", true); ("enum", true); ("map", true); ("oneof", true) ].

(** [validMapKeyTypes] is the set of valid protobuf map key types. *)
Definition validMapKeyTypes : gmap string bool :=
  list_to_map
    [ ("string", true); ("int32", true); ("int64", true); ("uint32", true);
      ("uint64", true); ("sint32", true); ("sint64", true); ("fixed32", true);
      ("fixed64", true); ("sfixed32", true); ("sfixed64", true);
      ("bool", true) ].

(** Indexing a Go [map[string]bool]: [false] for an absent key. *)
Definition mapIndex (m : gmap string bool) (k : string) : bool :=
  default false (m !! k).

Definition isValidProtoType (protoType : string) : bool :=
  mapIndex validProtoTypes protoType.

Definition isValidMapKeyType (protoType : string) : bool :=
  mapIndex validMapKeyTypes protoType.

Fixpoint exprToString (expr : Expr) : string :=
  match expr with
  | Ident Name => Name
  | SelectorExpr X Sel => exprToString X +:+ "." +:+ Sel
  | StarExpr X => "*" +:+ exprToString X
  | ArrayType None Elt => "[]" +:+ exprToString Elt
  | ArrayType (Some Len) Elt =>
      "[" +:+ exprToString Len +:+ "]" +:+ exprToString Elt
  | BasicLit Value => Value
  | MapType Key Value =>
      "map[" +:+ exprToString Key +:+ "]" +:+ exprToString Value
  | InterfaceType => "*ast.InterfaceType"
  | ChanType _ => "*ast.ChanType"
  | FuncType => "*ast.FuncType"
  | OtherExpr goType => goType
  end.

Definition primitiveNames : list string :=
  [ "string"; "bool"; "byte"; "rune";
    "int"; "int8"; "int16"; "int32"; "int64";
    "uint"; "uint8"; "uint16"; "uint32"; "uint64";
    "float32"; "float64"; "complex64"; "complex128";
    "uintptr" ].

(** [validateOneofFieldType]: [None] is Go's [nil] error. *)
Definition validateOneofFieldType (expr : Expr) : option Error :=
  match expr with
  | Ident Name =>
      if bool_decide (Name ∈ primitiveNames)
      then Some (Errorf "oneof tag cannot be used on primitive type %q"
                   [AStr Name])
      else None
  | InterfaceType => None
  | ArrayType _ _ =>
      Some (Errorf "oneof tag cannot be used on slice/array type %s"
              [AStr (exprToString expr)])
  | MapType _ _ =>
      Some (Errorf "oneof tag cannot be used on map type %s"
              [AStr (exprToString expr)])
  | StarExpr _ =>
      Some (Errorf "oneof tag cannot be used on pointer type %s (the variants are stored as pointers)"
              [AStr (exprToString expr)])
  | ChanType _ =>
      Some (Errorf "oneof tag cannot be used on channel type %s"
              [AStr (exprToString expr)])
  | FuncType => Some (Errorf "oneof tag cannot be used on function type" [])
  | SelectorExpr _ _ => None
  | _ =>
      Some (Errorf "oneof tag cannot be used on type %s"
              [AStr (exprToString expr)])
  end.

(** ** The type classifier *)

(** [getTypeName] extracts the type name of an embedded field. *)
Fixpoint getTypeName (expr : Expr) : string :=
  match expr with
  | Ident Name => Name
  | SelectorExpr _ Sel => Sel
  | StarExpr X => getTypeName X
  | _ => ""
  end.

(** [t.Elt.( *ast.Ident)] succeeds and the identifier is [byte]. *)
Definition isByteIdent (expr : Expr) : bool :=
  match expr with
  | Ident Name => bool_decide (Name = "byte")
  | _ => false
  end.

(** [inferProtoType] infers the protobuf type from a Go type expression. *)
Fixpoint inferProtoType (expr : Expr) : string :=
  match expr with
  | Ident Name =>
      if bool_decide (Name = "string") then "string"
      else if bool_decide (Name = "bool") then "bool"
      else if bool_decide (Name = "int32") then "int32"
      else if bool_decide (Name = "int64") then "int64"
      else if bool_decide (Name = "int") then "int64"
      else if bool_decide (Name = "uint32") then "uint32"
      else if bool_decide (Name = "uint64") then "uint64"
      else if bool_decide (Name = "uint") then "uint64"
      else if bool_decide (Name = "float32") then "float"
      else if bool_decide (Name = "float64") then "double"
      else if bool_decide (Name = "byte") then "int32"
      else if bool_decide (Name = "any") then "interface"
      else "message"
  | InterfaceType => "interface"
  | SelectorExpr _ _ => "message"
  | StarExpr X => inferProtoType X
  | ArrayType None Elt =>
      if isByteIdent Elt then "bytes" else inferProtoType Elt
  | ArrayType (Some _) Elt => inferProtoType Elt
  | MapType _ _ => "map"
  | _ => "bytes"
  end.

Definition analyzeType (fi : FieldInfo.t) (expr : Expr) : FieldInfo.t :=
  match expr with
  | Ident Name =>
      FieldInfo.set_RawElemType Name
        (FieldInfo.set_ElemType Name (FieldInfo.set_BaseType Name fi))
  | SelectorExpr _ _ =>
      let fullType := exprToString expr in
      FieldInfo.set_RawElemType fullType
        (FieldInfo.set_ElemType fullType (FieldInfo.set_BaseType fullType fi))
  | StarExpr X =>
      let fi := FieldInfo.set_IsPointer true fi in
      let fi := FieldInfo.set_IsOptional true fi in
      let inner := exprToString X in
      FieldInfo.set_RawElemType inner
        (FieldInfo.set_ElemType inner (FieldInfo.set_BaseType inner fi))
  | ArrayType None Elt =>
      if isByteIdent Elt then
        FieldInfo.set_RawElemType "byte"
          (FieldInfo.set_ElemType "byte" (FieldInfo.set_BaseType "[]byte" fi))
      else
        let fi := FieldInfo.set_IsRepeated true fi in
        match Elt with
        | StarExpr X =>
            let fi := FieldInfo.set_IsSliceOfPtr true fi in
            let fi := FieldInfo.set_ElemType (exprToString X) fi in
            let fi :=
              FieldInfo.set_RawElemType ("*" +:+ FieldInfo.ElemType fi) fi in
            FieldInfo.set_BaseType (FieldInfo.ElemType fi) fi
        | _ =>
            let fi := FieldInfo.set_ElemType (exprToString Elt) fi in
            let fi := FieldInfo.set_RawElemType (FieldInfo.ElemType fi) fi in
            FieldInfo.set_BaseType (FieldInfo.ElemType fi) fi
        end
  | _ => fi
  end.

(** ** The metadata parser: [parseStruct] *)

(** A [for ... range] loop whose body may return an error. *)
Fixpoint forEach {S A : Type} (body : S -> A -> Result S) (l : list A) (s : S)
  : Result S :=
  match l with
  | [] => OK s
  | x :: l' => let! s' := body s x in forEach body l' s'
  end.

(** [parts[i]]; every use is guarded by a test on [len(parts)], and
    [strings.Split] never returns an empty slice. *)
Definition part (parts : list string) (i : nat) : string := nth i parts "".

(** One round of the loop over [parts[1:]] of a oneof tag: the variants
    parsed so far, then the next part. *)
Definition parseOneofVariant (protoTag : string)
    (oneofVariants : list OneofVariant.t) (part : string)
  : Result (list OneofVariant.t) :=
  let part := TrimSpace part in
  let colonIdx := LastIndex part ":" in
  if colonIdx =? -1 then
    Err (Errorf "invalid oneof variant %q in tag %q: expected Type:FieldNum format"
           [AStr part; AStr protoTag])
  else
    let variantType := TrimSpace (strTake (Z.to_nat colonIdx) part) in
    match Atoi (TrimSpace (strDrop (Z.to_nat (colonIdx + 1)) part)) with
    | None =>
        Err (Errorf "invalid field number for oneof variant %q in tag %q"
               [AStr part; AStr protoTag])
    | Some variantFieldNum =>
        if (variantFieldNum <? 1) || (536870911 <? variantFieldNum) then
          Err (Errorf "invalid field number %d for oneof variant %q: must be 1-536870911"
                 [AInt variantFieldNum; AStr variantType])
        else if (19000 <=? variantFieldNum) && (variantFieldNum <=? 19999) then
          Err (Errorf "invalid field number %d for oneof variant %q: range 19000-19999 is reserved"
                 [AInt variantFieldNum; AStr variantType])
        else
          match find (fun existing =>
                        OneofVariant.FieldNum existing =? variantFieldNum)
                  oneofVariants with
          | Some existing =>
              Err (Errorf "duplicate field number %d in oneof: used by both %q and %q"
                     [AInt variantFieldNum;
                      AStr (OneofVariant.TypeName existing); AStr variantType])
          | None =>
              OK (oneofVariants ++
                  [ {| OneofVariant.TypeName := variantType;
                       OneofVariant.FieldNum := variantFieldNum |} ])
          end
    end.

(** The field number of an ordinary field, from [parts[0]]. *)
Definition parseFieldNum (protoTag part0 : string) : Result Z :=
  match Atoi (TrimSpace part0) with
  | None =>
      Err (Errorf "invalid field number in tag %q: must be a number"
             [AStr protoTag])
  | Some fieldNum =>
      if fieldNum <? 1 then
        Err (Errorf "invalid field number %d in tag %q: must be >= 1"
               [AInt fieldNum; AStr protoTag])
      else if 536870911 <? fieldNum then
        Err (Errorf "invalid field number %d in tag %q: must be <= 536870911"
               [AInt fieldNum; AStr protoTag])
      else if (19000 <=? fieldNum) && (fieldNum <=? 19999) then
        Err (Errorf "invalid field number %d in tag %q: range 19000-19999 is reserved"
               [AInt fieldNum; AStr protoTag])
      else OK fieldNum
  end.

(** The option flags the loop over [parts[optionStart:]] sets. *)
Record optionFlags := {
  isRepeated : bool;
  isOptional : bool;
  isEnum : bool;
  isCustom : bool;
  mapValueCustom : bool
}.

Definition applyOption (isMap : bool) (o : optionFlags) (part : string)
  : optionFlags :=
  let word := TrimSpace part in
  if bool_decide (word = "repeated") then
    {| isRepeated := true; isOptional := isOptional o; isEnum := isEnum o;
       isCustom := isCustom o; mapValueCustom := mapValueCustom o |}
  else if bool_decide (word = "optional") then
    {| isRepeated := isRepeated o; isOptional := true; isEnum := isEnum o;
       isCustom := isCustom o; mapValueCustom := mapValueCustom o |}
  else if bool_decide (word = "enum") then
    {| isRepeated := isRepeated o; isOptional := isOptional o; isEnum := true;
       isCustom := isCustom o; mapValueCustom := mapValueCustom o |}
  else if bool_decide (word = "custom") then
    {| isRepeated := isRepeated o; isOptional := isOptional o;
       isEnum := isEnum o; isCustom := true;
       mapValueCustom := if isMap then true else mapValueCustom o |}
  else o.

(** The local variables of the loop body of [parseStruct] that are live
    when it reaches the loop over the field's names. *)
Record fieldVars := {
  protoTag : string;
  isOneof : bool;
  oneofVariants : list OneofVariant.t;
  fieldNum : Z;
  protoType : string;
  isMap : bool;
  mapKeyProto : string;
  mapValueProto : string;
  options : optionFlags;
  fieldNames : list string
}.

(** The name a diagnostic gives the field: its first name, or the empty
    string for an embedded field. *)
Definition firstName (field : Field.t) : string := hd "" (Field.Names field).

(** The variants of a oneof field together with the sentinel [-1], or the
    number of an ordinary field and no variants. *)
Definition parseNumbers (typeName : string) (field : Field.t)
    (protoTag : string) (parts : list string) (isOneof : bool)
  : Result (list OneofVariant.t * Z) :=
  if isOneof then
    match validateOneofFieldType (Field.Type_ field) with
    | Some err =>
        Err (Errorf "invalid oneof field %q in type %s: %w"
               [AStr (firstName field); AStr typeName; wrap err])
    | None =>
        if (length parts <? 2)%nat then
          Err (Errorf "oneof tag requires at least one variant: %s"
                 [AStr protoTag])
        else
          let! oneofVariants :=
            forEach (parseOneofVariant protoTag) (drop 1 parts) [] in
          OK (oneofVariants, -1)
    end
  else
    let! fieldNum := parseFieldNum protoTag (part parts 0) in
    OK ([], fieldNum).

(** The wire type: [oneof], the explicit second part, or the type
    inferred from the Go type. *)
Definition chooseProtoType (field : Field.t) (protoTag : string)
    (parts : list string) (isOneof : bool) : Result string :=
  if isOneof then OK "oneof"
  else if (2 <=? length parts)%nat then
    let protoType := TrimSpace (part parts 1) in
    if negb (isValidProtoType protoType) then
      Err (Errorf "invalid protobuf type %q in tag %q"
             [AStr protoType; AStr protoTag])
    else OK protoType
  else OK (inferProtoType (Field.Type_ field)).

(** [mapKeyProto] and [mapValueProto]: from the tag, or inferred from the
    Go map type; both stay empty otherwise. *)
Definition mapProtoTypes (field : Field.t) (parts : list string) (isMap : bool)
  : string * string :=
  if isMap then
    if (4 <=? length parts)%nat then
      (TrimSpace (part parts 2), TrimSpace (part parts 3))
    else
      match Field.Type_ field with
      | MapType Key Value => (inferProtoType Key, inferProtoType Value)
      | _ => ("", "")
      end
  else ("", "").

(** The option flags: their initial values, then the loop over
    [parts[optionStart:]], which a oneof field skips. *)
Definition parseOptions (parts : list string) (isOneof isMap : bool)
    (protoType : string) : optionFlags :=
  let options :=
    {| isRepeated := false; isOptional := false;
       isEnum := bool_decide (protoType = "enum");
       isCustom := false; mapValueCustom := false |} in
  if negb isOneof then
    let optionStart :=
      if isMap && (4 <=? length parts)%nat then 4%nat else 2%nat in
    fold_left (applyOption isMap) (drop optionStart parts) options
  else options.

(** The names the field is registered under: its own, or the type name of
    an embedded field. *)
Definition namesOf (typeName : string) (field : Field.t) (protoTag : string)
  : Result (list string) :=
  match Field.Names field with
  | [] =>
      let embeddedName := getTypeName (Field.Type_ field) in
      if bool_decide (embeddedName = "") then
        Err (Errorf "cannot determine name for embedded field with tag %q in type %s"
               [AStr protoTag; AStr typeName])
      else OK [embeddedName]
  | names => OK names
  end.

(** The loop body of [parseStruct] up to the loop over the field's names:
    [OK None] is [continue], [OK (Some vars)] goes on to register the
    field, [Err] returns the error. *)
Definition checkField (typeName : string) (field : Field.t)
  : Result (option fieldVars) :=
  match Field.Tag field with
  | None => OK None
  | Some protoTag =>
  if bool_decide (protoTag = "") then OK None else
  let parts := Split protoTag "," in
  let isOneof := bool_decide (TrimSpace (part parts 0) = "oneof") in
  let! '(oneofVariants, fieldNum) :=
    parseNumbers typeName field protoTag parts isOneof in
  let! protoType := chooseProtoType field protoTag parts isOneof in
  if bool_decide (protoType = "interface") then
    Err (Errorf "interface types are not supported for protobuf (use oneof tag for polymorphism): field %q in type %s has type %s"
           [AStr (firstName field); AStr typeName;
            AStr (exprToString (Field.Type_ field))])
  else
  let isMap := bool_decide (protoType = "map") in
  let '(mapKeyProto, mapValueProto) := mapProtoTypes field parts isMap in
  if isMap && negb (isValidMapKeyType mapKeyProto) then
    Err (Errorf "invalid map key type %q in tag %q: must be string, bool, or integer type"
           [AStr mapKeyProto; AStr protoTag])
  else
  let options := parseOptions parts isOneof isMap protoType in
  let! fieldNames := namesOf typeName field protoTag in
  OK (Some {| protoTag := protoTag; isOneof := isOneof;
              oneofVariants := oneofVariants; fieldNum := fieldNum;
              protoType := protoType; isMap := isMap;
              mapKeyProto := mapKeyProto; mapValueProto := mapValueProto;
              options := options; fieldNames := fieldNames |})
  end.

(** The loop over the variants of a oneof field that checks each variant
    number against [seenFieldNums] and records it. *)
Definition seeVariant (typeName fieldName : string)
    (seenFieldNums : gmap Z string) (variant : OneofVariant.t)
  : Result (gmap Z string) :=
  match seenFieldNums !! OneofVariant.FieldNum variant with
  | Some existingField =>
      Err (Errorf "duplicate field number %d: used by both %q and oneof variant %q in type %s"
             [AInt (OneofVariant.FieldNum variant); AStr existingField;
              AStr (OneofVariant.TypeName variant); AStr typeName])
  | None =>
      OK (<[OneofVariant.FieldNum variant :=
              fieldName +:+ ":" +:+ OneofVariant.TypeName variant]>
            seenFieldNums)
  end.

(** The descriptor built for one name of a field. *)
Definition newFieldInfo (field : Field.t) (v : fieldVars) (fieldName : string)
  : FieldInfo.t :=
  let fi :=
    {| FieldInfo.Name := fieldName;
       FieldInfo.GoType := "";
       FieldInfo.FieldNum := fieldNum v;
       FieldInfo.ProtoType := protoType v;
       FieldInfo.IsRepeated := isRepeated (options v);
       FieldInfo.IsMessage := bool_decide (protoType v = "message");
       FieldInfo.IsPointer := false;
       FieldInfo.IsSliceOfPtr := false;
       FieldInfo.IsOptional := isOptional (options v);
       FieldInfo.IsEnum := isEnum (options v);
       FieldInfo.IsMap := isMap v;
       FieldInfo.IsCustom := isCustom (options v);
       FieldInfo.ElemType := "";
       FieldInfo.RawElemType := "";
       FieldInfo.BaseType := "";
       FieldInfo.NeedsTypeConv := false;
       FieldInfo.ConvType := "";
       FieldInfo.MapKeyType := "";
       FieldInfo.MapValueType := "";
       FieldInfo.MapKeyProto := "";
       FieldInfo.MapValueProto := "";
       FieldInfo.MapValueIsMsg := false;
       FieldInfo.MapValueIsPtr := false;
       FieldInfo.MapValueCustom := false;
       FieldInfo.IsOneof := isOneof v;
       FieldInfo.OneofVariants := oneofVariants v |} in
  let fi := FieldInfo.set_GoType (exprToString (Field.Type_ field)) fi in
  let fi := analyzeType fi (Field.Type_ field) in
  let fi :=
    if FieldInfo.IsMap fi then
      let fi := FieldInfo.set_MapKeyProto (mapKeyProto v) fi in
      let fi := FieldInfo.set_MapValueProto (mapValueProto v) fi in
      let fi :=
        FieldInfo.set_MapValueIsMsg
          (bool_decide (mapValueProto v = "message")) fi in
      let fi := FieldInfo.set_MapValueCustom (mapValueCustom (options v)) fi in
      match Field.Type_ field with
      | MapType Key Value =>
          let fi := FieldInfo.set_MapKeyType (exprToString Key) fi in
          let fi := FieldInfo.set_MapValueType (exprToString Value) fi in
          match Value with
          | StarExpr _ => FieldInfo.set_MapValueIsPtr true fi
          | _ => fi
          end
      | _ => fi
      end
    else fi in
  if FieldInfo.IsEnum fi then
    FieldInfo.set_ConvType "int32" (FieldInfo.set_NeedsTypeConv true fi)
  else fi.

(** The state the loops of [parseStruct] update: [seenFieldNums] and
    [info.Fields]. *)
Definition parseState : Type := gmap Z string * list FieldInfo.t.

(** One round of the loop over [fieldNames]. *)
Definition registerName (typeName : string) (field : Field.t) (v : fieldVars)
    (st : parseState) (fieldName : string) : Result parseState :=
  let '(seenFieldNums, fields) := st in
  let! seenFieldNums :=
    if isOneof v then
      forEach (seeVariant typeName fieldName) (oneofVariants v) seenFieldNums
    else
      match seenFieldNums !! fieldNum v with
      | Some existingField =>
          Err (Errorf "duplicate field number %d: used by both %q and %q in type %s"
                 [AInt (fieldNum v); AStr existingField; AStr fieldName;
                  AStr typeName])
      | None => OK (<[fieldNum v := fieldName]> seenFieldNums)
      end
  in
  OK (seenFieldNums, fields ++ [newFieldInfo field v fieldName]).

(** One round of the loop over [structType.Fields.List]. *)
Definition parseField (typeName : string) (st : parseState) (field : Field.t)
  : Result parseState :=
  let! checked := checkField typeName field in
  match checked with
  | None => OK st
  | Some v => forEach (registerName typeName field v) (fieldNames v) st
  end.

(** [sort.Slice]: for slices of at most twelve elements Go runs the
    insertion sort below (each element is swapped leftwards while it is
    less than its left neighbour); longer slices go through pattern-defeating
    quicksort, which yields a permutation sorted by [less] as well but may
    order elements that compare equal differently.  [sorted] is the sorted
    prefix, reversed. *)
Fixpoint sink {A : Type} (less : A -> A -> bool) (x : A) (sorted : list A)
  : list A :=
  match sorted with
  | [] => [x]
  | y :: sorted' =>
      if less x y then y :: sink less x sorted' else x :: sorted
  end.

Definition sortSlice {A : Type} (less : A -> A -> bool) (data : list A)
  : list A :=
  reverse (fold_left (fun sorted x => sink less x sorted) data []).

Definition parseStruct (typeName : string) (structType : list Field.t)
  : Result TypeInfo.t :=
  let! '(_, fields) := forEach (parseField typeName) structType (∅, []) in
  OK {| TypeInfo.Name := typeName;
        TypeInfo.Fields :=
          sortSlice
            (fun fi fj => FieldInfo.FieldNum fi <? FieldInfo.FieldNum fj)
            fields |}.

(** ** Vocabulary of the properties *)

(** The order of the reversed sorted prefix of [sortSlice]. *)
Definition descending {A : Type} (key : A -> Z) (x y : A) : Prop :=
  key y <= key x.

(** The descriptors [parseStruct] appends for a field: one per name. *)
Definition descriptors (typeName : string) (field : Field.t)
  : list FieldInfo.t :=
  match checkField typeName field with
  | OK (Some v) => newFieldInfo field v <$> fieldNames v
  | _ => []
  end.

(** The number set of a descriptor: its field number for an ordinary
    field, its variants' numbers for a oneof field. *)
Definition numbers (fi : FieldInfo.t) : list Z :=
  if FieldInfo.IsOneof fi
  then OneofVariant.FieldNum <$> FieldInfo.OneofVariants fi
  else [FieldInfo.FieldNum fi].

(** The numbers a struct's fields assign, in order of declaration, taken
    over the fields that pass [checkField]. *)
Definition assigned (typeName : string) (structType : list Field.t)
  : list Z :=
  (structType ≫= descriptors typeName) ≫= numbers.

(** What [analyzeType] leaves alone. *)
Definition sameTagData (fi fi' : FieldInfo.t) : Prop :=
  FieldInfo.Name fi' = FieldInfo.Name fi /\
  FieldInfo.FieldNum fi' = FieldInfo.FieldNum fi /\
  FieldInfo.ProtoType fi' = FieldInfo.ProtoType fi /\
  FieldInfo.IsOneof fi' = FieldInfo.IsOneof fi /\
  FieldInfo.OneofVariants fi' = FieldInfo.OneofVariants fi /\
  FieldInfo.IsMap fi' = FieldInfo.IsMap fi /\
  FieldInfo.IsEnum fi' = FieldInfo.IsEnum fi /\
  FieldInfo.MapKeyProto fi' = FieldInfo.MapKeyProto fi.

(** The format string of a diagnostic. *)
Definition errorFormat (e : Error) : string :=
  match e with Errorf format _ => format end.

(** The diagnostics of the uniqueness checks: their format starts with
    [duplicate field number]. *)
Definition duplicateError (e : Error) : Prop :=
  exists rest, errorFormat e = "duplicate field number" +:+ rest.

(** The invariant of [seenFieldNums] and [info.Fields]: the numbers of the
    descriptors built so far are pairwise distinct, and they are the keys
    of [seenFieldNums]. *)
Definition stateOK (st : parseState) : Prop :=
  NoDup (snd st ≫= numbers) /\
  forall n, is_Some (fst st !! n) <-> n ∈ snd st ≫= numbers.

(** The protobuf wire types a tag may name. *)
Definition protoTypeNames : list string :=
  [ "string"; "bytes"; "int32"; "int64"; "uint32"; "uint64"; "sint32";
    "sint64"; "bool"; "double"; "float"; "fixed32"; "fixed64"; "sfixed32";
    "sfixed64"; "message"; "enum"; "map"; "oneof" ].

(** The wire types a map key may have: string, bool and the integer
    types. *)
Definition mapKeyTypeNames : list string :=
  [ "string"; "bool"; "int32"; "int64"; "uint32"; "uint64"; "sint32";
    "sint64"; "fixed32"; "fixed64"; "sfixed32"; "sfixed64" ].

(** The stages of [checkField] on the tag [tag], as one proposition. *)
Definition passes (typeName : string) (field : Field.t) (tag : string)
    (v : fieldVars) : Prop :=
  let parts := Split tag "," in
  protoTag v = tag /\
  isOneof v = bool_decide (TrimSpace (part parts 0) = "oneof") /\
  parseNumbers typeName field tag parts (isOneof v)
    = OK (oneofVariants v, fieldNum v) /\
  chooseProtoType field tag parts (isOneof v) = OK (protoType v) /\
  protoType v <> "interface" /\
  isMap v = bool_decide (protoType v = "map") /\
  mapProtoTypes field parts (isMap v) = (mapKeyProto v, mapValueProto v) /\
  (isMap v = true -> isValidMapKeyType (mapKeyProto v) = true) /\
  options v = parseOptions parts (isOneof v) (isMap v) (protoType v) /\
  namesOf typeName field tag = OK (fieldNames v).

(** Whether the Go type alone marks a field as repeated: a slice whose
    element is not [byte]. *)
Definition repeatedByType (expr : Expr) : bool :=
  match expr with
  | ArrayType None Elt => negb (isByteIdent Elt)
  | _ => false
  end.

(** The identifiers [inferProtoType] has a case for. *)
Definition inferredNames : list string :=
  [ "string"; "bool"; "int32"; "int64"; "int"; "uint32"; "uint64"; "uint";
    "float32"; "float64"; "byte"; "any" ].

(** A tagged field. *)
Definition mkField (names : list string) (type : Expr) (tag : string)
  : Field.t :=
  {| Field.Names := names; Field.Type_ := type; Field.Tag := Some tag |}.

(** The diagnostic that rejects an interface-typed field. *)
Definition interfaceRejection (e : Error) : Prop :=
  exists rest, errorFormat e = "interface types are not supported" +:+ rest.

(** A part of a oneof tag [Type:FieldNum] and the variant it denotes: the
    trimmed part is split at its last colon, the prefix is the type name
    and the suffix the field number. *)
Definition variantOf (part : string) (variant : OneofVariant.t) : Prop :=
  exists prefix suffix,
    TrimSpace part = prefix +:+ ":" +:+ suffix /\
    LastIndex suffix ":" = -1 /\
    OneofVariant.TypeName variant = TrimSpace prefix /\
    Atoi (TrimSpace suffix) = Some (OneofVariant.FieldNum variant).

(** A legal field number. *)
Definition validFieldNum (n : Z) : Prop :=
  1 <= n <= 536870911 /\ ~ (19000 <= n <= 19999).

(** The result of a successful parse, [None] for a failed one. *)
Definition parsed (r : Result TypeInfo.t) : option TypeInfo.t :=
  match r with OK info => Some info | Err _ => None end.

(** A struct with a repeated field, a oneof field and two scalars, declared
    out of field-number order. *)
Definition chatStruct : list Field.t :=
  [ mkField ["Tags"] (ArrayType None (Ident "string")) "5";
    mkField ["Count"] (Ident "int32") "3";
    mkField ["Content"] (Ident "Message") "oneof,TextMessage:2,ImageMessage:4";
    mkField ["ID"] (Ident "int64") "1" ].

(** Its descriptor, as [parseStruct] computes it. *)
Definition chatInfo : TypeInfo.t :=
  Eval vm_compute in
    default {| TypeInfo.Name := ""; TypeInfo.Fields := [] |}
      (parsed (parseStruct "Chat" chatStruct)).

(** An ordinary field at 2 and a oneof variant [TextMessage:2]. *)
Definition clashStruct : list Field.t :=
  [ mkField ["ID"] (Ident "int64") "2";
    mkField ["Content"] (Ident "Message") "oneof,TextMessage:2" ].

(** Two variants of one oneof at 2. *)
Definition twinField : Field.t :=
  mkField ["Content"] (Ident "Message") "oneof,TextMessage:2,ImageMessage:2".

(** Two ordinary fields at 1. *)
Definition twoOrdinary : list Field.t :=
  [ mkField ["ID"] (Ident "int64") "1";
    mkField ["Text"] (Ident "string") "1" ].

(** Two oneof fields that both have a variant at 3. *)
Definition twoOneofs : list Field.t :=
  [ mkField ["Content"] (Ident "Message") "oneof,TextMessage:2,ImageMessage:3";
    mkField ["Extra"] (Ident "Payload") "oneof,BinaryPayload:3" ].

Definition textVariant : OneofVariant.t :=
  {| OneofVariant.TypeName := "TextMessage"; OneofVariant.FieldNum := 2 |}.

Definition imageVariant (n : Z) : OneofVariant.t :=
  {| OneofVariant.TypeName := "ImageMessage"; OneofVariant.FieldNum := n |}.

(** [Content any] with tag [1]. *)
Definition anyField : Field.t := mkField ["Content"] (Ident "any") "1".

(** [Tags []string] with tag [5]. *)
Definition tagsField : Field.t :=
  mkField ["Tags"] (ArrayType None (Ident "string")) "5".

(** [Scores map[float64]int] with tag [7]. *)
Definition floatKeyField : Field.t :=
  mkField ["Scores"] (MapType (Ident "float64") (Ident "int")) "7".

(** [Count int] with tag [6,repeated]. *)
Definition optionOnlyField : Field.t :=
  mkField ["Count"] (Ident "int") "6,repeated".

(** [Digest [4]byte] with tag [9]. *)
Definition digestField : Field.t :=
  mkField ["Digest"] (ArrayType (Some (BasicLit "4")) (Ident "byte")) "9".

(** [Content Message] with the tag [oneof]. *)
Definition bareOneofField : Field.t :=
  mkField ["Content"] (Ident "Message") "oneof".

(** [Content Message] with a variant that has no colon. *)
Definition noColonField : Field.t :=
  mkField ["Content"] (Ident "Message") "oneof,TextMessage".

(** The trimmed parts of a tag that the option loop goes through. *)
Definition optionWords (isMap : bool) (parts : list string) : list string :=
  TrimSpace <$>
    drop (if isMap && (4 <=? length parts)%nat then 4%nat else 2%nat) parts.

(** Whether [inferProtoType] answers [bytes]: under pointers, arrays and
    slices, the type is either a slice of [byte] or of a kind the type
    switch has no case for (a channel, a function, a literal, ...). *)
Fixpoint inferredBytes (expr : Expr) : bool :=
  match expr with
  | Ident _ | SelectorExpr _ _ | InterfaceType | MapType _ _ => false
  | StarExpr X => inferredBytes X
  | ArrayType None Elt => isByteIdent Elt || inferredBytes Elt
  | ArrayType (Some _) Elt => inferredBytes Elt
  | _ => true
  end.

(** [Digest [4]byte] with tag [9,int32,repeated]. *)
Definition flaggedDigestField : Field.t :=
  mkField ["Digest"] (ArrayType (Some (BasicLit "4")) (Ident "byte"))
    "9,int32,repeated".

(** [Keys [2][]byte] with tag [1]. *)
Definition keysField : Field.t :=
  mkField ["Keys"]
    (ArrayType (Some (BasicLit "2")) (ArrayType None (Ident "byte"))) "1".

(** [Hooks [4]func()] with tag [2]. *)
Definition hooksField : Field.t :=
  mkField ["Hooks"] (ArrayType (Some (BasicLit "4")) FuncType) "2".

(** * The rest of the generator

    ** Template helpers

    The functions the code template calls through its function map. *)

(** A [switch] over a string: the body of the first case that lists the
    tag, [None] when no case does (the [default] case, or falling out of
    the statement). *)
Fixpoint switch {A : Type} (tag : string) (cases : list (list string * A))
  : option A :=
  match cases with
  | [] => None
  | (labels, body) :: cases' =>
      if bool_decide (tag ∈ labels) then Some body else switch tag cases'
  end.

(** [appendFunc] returns the MessageMarshaler append function name for a
    protobuf type. *)
Definition appendFunc (protoType : string) (isRepeated : bool) : string :=
  let packed :=
    if isRepeated then
      switch protoType
        [ (["int32"], "AppendInt32s");
          (["int64"], "AppendInt64s");
          (["uint32"], "AppendUint32s");
          (["uint64"], "AppendUint64s");
          (["sint32"], "AppendSint32s");
          (["sint64"], "AppendSint64s");
          (["bool"], "AppendBools");
          (["double"], "AppendDoubles");
          (["float"], "AppendFloats");
          (["fixed32"], "AppendFixed32s");
          (["fixed64"], "AppendFixed64s");
          (["sfixed32"], "AppendSfixed32s");
          (["sfixed64"], "AppendSfixed64s") ]
    else None in
  match packed with
  | Some name => name
  | None =>
      default "AppendBytes"
        (switch protoType
           [ (["string"], "AppendString");
             (["bytes"], "AppendBytes");
             (["int32"; "enum"], "AppendInt32");
             (["int64"], "AppendInt64");
             (["uint32"], "AppendUint32");
             (["uint64"], "AppendUint64");
             (["sint32"], "AppendSint32");
             (["sint64"], "AppendSint64");
             (["bool"], "AppendBool");
             (["double"], "AppendDouble");
             (["float"], "AppendFloat");
             (["fixed32"], "AppendFixed32");
             (["fixed64"], "AppendFixed64");
             (["sfixed32"], "AppendSfixed32");
             (["sfixed64"], "AppendSfixed64") ])
  end.

(** [readFunc] returns the FieldContext read function name for a protobuf
    type. *)
Definition readFunc (protoType : string) : string :=
  default "Bytes"
    (switch protoType
       [ (["string"], "String");
         (["bytes"], "Bytes");
         (["int32"; "enum"], "Int32");
         (["int64"], "Int64");
         (["uint32"], "Uint32");
         (["uint64"], "Uint64");
         (["sint32"], "Sint32");
         (["sint64"], "Sint64");
         (["bool"], "Bool");
         (["double"], "Double");
         (["float"], "Float");
         (["fixed32"], "Fixed32");
         (["fixed64"], "Fixed64");
         (["sfixed32"], "Sfixed32");
         (["sfixed64"], "Sfixed64") ]).

(** [unpackFunc] returns the FieldContext unpack function name for packed
    repeated fields. *)
Definition unpackFunc (protoType : string) : string :=
  default "Bytes"
    (switch protoType
       [ (["int32"; "enum"], "UnpackInt32s");
         (["int64"], "UnpackInt64s");
         (["uint32"], "UnpackUint32s");
         (["uint64"], "UnpackUint64s");
         (["sint32"], "UnpackSint32s");
         (["sint64"], "UnpackSint64s");
         (["bool"], "UnpackBools");
         (["double"], "UnpackDoubles");
         (["float"], "UnpackFloats");
         (["fixed32"], "UnpackFixed32s");
         (["fixed64"], "UnpackFixed64s");
         (["sfixed32"], "UnpackSfixed32s");
         (["sfixed64"], "UnpackSfixed64s") ]).

(** [isLengthDelimited] returns true for types that are length-delimited
    (not packed). *)
Definition isLengthDelimited (protoType : string) : bool :=
  bool_decide (protoType = "string") || bool_decide (protoType = "bytes").

(** ** The driver: [main]

    [log.Fatal] and [log.Fatalf] end the run; a run that ends so is an
    [Err] that carries the logged message. *)

(** [strings.HasSuffix]. *)
Definition HasSuffix (s suffix : string) : bool :=
  (String.length suffix <=? String.length s)%nat &&
  String.eqb (strDrop (String.length s - String.length suffix) s) suffix.

(** What [main] looks at in a parsed file: the kind of a declaration, the
    kind of a specification, and whether the type of a type specification
    is a struct type. *)
Inductive Token := IMPORT | CONST | TYPE | VAR.

Inductive TypeExpr :=
| StructType (List : list Field.t)
| OtherType (expr : Expr).

Inductive Spec :=
| TypeSpec (Name : string) (Type_ : TypeExpr)
| ImportSpec
| ValueSpec.

Inductive Decl :=
| GenDecl (Tok : Token) (Specs : list Spec)
| FuncDecl
| BadDecl.

Module File.
Record t := { Name : string; Decls : list Decl }.
End File.

Module DirEntry.
Record t := { Name : string; IsDir : bool }.
End DirEntry.

(** The entries [main] skips: directories, names that do not end in [.go]
    and names that end in [_test.go]. *)
Definition skipped (entry : DirEntry.t) : bool :=
  DirEntry.IsDir entry
  || negb (HasSuffix (DirEntry.Name entry) ".go")
  || HasSuffix (DirEntry.Name entry) "_test.go".

(** One round of the loop over the directory entries.  The state is
    [files] and [pkgName]; [ParseFile] is [parser.ParseFile] on the files
    of the directory as they are during the run, [Join] is
    [filepath.Join]. *)
Definition readEntry (ParseFile : string -> Result File.t)
    (Join : string -> string -> string) (dir : string)
    (st : list File.t * string) (entry : DirEntry.t)
  : Result (list File.t * string) :=
  let '(files, pkgName) := st in
  if skipped entry then OK st
  else
    let filePath := Join dir (DirEntry.Name entry) in
    match ParseFile filePath with
    | Err err =>
        Err (Errorf "failed to parse file %s: %v" [AStr filePath; wrap err])
    | OK file =>
        if bool_decide (pkgName = "") then
          OK (files ++ [file], File.Name file)
        else if bool_decide (File.Name file <> pkgName) then OK st
        else OK (files ++ [file], pkgName)
    end.

(** The loop over the directory entries and the check that follows it. *)
Definition readFiles (ParseFile : string -> Result File.t)
    (Join : string -> string -> string) (dir : string)
    (entries : list DirEntry.t) : Result (list File.t * string) :=
  let! '(files, pkgName) :=
    forEach (readEntry ParseFile Join dir) entries ([], "") in
  if bool_decide (length files = 0%nat) then
    Err (Errorf "no Go files found" [])
  else OK (files, pkgName).

(** One round of the loop over the requested type names, for the type
    specification [Name], [Type_]. *)
Definition matchType (Name : string) (Type_ : TypeExpr)
    (typeInfos : gmap string TypeInfo.t) (typeName : string)
  : Result (gmap string TypeInfo.t) :=
  if bool_decide (Name = typeName) then
    match Type_ with
    | StructType structType =>
        match parseStruct typeName structType with
        | Err err =>
            Err (Errorf "failed to parse struct %s: %v"
                   [AStr typeName; wrap err])
        | OK info => OK (<[typeName := info]> typeInfos)
        end
    | OtherType _ => Err (Errorf "type %s is not a struct" [AStr typeName])
    end
  else OK typeInfos.

(** The loops over the specifications, the declarations and the files. *)
Definition visitSpec (types : list string)
    (typeInfos : gmap string TypeInfo.t) (spec : Spec)
  : Result (gmap string TypeInfo.t) :=
  match spec with
  | TypeSpec Name Type_ => forEach (matchType Name Type_) types typeInfos
  | _ => OK typeInfos
  end.

Definition visitDecl (types : list string)
    (typeInfos : gmap string TypeInfo.t) (decl : Decl)
  : Result (gmap string TypeInfo.t) :=
  match decl with
  | GenDecl TYPE Specs => forEach (visitSpec types) Specs typeInfos
  | _ => OK typeInfos
  end.

Definition visitFile (types : list string)
    (typeInfos : gmap string TypeInfo.t) (file : File.t)
  : Result (gmap string TypeInfo.t) :=
  forEach (visitDecl types) (File.Decls file) typeInfos.

(** The check that all types were found. *)
Definition checkFound (typeInfos : gmap string TypeInfo.t) (_ : unit)
    (typeName : string) : Result unit :=
  match typeInfos !! typeName with
  | None => Err (Errorf "type %s not found" [AStr typeName])
  | Some _ => OK tt
  end.

(** [typeInfos] as [main] hands it to [generateCode]: the requested types
    found in the files, then the check that all of them were found. *)
Definition findTypes (types : list string) (files : list File.t)
  : Result (gmap string TypeInfo.t) :=
  let! typeInfos := forEach (visitFile types) files ∅ in
  let! _ := forEach (checkFound typeInfos) types tt in
  OK typeInfos.

(** ** Vocabulary of the further properties *)

(** A field the parser does not skip: it has a tag, and the tag has a
    non-empty [protobuf] key. *)
Definition hasProtoTag (field : Field.t) : bool :=
  match Field.Tag field with
  | Some protoTag => negb (bool_decide (protoTag = ""))
  | None => false
  end.

(** The name a field is registered under when it has at most one name. *)
Definition registeredName (field : Field.t) : string :=
  match Field.Names field with
  | [] => getTypeName (Field.Type_ field)
  | name :: _ => name
  end.

(** The wire types that have a packed encoding. *)
Definition packedTypes : list string :=
  [ "int32"; "int64"; "uint32"; "uint64"; "sint32"; "sint64"; "bool";
    "double"; "float"; "fixed32"; "fixed64"; "sfixed32"; "sfixed64" ].

(** The wire types that are not scalars. *)
Definition compositeTypes : list string := [ "message"; "map"; "oneof" ].

(** Whether an expression is a pointer type. *)
Definition isStarExpr (expr : Expr) : bool :=
  match expr with StarExpr _ => true | _ => false end.

(** Whether an expression is a slice of pointers. *)
Definition isSliceOfStar (expr : Expr) : bool :=
  match expr with
  | ArrayType None (StarExpr _) => true
  | _ => false
  end.

(** The type specifications of a [type] declaration, and of the [type]
    declarations of the files, in the order [main] visits them. *)
Definition typeSpecsOf (decl : Decl) : list (string * TypeExpr) :=
  match decl with
  | GenDecl TYPE Specs =>
      omap (fun spec =>
              match spec with
              | TypeSpec Name Type_ => Some (Name, Type_)
              | _ => None
              end) Specs
  | _ => []
  end.

Definition typeSpecs (files : list File.t) : list (string * TypeExpr) :=
  files ≫= fun file => File.Decls file ≫= typeSpecsOf.

(** The rounds of the loop over the requested type names for one type
    specification. *)
Definition matchTypes (types : list string)
    (typeInfos : gmap string TypeInfo.t) (spec : string * TypeExpr)
  : Result (gmap string TypeInfo.t) :=
  forEach (matchType (fst spec) (snd spec)) types typeInfos.

(** A requested type specification that [main] can use: a struct type
    that [parseStruct] accepts. *)
Definition usable (types : list string) (spec : string * TypeExpr) : Prop :=
  fst spec ∈ types ->
  exists structType info,
    snd spec = StructType structType /\
    parseStruct (fst spec) structType = OK info.

(** The formats of the diagnostics of [parseStruct], in the order of the
    checks that return them. *)
Definition diagnostics : list string :=
  [ "invalid oneof field %q in type %s: %w";
    "oneof tag requires at least one variant: %s";
    "invalid oneof variant %q in tag %q: expected Type:FieldNum format";
    "invalid field number for oneof variant %q in tag %q";
    "invalid field number %d for oneof variant %q: must be 1-536870911";
    "invalid field number %d for oneof variant %q: range 19000-19999 is reserved";
    "duplicate field number %d in oneof: used by both %q and %q";
    "invalid field number in tag %q: must be a number";
    "invalid field number %d in tag %q: must be >= 1";
    "invalid field number %d in tag %q: must be <= 536870911";
    "invalid field number %d in tag %q: range 19000-19999 is reserved";
    "invalid protobuf type %q in tag %q";
    "interface types are not supported for protobuf (use oneof tag for polymorphism): field %q in type %s has type %s";
    "invalid map key type %q in tag %q: must be string, bool, or integer type";
    "cannot determine name for embedded field with tag %q in type %s";
    "duplicate field number %d: used by both %q and oneof variant %q in type %s";
    "duplicate field number %d: used by both %q and %q in type %s" ].

(** A directory listing and a parser for the examples: two files of
    package [chat], one of package [tools], a test file, a directory and
    a text file. *)
Definition chatFile : File.t :=
  {| File.Name := "chat";
     File.Decls :=
       [ GenDecl IMPORT [ImportSpec];
         GenDecl TYPE
           [ TypeSpec "Message" (OtherType InterfaceType);
             TypeSpec "Chat" (StructType chatStruct) ];
         FuncDecl ] |}.

Definition userFile : File.t :=
  {| File.Name := "chat";
     File.Decls :=
       [ GenDecl TYPE
           [ TypeSpec "User"
               (StructType [ mkField ["ID"] (Ident "int64") "1";
                             mkField ["Name"] (Ident "string") "2" ]) ] ] |}.

Definition toolsFile : File.t :=
  {| File.Name := "tools"; File.Decls := [] |}.

Definition chatDir : list DirEntry.t :=
  [ {| DirEntry.Name := "README.md"; DirEntry.IsDir := false |};
    {| DirEntry.Name := "chat.go"; DirEntry.IsDir := false |};
    {| DirEntry.Name := "chat_test.go"; DirEntry.IsDir := false |};
    {| DirEntry.Name := "gen.go"; DirEntry.IsDir := false |};
    {| DirEntry.Name := "testdata.go"; DirEntry.IsDir := true |};
    {| DirEntry.Name := "user.go"; DirEntry.IsDir := false |} ].

Definition slashJoin (dir name : string) : string := dir +:+ "/" +:+ name.

Definition chatParser (path : string) : Result File.t :=
  if bool_decide (path = "./chat.go") then OK chatFile
  else if bool_decide (path = "./gen.go") then OK toolsFile
  else if bool_decide (path = "./user.go") then OK userFile
  else Err (Errorf "open %s: no such file or directory" [AStr path]).

(** A struct with a scalar, a slice of pointers, a pointer, an enum, a
    map with pointer values, an embedded field, an untagged field and a
    oneof field. *)
Definition ownerField : Field.t :=
  mkField ["Owner"] (StarExpr (Ident "User")) "3, message ,custom, optional".

Definition samplesField : Field.t :=
  mkField ["Samples"] (ArrayType None (StarExpr (Ident "Sample"))) "2".

Definition labelsField : Field.t :=
  mkField ["Labels"] (MapType (Ident "string") (StarExpr (Ident "Label"))) "5".

Definition metaField : Field.t :=
  mkField [] (StarExpr (SelectorExpr (Ident "base") "Meta")) "6".

Definition cacheField : Field.t :=
  {| Field.Names := ["cache"]; Field.Type_ := Ident "int";
     Field.Tag := None |}.

Definition seriesStruct : list Field.t :=
  [ mkField ["Name"] (Ident "string") "1";
    samplesField;
    ownerField;
    mkField ["Status"] (Ident "Status") "4,enum";
    labelsField;
    metaField;
    cacheField;
    mkField ["Payload"] (Ident "Body") "oneof,Text:7,Image:8" ].

Definition seriesInfo : TypeInfo.t :=
  Eval vm_compute in
    default {| TypeInfo.Name := ""; TypeInfo.Fields := [] |}
      (parsed (parseStruct "Series" seriesStruct)).

(** [A, B int64] with the tag [1]. *)
Definition pairField : Field.t := mkField ["A"; "B"] (Ident "int64") "1".

(** An embedded slice. *)
Definition namelessField : Field.t :=
  mkField [] (ArrayType None (Ident "Sample")) "9".

(** A oneof tag on a slice. *)
Definition sliceOneofField : Field.t :=
  mkField ["Items"] (ArrayType None (Ident "Item")) "oneof,Text:1".

(** A file that declares [Series] and, as a defined type, [Status]. *)
Definition seriesFile : File.t :=
  {| File.Name := "metrics";
     File.Decls :=
       [ GenDecl TYPE
           [ TypeSpec "Status" (OtherType (Ident "int32"));
             TypeSpec "Series" (StructType seriesStruct) ] ] |}.

(** * Properties *)

(** ** Loops *)

Lemma forEach_app {S A} (body : S -> A -> Result S) l1 l2 s :
  forEach body (l1 ++ l2) s =
  match forEach body l1 s with OK s' => forEach body l2 s' | Err e => Err e end.
Proof.
  revert s. induction l1 as [|x l1 IH]; intros s; simpl; [done|].
  destruct (body s x); [apply IH | done].
Qed.

Lemma forEach_cons {S A} (body : S -> A -> Result S) x l s :
  forEach body (x :: l) s =
  match body s x with OK s' => forEach body l s' | Err e => Err e end.
Proof. reflexivity. Qed.

(** A loop that meets a failing round after a prefix of successful ones
    returns that round's error. *)
Lemma forEach_stops {S A} (body : S -> A -> Result S) l1 x l2 s s' e :
  forEach body l1 s = OK s' -> body s' x = Err e ->
  forEach body (l1 ++ x :: l2) s = Err e.
Proof. intros H1 H2. rewrite forEach_app, H1. simpl. by rewrite H2. Qed.

(** ** Sorting *)

Section SortFacts.
Context {A : Type} (key : A -> Z).
Local Abbreviation less := (fun x y : A => key x <? key y).

Lemma sink_Permutation x l : sink less x l ≡ₚ x :: l.
Proof.
  induction l as [|y l IH]; simpl; [done|].
  destruct (key x <? key y); [|done].
  rewrite IH. apply Permutation_swap.
Qed.

Lemma sortSlice_Permutation l : sortSlice less l ≡ₚ l.
Proof.
  unfold sortSlice. rewrite reverse_Permutation.
  assert (forall acc,
            fold_left (fun sorted x => sink less x sorted) l acc ≡ₚ acc ++ l)
    as H.
  { induction l as [|x l IH]; intros acc; simpl.
    - by rewrite app_nil_r.
    - rewrite IH, sink_Permutation. simpl. apply Permutation_middle. }
  apply (H []).
Qed.

Lemma sink_descending x l :
  StronglySorted (descending key) l ->
  StronglySorted (descending key) (sink less x l).
Proof.
  induction 1 as [|y l Hl IH Hy]; simpl.
  - repeat constructor.
  - destruct (Z.ltb_spec (key x) (key y)).
    + constructor; [done|].
      rewrite sink_Permutation. constructor; [unfold descending; lia|done].
    + constructor; [by constructor|].
      constructor; [done|].
      eapply Forall_impl; [exact Hy|]. unfold descending. intros; simpl in *; lia.
Qed.

Lemma sortSlice_sorted l :
  Sorted (fun x y => key x <= key y) (sortSlice less l).
Proof.
  unfold sortSlice.
  apply (Sorted_reverse (descending key)), StronglySorted_Sorted.
  assert (forall acc,
            StronglySorted (descending key) acc ->
            StronglySorted (descending key)
              (fold_left (fun sorted x => sink less x sorted) l acc)) as H.
  { induction l as [|x l IH]; intros acc Hacc; simpl; [done|].
    apply IH, sink_descending, Hacc. }
  apply H. constructor.
Qed.

End SortFacts.

(** ** Descriptors *)

Lemma analyzeType_keeps fi expr : sameTagData fi (analyzeType fi expr).
Proof.
  unfold sameTagData.
  destruct expr as [ | | | [len|] elt | | | | | | ]; simpl; auto 10.
  destruct (isByteIdent elt); simpl; auto 10.
  destruct elt; simpl; auto 10.
Qed.

Lemma newFieldInfo_keeps field v name :
  let fi := newFieldInfo field v name in
  FieldInfo.Name fi = name /\
  FieldInfo.FieldNum fi = fieldNum v /\
  FieldInfo.ProtoType fi = protoType v /\
  FieldInfo.IsOneof fi = isOneof v /\
  FieldInfo.OneofVariants fi = oneofVariants v /\
  FieldInfo.IsMap fi = isMap v /\
  FieldInfo.IsEnum fi = isEnum (options v) /\
  (isMap v = true -> FieldInfo.MapKeyProto fi = mapKeyProto v).
Proof.
  unfold newFieldInfo.
  match goal with |- context [analyzeType ?fi0 ?ty] =>
    destruct (analyzeType_keeps fi0 ty) as (H1 & H2 & H3 & H4 & H5 & H6 & H7 & H8);
    generalize dependent (analyzeType fi0 ty) end.
  simpl. intros fi H1 H2 H3 H4 H5 H6 H7 H8.
  rewrite <- H1, <- H2, <- H3, <- H4, <- H5, <- H6, <- H7.
  destruct (FieldInfo.IsMap fi) eqn:Hmap, (FieldInfo.IsEnum fi) eqn:Henum;
    simpl; rewrite ?Hmap, ?Henum; repeat case_match; simpl;
    rewrite ?Hmap, ?Henum; auto 10; repeat split; auto; discriminate.
Qed.

Lemma numbers_newFieldInfo field v name :
  numbers (newFieldInfo field v name) =
  if isOneof v then OneofVariant.FieldNum <$> oneofVariants v else [fieldNum v].
Proof.
  unfold numbers.
  destruct (newFieldInfo_keeps field v name) as (_ & -> & _ & -> & -> & _).
  done.
Qed.

(** ** The uniqueness check *)

Lemma duplicateError_mentions e :
  duplicateError e -> mentions e "duplicate field number".
Proof.
  destruct e as [format args]. intros [rest H] Q. simpl in H. subst format.
  reflexivity.
Qed.

Lemma stateOK_init : stateOK (∅, []).
Proof.
  split; simpl; [constructor|].
  intros n. rewrite lookup_empty, is_Some_alt. split; [done|]. by intros ?%elem_of_nil.
Qed.

Lemma seeVariants_spec typeName fieldName vs (seen : gmap Z string) :
  let nums := OneofVariant.FieldNum <$> vs in
  match forEach (seeVariant typeName fieldName) vs seen with
  | OK seen' =>
      NoDup nums /\ (forall n, n ∈ nums -> seen !! n = None) /\
      forall n, is_Some (seen' !! n) <-> is_Some (seen !! n) \/ n ∈ nums
  | Err e =>
      duplicateError e /\ ~ (NoDup nums /\ forall n, n ∈ nums -> seen !! n = None)
  end.
Proof.
  revert seen. induction vs as [|v vs IH]; intros seen; simpl.
  - split; [constructor|]. split; [by intros n ?%elem_of_nil|].
    intros n. split; [auto|]. intros [?|?%elem_of_nil]; done.
  - unfold seeVariant at 1.
    destruct (seen !! OneofVariant.FieldNum v) as [existing|] eqn:Hv.
    + split; [by eexists|].
      intros [_ Hfree]. specialize (Hfree (OneofVariant.FieldNum v)).
      rewrite Hv in Hfree. discriminate Hfree. left.
    + specialize (IH (<[OneofVariant.FieldNum v :=
                         fieldName +:+ ":" +:+ OneofVariant.TypeName v]> seen)).
      simpl in IH.
      destruct (forEach _ vs _) as [seen'|e].
      * destruct IH as (Hnd & Hfree & Hdom). split; [|split].
        -- constructor; [|done]. intros Hin. apply Hfree in Hin.
           by rewrite lookup_insert_eq in Hin.
        -- intros n [->|Hin]%elem_of_cons; [done|].
           apply Hfree in Hin. by apply lookup_insert_None in Hin as [? _].
        -- intros n. rewrite Hdom, elem_of_cons, lookup_insert_is_Some.
           destruct (decide (OneofVariant.FieldNum v = n)); intuition congruence.
      * destruct IH as [Hm Hno]. split; [done|].
        intros [Hnd Hfree]. apply Hno.
        apply NoDup_cons in Hnd as [Hv' Hnd]. split; [done|].
        intros n Hin. apply lookup_insert_None. split.
        -- apply Hfree. by right.
        -- intros <-. done.
Qed.

Lemma registerName_spec typeName field v seen fields fieldName :
  stateOK (seen, fields) ->
  match registerName typeName field v (seen, fields) fieldName with
  | OK st' =>
      stateOK st' /\ snd st' = fields ++ [newFieldInfo field v fieldName]
  | Err e =>
      duplicateError e /\
      ~ NoDup ((fields ++ [newFieldInfo field v fieldName]) ≫= numbers)
  end.
Proof.
  intros [Hnd Hdom]. simpl in Hnd, Hdom.
  unfold registerName, stateOK.
  pose proof (numbers_newFieldInfo field v fieldName) as Hnums.
  rewrite bind_app, bind_singleton. simpl.
  destruct (isOneof v) eqn:Hone; rewrite Hnums.
  - pose proof (seeVariants_spec typeName fieldName (oneofVariants v) seen) as H.
    simpl in H. destruct (forEach _ _ seen) as [seen'|e]; simpl.
    + destruct H as (Hnd' & Hfree & Hdom').
      rewrite bind_app, bind_singleton, Hnums.
      split; [split|done].
      * apply NoDup_app. split_and!; [done| |done].
        intros n Hn Hn'. apply Hfree in Hn'. apply Hdom in Hn.
        rewrite Hn' in Hn. by destruct Hn.
      * intros n. rewrite Hdom', Hdom, elem_of_app. done.
    + destruct H as [Hm Hno]. split; [done|].
      intros (Hnd1 & Hdisj & Hnd2)%NoDup_app. apply Hno. split; [done|].
      intros n Hn. apply eq_None_not_Some. intros Hs%Hdom. by eapply Hdisj.
  - destruct (seen !! fieldNum v) as [existing|] eqn:Hv; simpl.
    + split; [by eexists|].
      intros (_ & Hdisj & _)%NoDup_app.
      apply (Hdisj (fieldNum v)); [|left].
      apply Hdom. by rewrite Hv.
    + rewrite bind_app, bind_singleton, Hnums.
      split; [split|done].
      * apply NoDup_app. split_and!; [done| |apply NoDup_singleton].
        intros n Hn ->%list_elem_of_singleton. apply Hdom in Hn.
        rewrite Hv in Hn. by destruct Hn.
      * intros n. rewrite lookup_insert_is_Some, Hdom, elem_of_app, list_elem_of_singleton.
        destruct (decide (fieldNum v = n)); intuition congruence.
Qed.

Lemma not_NoDup_app_l {A} (l k : list A) : ~ NoDup l -> ~ NoDup (l ++ k).
Proof. intros H (? & _)%NoDup_app. done. Qed.

Lemma registerNames_spec typeName field v names st :
  stateOK st ->
  match forEach (registerName typeName field v) names st with
  | OK st' =>
      stateOK st' /\ snd st' = snd st ++ (newFieldInfo field v <$> names)
  | Err e =>
      duplicateError e /\
      ~ NoDup ((snd st ++ (newFieldInfo field v <$> names)) ≫= numbers)
  end.
Proof.
  revert st. induction names as [|name names IH]; intros [seen fields] Hst.
  - simpl. by rewrite app_nil_r.
  - rewrite forEach_cons, fmap_cons. simpl snd.
    pose proof (registerName_spec typeName field v seen fields name Hst) as H.
    destruct (registerName _ _ _ _ name) as [st1|e].
    + destruct H as [Hst1 Hf1]. specialize (IH st1 Hst1).
      by rewrite Hf1, <- app_assoc in IH.
    + destruct H as [Hm Hno]. split; [done|].
      simpl. rewrite cons_middle, (assoc_L (++)), bind_app.
      by apply not_NoDup_app_l.
Qed.

Lemma parseField_spec typeName field st :
  stateOK st ->
  match parseField typeName st field with
  | OK st' =>
      stateOK st' /\ snd st' = snd st ++ descriptors typeName field /\
      exists r, checkField typeName field = OK r
  | Err e =>
      checkField typeName field = Err e \/
      duplicateError e /\
      ~ NoDup ((snd st ++ descriptors typeName field) ≫= numbers)
  end.
Proof.
  intros Hst. unfold parseField, descriptors.
  destruct (checkField typeName field) as [[v|]|e]; [| |by left].
  - pose proof (registerNames_spec typeName field v (fieldNames v) st Hst) as H.
    destruct (forEach _ _ st) as [st'|e]; [|by right].
    destruct H as [? ?]. eauto.
  - rewrite app_nil_r. eauto.
Qed.

Lemma parseFields_spec typeName structType st :
  stateOK st ->
  match forEach (parseField typeName) structType st with
  | OK st' =>
      stateOK st' /\
      snd st' = snd st ++ (structType ≫= descriptors typeName) /\
      Forall (fun field => exists r, checkField typeName field = OK r) structType
  | Err e =>
      (exists field, field ∈ structType /\ checkField typeName field = Err e) \/
      duplicateError e /\
      ~ NoDup ((snd st ++ (structType ≫= descriptors typeName)) ≫= numbers)
  end.
Proof.
  revert st. induction structType as [|field fs IH]; intros st Hst.
  - simpl. by rewrite app_nil_r.
  - rewrite forEach_cons, bind_cons.
    pose proof (parseField_spec typeName field st Hst) as H.
    destruct (parseField typeName st field) as [st1|e].
    + destruct H as (Hst1 & Hf1 & Hok). specialize (IH st1 Hst1).
      rewrite Hf1, <- app_assoc in IH.
      destruct (forEach _ fs st1) as [st'|e].
      * destruct IH as (? & ? & ?). auto.
      * destruct IH as [(f & Hf & He)|[Hm Hno]].
        -- left. exists f. split; [by right|done].
        -- by right.
    + destruct H as [He|[Hm Hno]].
      * left. exists field. split; [left|done].
      * right. split; [done|].
        rewrite (assoc_L (++)), bind_app. by apply not_NoDup_app_l.
Qed.

(** [parseStruct] in terms of the descriptors of the fields. *)
Lemma parseStruct_spec typeName structType :
  match parseStruct typeName structType with
  | OK info =>
      TypeInfo.Name info = typeName /\
      TypeInfo.Fields info ≡ₚ structType ≫= descriptors typeName /\
      Sorted (fun fi fj => FieldInfo.FieldNum fi <= FieldInfo.FieldNum fj)
        (TypeInfo.Fields info) /\
      NoDup (assigned typeName structType) /\
      Forall (fun field => exists r, checkField typeName field = OK r) structType
  | Err e =>
      (exists field, field ∈ structType /\ checkField typeName field = Err e) \/
      duplicateError e /\ ~ NoDup (assigned typeName structType)
  end.
Proof.
  unfold parseStruct.
  pose proof (parseFields_spec typeName structType (∅, []) stateOK_init) as H.
  destruct (forEach _ structType _) as [[seen fields]|e]; simpl in *; [|done].
  destruct H as ([Hnd _] & -> & Hok). simpl in Hnd.
  split_and!; try done.
  - apply sortSlice_Permutation.
  - apply (sortSlice_sorted FieldInfo.FieldNum).
Qed.

(** ** The validation tables *)

Lemma index_list_to_map (l : list (string * bool)) (k : string) :
  NoDup l.*1 -> Forall (fun kv => kv.2 = true) l ->
  mapIndex (list_to_map l) k = true <-> k ∈ l.*1.
Proof.
  intros Hnd Hall. unfold mapIndex. split.
  - destruct (list_to_map l !! k) as [b|] eqn:Hk; [|done].
    intros _. apply elem_of_list_to_map_2 in Hk.
    apply list_elem_of_fmap. by exists (k, b).
  - intros ((k' & b) & -> & Hin)%list_elem_of_fmap.
    rewrite Forall_forall in Hall. pose proof (Hall _ Hin) as Hb. simpl in *. subst b.
    by rewrite (elem_of_list_to_map_1 _ _ _ Hnd Hin).
Qed.

Lemma isValidProtoType_spec p :
  isValidProtoType p = true <-> p ∈ protoTypeNames.
Proof.
  unfold isValidProtoType, validProtoTypes.
  rewrite index_list_to_map; [done| |].
  - apply (bool_decide_unpack _). by vm_compute.
  - repeat constructor.
Qed.

Lemma isValidMapKeyType_spec p :
  isValidMapKeyType p = true <-> p ∈ mapKeyTypeNames.
Proof.
  unfold isValidMapKeyType, validMapKeyTypes.
  rewrite index_list_to_map.
  - unfold mapKeyTypeNames. simpl. rewrite !elem_of_cons. tauto.
  - apply (bool_decide_unpack _). by vm_compute.
  - repeat constructor.
Qed.

(** ** What a field that passes [checkField] went through *)

Ltac next H := cbv beta iota zeta in H; try discriminate H.

Lemma checkField_OK typeName field v :
  checkField typeName field = OK (Some v) <->
  exists tag, Field.Tag field = Some tag /\ tag <> "" /\
    passes typeName field tag v.
Proof.
  unfold checkField, passes. split.
  - intros H.
    destruct (Field.Tag field) as [tag|]; [|done].
    exists tag. split; [done|].
    case_bool_decide as Htag; [done|]. split; [done|].
    destruct (parseNumbers _ _ _ _ _) as [[vs n]|] eqn:Hnums; next H.
    destruct (chooseProtoType _ _ _ _) as [pt|] eqn:Hpt; next H.
    case_bool_decide as Hif; next H.
    destruct (mapProtoTypes _ _ _) as [k val] eqn:Hmt.
    destruct (bool_decide (pt = "map") && _) eqn:Hkey; next H.
    destruct (namesOf _ _ _) as [names|] eqn:Hnames; next H.
    simplify_eq. simpl. split_and!; try done.
    intros Hm. rewrite Hm in Hkey. simpl in Hkey. by apply negb_false_iff in Hkey.
  - intros (tag & -> & Htag & <- & Hone & Hnums & Hpt & Hif & Hmap & Hmt & Hkey & Hopt & Hnames).
    rewrite bool_decide_eq_false_2 by done.
    rewrite <- Hone, Hnums. cbv beta iota zeta. rewrite Hpt. cbv beta iota zeta.
    rewrite bool_decide_eq_false_2 by done.
    rewrite <- Hmap, Hmt.
    destruct (isMap v) eqn:Hm; simpl.
    + rewrite Hkey by done. simpl. rewrite Hnames. simpl. rewrite <- Hopt.
      destruct v; simpl in *. by subst.
    + rewrite Hnames. simpl. rewrite <- Hopt.
      destruct v; simpl in *. by subst.
Qed.

Lemma checkField_untagged typeName field :
  checkField typeName field = OK None <->
  Field.Tag field = None \/ Field.Tag field = Some "".
Proof.
  unfold checkField. split.
  - intros H. destruct (Field.Tag field) as [tag|]; [|by left].
    case_bool_decide as Htag; [right; by subst|].
    destruct (parseNumbers _ _ _ _ _) as [[vs n]|]; next H.
    destruct (chooseProtoType _ _ _ _) as [pt|]; next H.
    case_bool_decide; next H.
    destruct (mapProtoTypes _ _ _) as [k val].
    destruct (_ && _); next H.
    destruct (namesOf _ _ _); next H.
  - by intros [->| ->].
Qed.

(** ** Results about [parseStruct] as a whole *)

Lemma parseStruct_descriptors typeName structType info :
  parseStruct typeName structType = OK info ->
  TypeInfo.Fields info ≡ₚ structType ≫= descriptors typeName.
Proof.
  intros H. pose proof (parseStruct_spec typeName structType) as Hs.
  rewrite H in Hs. tauto.
Qed.

(** Every descriptor of a parsed struct was built by [newFieldInfo] for a
    field that passed [checkField]. *)
Lemma parseStruct_origin typeName structType info fi :
  parseStruct typeName structType = OK info -> fi ∈ TypeInfo.Fields info ->
  exists field v name,
    field ∈ structType /\ checkField typeName field = OK (Some v) /\
    name ∈ fieldNames v /\ fi = newFieldInfo field v name.
Proof.
  intros H Hin. rewrite (parseStruct_descriptors _ _ _ H) in Hin.
  apply list_elem_of_bind in Hin as (field & Hfi & Hfield).
  unfold descriptors in Hfi.
  destruct (checkField typeName field) as [[v|]|] eqn:Hc;
    try by apply elem_of_nil in Hfi.
  apply list_elem_of_fmap in Hfi as (name & -> & Hname). eauto 10.
Qed.

Lemma parseStruct_checks typeName structType info field :
  parseStruct typeName structType = OK info -> field ∈ structType ->
  exists r, checkField typeName field = OK r.
Proof.
  intros H Hin. pose proof (parseStruct_spec typeName structType) as Hs.
  rewrite H in Hs. destruct Hs as (_ & _ & _ & _ & Hall).
  rewrite Forall_forall in Hall. auto.
Qed.

(** A field that fails its own checks makes [parseStruct] fail, wherever
    it stands in the struct. *)
Lemma parseStruct_rejects typeName structType field e :
  field ∈ structType -> checkField typeName field = Err e ->
  exists e', parseStruct typeName structType = Err e'.
Proof.
  intros Hin He. destruct (parseStruct typeName structType) as [info|e'] eqn:H; [|eauto].
  destruct (parseStruct_checks _ _ _ _ H Hin) as [r Hr]. congruence.
Qed.

(** When the fields before it are accepted, its error is the one
    [parseStruct] returns. *)
Lemma parseStruct_stops typeName pre field post info e :
  parseStruct typeName pre = OK info -> checkField typeName field = Err e ->
  parseStruct typeName (pre ++ field :: post) = Err e.
Proof.
  unfold parseStruct. intros Hpre He.
  destruct (forEach _ pre _) as [st|] eqn:Hst; [|done].
  rewrite (forEach_stops _ _ _ _ _ st e Hst); [done|].
  unfold parseField. by rewrite He.
Qed.

Lemma analyzeType_IsRepeated fi expr :
  FieldInfo.IsRepeated (analyzeType fi expr) =
  FieldInfo.IsRepeated fi || repeatedByType expr.
Proof.
  destruct expr as [ | | | [len|] elt | | | | | | ]; simpl;
    rewrite ?orb_false_r; try done.
  destruct (isByteIdent elt); simpl; [by rewrite orb_false_r|].
  rewrite orb_true_r. by destruct elt.
Qed.

Lemma newFieldInfo_IsRepeated field v name :
  FieldInfo.IsRepeated (newFieldInfo field v name) =
  isRepeated (options v) || repeatedByType (Field.Type_ field).
Proof.
  unfold newFieldInfo.
  match goal with |- context [analyzeType ?fi0 ?ty] =>
    pose proof (analyzeType_IsRepeated fi0 ty) as Hr;
    generalize dependent (analyzeType fi0 ty) end.
  simpl. intros fi <-.
  repeat case_match; reflexivity.
Qed.

(** A tag of a single part sets no option. *)
Lemma parseOptions_single parts isOneof isMap protoType :
  length parts = 1%nat ->
  isRepeated (parseOptions parts isOneof isMap protoType) = false.
Proof.
  intros Hlen. unfold parseOptions.
  destruct parts as [|p [|]]; try done.
  destruct isOneof, isMap; reflexivity.
Qed.

Lemma descriptors_inv typeName field fi :
  fi ∈ descriptors typeName field ->
  exists v name, checkField typeName field = OK (Some v) /\
    name ∈ fieldNames v /\ fi = newFieldInfo field v name.
Proof.
  unfold descriptors. intros Hfi.
  destruct (checkField typeName field) as [[v|]|] eqn:Hc;
    try by apply elem_of_nil in Hfi.
  apply list_elem_of_fmap in Hfi as (name & -> & Hname). eauto.
Qed.

Lemma inferred_descriptor typeName field tag fi :
  Field.Tag field = Some tag -> length (Split tag ",") = 1%nat ->
  fi ∈ descriptors typeName field ->
  FieldInfo.ProtoType fi = inferProtoType (Field.Type_ field) /\
  FieldInfo.IsRepeated fi = repeatedByType (Field.Type_ field).
Proof.
  intros Htag Hlen (v & name & Hc & _ & ->)%descriptors_inv.
  apply checkField_OK in Hc as (tag' & Htag' & _ & Hp).
  assert (tag' = tag) as -> by congruence.
  destruct Hp as (_ & Hone & Hnums & Hpt & _ & _ & _ & _ & Hopt & _).
  destruct (newFieldInfo_keeps field v name) as (_ & _ & -> & _).
  rewrite newFieldInfo_IsRepeated, Hopt, parseOptions_single by done.
  split; [|done].
  unfold chooseProtoType, parseNumbers in *.
  destruct (isOneof v).
  - destruct (validateOneofFieldType _); [done|].
    rewrite Hlen in Hnums. done.
  - rewrite Hlen in Hpt. simpl in Hpt. congruence.
Qed.

(** C4.  The inferred wire type follows the table: [string] to string,
    [bool] to bool, [int32] to int32, [int64] and [int] to int64, [uint32]
    to uint32, [uint64] and [uint] to uint64, [float32] to float, [float64]
    to double, [byte] to int32, [any] to interface, any other identifier
    to message; an inline interface to interface; a selector to message; a
    pointer to what its element infers; a map to map; [[]byte] to bytes
    and not repeated; any other slice is repeated and infers from its
    element.  A field whose tag has a single part gets that wire type and
    that repeated flag in its descriptor. *)
Theorem inferred_wire_type_table :
  inferProtoType (Ident "string") = "string" /\
  inferProtoType (Ident "bool") = "bool" /\
  inferProtoType (Ident "int32") = "int32" /\
  inferProtoType (Ident "int64") = "int64" /\
  inferProtoType (Ident "int") = "int64" /\
  inferProtoType (Ident "uint32") = "uint32" /\
  inferProtoType (Ident "uint64") = "uint64" /\
  inferProtoType (Ident "uint") = "uint64" /\
  inferProtoType (Ident "float32") = "float" /\
  inferProtoType (Ident "float64") = "double" /\
  inferProtoType (Ident "byte") = "int32" /\
  inferProtoType (Ident "any") = "interface" /\
  (forall name, name ∉ inferredNames -> inferProtoType (Ident name) = "message") /\
  inferProtoType InterfaceType = "interface" /\
  (forall X Sel, inferProtoType (SelectorExpr X Sel) = "message") /\
  (forall X, inferProtoType (StarExpr X) = inferProtoType X) /\
  (forall Key Value, inferProtoType (MapType Key Value) = "map") /\
  inferProtoType (ArrayType None (Ident "byte")) = "bytes" /\
  repeatedByType (ArrayType None (Ident "byte")) = false /\
  (forall Elt, Elt <> Ident "byte" ->
     inferProtoType (ArrayType None Elt) = inferProtoType Elt /\
     repeatedByType (ArrayType None Elt) = true) /\
  (forall typeName structType info,
     parseStruct typeName structType = OK info ->
     TypeInfo.Fields info ≡ₚ structType ≫= descriptors typeName) /\
  (forall typeName field tag fi,
     Field.Tag field = Some tag -> length (Split tag ",") = 1%nat ->
     fi ∈ descriptors typeName field ->
     FieldInfo.ProtoType fi = inferProtoType (Field.Type_ field) /\
     FieldInfo.IsRepeated fi = repeatedByType (Field.Type_ field)).
Proof.
  split_and!; try reflexivity.
  - intros name Hname. unfold inferredNames in Hname. simpl.
    repeat (case_bool_decide;
            [exfalso; apply Hname; subst name;
             apply (bool_decide_unpack _); by vm_compute|]).
    done.
  - intros Elt HElt.
    assert (isByteIdent Elt = false) as Hb.
    { destruct Elt; try done. simpl. apply bool_decide_eq_false_2. congruence. }
    simpl. by rewrite Hb.
  - apply parseStruct_descriptors.
  - apply inferred_descriptor.
Qed.

Lemma newFieldInfo_array field v name len elt :
  Field.Type_ field = ArrayType (Some len) elt ->
  let fi := newFieldInfo field v name in
  FieldInfo.BaseType fi = "" /\ FieldInfo.ElemType fi = "" /\
  FieldInfo.RawElemType fi = "".
Proof.
  intros Hty. unfold newFieldInfo. rewrite Hty. simpl.
  repeat case_match; simpl; done.
Qed.

Lemma oneof_sentinel typeName field fi :
  fi ∈ descriptors typeName field -> FieldInfo.IsOneof fi = true ->
  FieldInfo.FieldNum fi = -1.
Proof.
  intros (v & name & Hc & _ & ->)%descriptors_inv.
  destruct (newFieldInfo_keeps field v name) as (_ & -> & _ & -> & _).
  apply checkField_OK in Hc as (tag & _ & _ & Hp).
  destruct Hp as (_ & _ & Hnums & _). intros Hone. rewrite Hone in Hnums.
  unfold parseNumbers in Hnums.
  destruct (validateOneofFieldType _); [done|].
  destruct (_ <? _)%nat; [done|].
  destruct (forEach _ _ _); by simplify_eq.
Qed.

(** C7.  The field list of a parsed record is sorted by non-decreasing
    [FieldNum], where every oneof descriptor carries the sentinel [-1]. *)
Theorem fields_sorted_by_number typeName structType info :
  parseStruct typeName structType = OK info ->
  Sorted (fun fi fj => FieldInfo.FieldNum fi <= FieldInfo.FieldNum fj)
    (TypeInfo.Fields info) /\
  forall fi, fi ∈ TypeInfo.Fields info -> FieldInfo.IsOneof fi = true ->
    FieldInfo.FieldNum fi = -1.
Proof.
  intros H. pose proof (parseStruct_spec typeName structType) as Hs.
  rewrite H in Hs. destruct Hs as (_ & Hperm & Hsorted & _).
  split; [done|].
  intros fi Hfi. rewrite Hperm in Hfi.
  apply list_elem_of_bind in Hfi as (field & Hfi & _).
  by apply (oneof_sentinel typeName field).
Qed.

(** ** Ordinary fields *)

Lemma parseFieldNum_OK tag part0 n :
  parseFieldNum tag part0 = OK n ->
  Atoi (TrimSpace part0) = Some n /\
  1 <= n <= 536870911 /\ ~ (19000 <= n <= 19999).
Proof.
  unfold parseFieldNum. destruct (Atoi _) as [m|]; [|done].
  destruct (Z.ltb_spec m 1); [done|].
  destruct (Z.ltb_spec 536870911 m); [done|].
  destruct (Z.leb_spec 19000 m), (Z.leb_spec m 19999); simpl; try done;
    intros; simplify_eq; split_and!; try done; lia.
Qed.

(** A tag whose first part is a field number is not empty and is not a
    oneof tag. *)
Lemma ordinary_tag typeName field tag n :
  let parts := Split tag "," in
  parseFieldNum tag (part parts 0) = OK n ->
  tag <> "" /\
  bool_decide (TrimSpace (part parts 0) = "oneof") = false /\
  parseNumbers typeName field tag parts false = OK ([], n).
Proof.
  intros parts Hn. subst parts. split_and!.
  - intros ->. by vm_compute in Hn.
  - apply bool_decide_eq_false_2. intros Hone.
    apply parseFieldNum_OK in Hn as [Hn _]. rewrite Hone in Hn. by vm_compute in Hn.
  - unfold parseNumbers. by rewrite Hn.
Qed.

Lemma invalid_type_rejected typeName field tag n :
  let parts := Split tag "," in
  Field.Tag field = Some tag ->
  parseFieldNum tag (part parts 0) = OK n ->
  (2 <= length parts)%nat ->
  isValidProtoType (TrimSpace (part parts 1)) = false ->
  exists e, checkField typeName field = Err e /\
    mentions e "invalid protobuf type".
Proof.
  intros parts Htag Hn Hlen Hbad. subst parts.
  destruct (ordinary_tag typeName field tag n Hn) as (Hne & Hone & Hnums).
  unfold checkField. rewrite Htag, bool_decide_eq_false_2 by done.
  cbv zeta. rewrite Hone, Hnums. cbv beta iota zeta.
  unfold chooseProtoType. apply Nat.leb_le in Hlen. rewrite Hlen, Hbad. simpl.
  eexists. split; [done|]. intros Q. reflexivity.
Qed.

Lemma interface_rejected typeName field tag n :
  let parts := Split tag "," in
  Field.Tag field = Some tag ->
  parseFieldNum tag (part parts 0) = OK n ->
  length parts = 1%nat ->
  inferProtoType (Field.Type_ field) = "interface" ->
  exists e, checkField typeName field = Err e /\
    mentions e "interface types are not supported".
Proof.
  intros parts Htag Hn Hlen Hty. subst parts.
  destruct (ordinary_tag typeName field tag n Hn) as (Hne & Hone & Hnums).
  unfold checkField. rewrite Htag, bool_decide_eq_false_2 by done.
  cbv zeta. rewrite Hone, Hnums. cbv beta iota zeta.
  unfold chooseProtoType. rewrite Hlen, Hty. simpl.
  eexists. split; [done|]. intros Q. reflexivity.
Qed.

Lemma map_key_rejected typeName field tag n :
  let parts := Split tag "," in
  Field.Tag field = Some tag ->
  parseFieldNum tag (part parts 0) = OK n ->
  chooseProtoType field tag parts false = OK "map" ->
  isValidMapKeyType (mapProtoTypes field parts true).1 = false ->
  exists e, checkField typeName field = Err e /\
    mentions e "invalid map key type".
Proof.
  intros parts Htag Hn Hpt Hkey. subst parts.
  destruct (ordinary_tag typeName field tag n Hn) as (Hne & Hone & Hnums).
  unfold checkField. rewrite Htag, bool_decide_eq_false_2 by done.
  cbv zeta. rewrite Hone, Hnums. cbv beta iota zeta. rewrite Hpt.
  cbv beta iota zeta. simpl bool_decide.
  destruct (mapProtoTypes field _ true) as [k val]. simpl in Hkey.
  rewrite Hkey. simpl.
  eexists. split; [done|]. intros Q. reflexivity.
Qed.

Ltac not_interface :=
  let rest := fresh "rest" in
  let H := fresh "H" in
  intros [rest H]; simpl in H; discriminate H.

Lemma parseOneofVariants_not_interface tag parts vs e :
  forEach (parseOneofVariant tag) parts vs = Err e -> ~ interfaceRejection e.
Proof.
  revert vs. induction parts as [|p parts IH]; intros vs; [done|].
  rewrite forEach_cons.
  destruct (parseOneofVariant tag vs p) as [vs'|e'] eqn:Hp; [apply IH|].
  intros ?; simplify_eq. unfold parseOneofVariant in Hp.
  repeat case_match; simplify_eq; not_interface.
Qed.

Lemma oneof_never_interface typeName field tag e :
  Field.Tag field = Some tag ->
  TrimSpace (part (Split tag ",") 0) = "oneof" ->
  checkField typeName field = Err e -> ~ interfaceRejection e.
Proof.
  intros Htag Hone. unfold checkField. rewrite Htag.
  case_bool_decide; [done|]. cbv zeta.
  rewrite (bool_decide_eq_true_2 _ Hone).
  unfold parseNumbers.
  destruct (validateOneofFieldType _); [intros ?; simplify_eq; not_interface|].
  destruct (_ <? _)%nat; [intros ?; simplify_eq; not_interface|].
  destruct (forEach _ _ _) as [vs|e'] eqn:Hvs.
  - simpl. unfold namesOf.
    destruct (Field.Names field); [|done].
    case_bool_decide; [|done]. intros ?; simplify_eq; not_interface.
  - intros ?; simplify_eq. by eapply parseOneofVariants_not_interface.
Qed.

Lemma duplicate_not_interface e : duplicateError e -> ~ interfaceRejection e.
Proof. intros [r1 H1] [r2 H2]. rewrite H1 in H2. discriminate H2. Qed.

(** A non-empty tag of a single part on a type that infers to
    [interface] never passes [checkField]. *)
Lemma untyped_interface_fails typeName field tag :
  Field.Tag field = Some tag -> tag <> "" ->
  length (Split tag ",") = 1%nat ->
  inferProtoType (Field.Type_ field) = "interface" ->
  exists e, checkField typeName field = Err e.
Proof.
  intros Htag Hne Hlen Hty.
  destruct (checkField typeName field) as [[v|]|e] eqn:Hc; [| |eauto].
  - apply checkField_OK in Hc as (tag' & Htag' & _ & Hp).
    assert (tag' = tag) as -> by congruence.
    destruct Hp as (_ & _ & Hnums & Hpt & Hif & _). exfalso.
    unfold parseNumbers, chooseProtoType in *. rewrite Hlen in *.
    destruct (isOneof v).
    + destruct (validateOneofFieldType _); done.
    + simpl in Hpt. congruence.
  - apply checkField_untagged in Hc as [Hc|Hc]; congruence.
Qed.

Lemma parseStruct_error_origin typeName structType e :
  parseStruct typeName structType = Err e ->
  (exists field, field ∈ structType /\ checkField typeName field = Err e) \/
  duplicateError e.
Proof.
  intros H. pose proof (parseStruct_spec typeName structType) as Hs.
  rewrite H in Hs. tauto.
Qed.

(** C5.  A field whose tag supplies no explicit wire type (a single,
    non-empty part) and whose type infers to [interface] ([any], an inline
    interface) makes [parseStruct] fail; when that part is a legal field
    number and the fields before it are accepted, the diagnostic contains
    [interface types are not supported].  That diagnostic is never the one
    of a field whose tag begins with [oneof], whose wire type is [oneof]. *)
Theorem interface_fields_rejected :
  inferProtoType (Ident "any") = "interface" /\
  inferProtoType InterfaceType = "interface" /\
  (forall typeName pre field post info tag n,
     parseStruct typeName pre = OK info ->
     Field.Tag field = Some tag ->
     length (Split tag ",") = 1%nat ->
     parseFieldNum tag (part (Split tag ",") 0) = OK n ->
     inferProtoType (Field.Type_ field) = "interface" ->
     exists e, parseStruct typeName (pre ++ field :: post) = Err e /\
       mentions e "interface types are not supported") /\
  (forall typeName structType field tag,
     field ∈ structType ->
     Field.Tag field = Some tag -> tag <> "" ->
     length (Split tag ",") = 1%nat ->
     inferProtoType (Field.Type_ field) = "interface" ->
     exists e, parseStruct typeName structType = Err e) /\
  (forall typeName structType e,
     parseStruct typeName structType = Err e -> interfaceRejection e ->
     exists field tag, field ∈ structType /\ Field.Tag field = Some tag /\
       TrimSpace (part (Split tag ",") 0) <> "oneof" /\
       checkField typeName field = Err e) /\
  (forall typeName field tag v,
     Field.Tag field = Some tag ->
     TrimSpace (part (Split tag ",") 0) = "oneof" ->
     checkField typeName field = OK (Some v) -> protoType v = "oneof").
Proof.
  split_and!; try reflexivity.
  - intros typeName pre field post info tag n Hpre Htag Hlen Hn Hty.
    destruct (interface_rejected typeName field tag n Htag Hn Hlen Hty)
      as (e & He & Hm).
    exists e. split; [|done]. by eapply parseStruct_stops.
  - intros typeName structType field tag Hin Htag Hne Hlen Hty.
    destruct (untyped_interface_fails typeName field tag Htag Hne Hlen Hty)
      as [e He].
    by eapply parseStruct_rejects.
  - intros typeName structType e He Hi.
    apply parseStruct_error_origin in He as [(field & Hin & Hc)|Hd];
      [|by apply duplicate_not_interface in Hd].
    destruct (Field.Tag field) as [tag|] eqn:Htag.
    + exists field, tag. split_and!; try done.
      intros Hone. by eapply oneof_never_interface.
    + unfold checkField in Hc. by rewrite Htag in Hc.
  - intros typeName field tag v Htag Hone Hc.
    apply checkField_OK in Hc as (tag' & Htag' & _ & Hp).
    assert (tag' = tag) as -> by congruence.
    destruct Hp as (_ & Ho & _ & Hpt & _).
    rewrite (bool_decide_eq_true_2 _ Hone) in Ho. rewrite Ho in Hpt.
    simpl in Hpt. congruence.
Qed.

(** C8.  In a parsed record every ordinary tag with two or more parts has
    a valid protobuf wire type as its trimmed second part; an ordinary tag
    whose second part is anything else, such as the option word
    [repeated], makes [parseStruct] fail, and with a diagnostic containing
    [invalid protobuf type] when its field number is legal and the fields
    before it are accepted. *)
Theorem explicit_wire_type_checked :
  (forall p, isValidProtoType p = true <-> p ∈ protoTypeNames) /\
  ("repeated" ∉ protoTypeNames) /\
  (forall typeName structType info field tag,
     parseStruct typeName structType = OK info -> field ∈ structType ->
     Field.Tag field = Some tag ->
     TrimSpace (part (Split tag ",") 0) <> "oneof" ->
     (2 <= length (Split tag ","))%nat ->
     TrimSpace (part (Split tag ",") 1) ∈ protoTypeNames) /\
  (forall typeName structType field tag,
     field ∈ structType ->
     Field.Tag field = Some tag ->
     TrimSpace (part (Split tag ",") 0) <> "oneof" ->
     (2 <= length (Split tag ","))%nat ->
     TrimSpace (part (Split tag ",") 1) ∉ protoTypeNames ->
     exists e, parseStruct typeName structType = Err e) /\
  (forall typeName pre field post info tag n,
     parseStruct typeName pre = OK info ->
     Field.Tag field = Some tag ->
     (2 <= length (Split tag ","))%nat ->
     parseFieldNum tag (part (Split tag ",") 0) = OK n ->
     TrimSpace (part (Split tag ",") 1) ∉ protoTypeNames ->
     exists e, parseStruct typeName (pre ++ field :: post) = Err e /\
       mentions e "invalid protobuf type").
Proof.
  split_and!.
  - apply isValidProtoType_spec.
  - apply (bool_decide_unpack _). by vm_compute.
  - intros typeName structType info field tag H Hin Htag Hone Hlen.
    destruct (parseStruct_checks _ _ _ _ H Hin) as [[v|] Hc].
    + apply checkField_OK in Hc as (tag' & Htag' & _ & Hp).
      assert (tag' = tag) as -> by congruence.
      destruct Hp as (_ & Ho & _ & Hpt & _).
      rewrite (bool_decide_eq_false_2 _ Hone) in Ho. rewrite Ho in Hpt.
      unfold chooseProtoType in Hpt. apply Nat.leb_le in Hlen. rewrite Hlen in Hpt.
      apply isValidProtoType_spec.
      by destruct (isValidProtoType _).
    + apply checkField_untagged in Hc as [Hc|Hc]; [congruence|].
      assert (tag = "") as -> by congruence. vm_compute in Hlen. lia.
  - intros typeName structType field tag Hin Htag Hone Hlen Hbad.
    destruct (parseStruct typeName structType) as [info|e] eqn:H; [|eauto].
    destruct (parseStruct_checks _ _ _ _ H Hin) as [[v|] Hc].
    + apply checkField_OK in Hc as (tag' & Htag' & _ & Hp).
      assert (tag' = tag) as -> by congruence.
      destruct Hp as (_ & Ho & _ & Hpt & _).
      rewrite (bool_decide_eq_false_2 _ Hone) in Ho. rewrite Ho in Hpt.
      unfold chooseProtoType in Hpt. apply Nat.leb_le in Hlen.
      rewrite Hlen in Hpt. exfalso. apply Hbad, isValidProtoType_spec.
      by destruct (isValidProtoType _).
    + apply checkField_untagged in Hc as [Hc|Hc]; [congruence|].
      assert (tag = "") as -> by congruence. vm_compute in Hlen. lia.
  - intros typeName pre field post info tag n Hpre Htag Hlen Hn Hbad.
    destruct (invalid_type_rejected typeName field tag n Htag Hn Hlen)
      as (e & He & Hm).
    { rewrite <- isValidProtoType_spec in Hbad. by destruct (isValidProtoType _). }
    exists e. split; [|done]. by eapply parseStruct_stops.
Qed.

(** C6.  The valid map key types are string, bool and the ten integer
    types, and neither float, double, bytes nor message.  In a parsed
    record every descriptor with wire type [map] has a key wire type in
    that set; a field with wire type [map] (explicit or inferred) whose key
    wire type, taken from the tag or inferred from the Go map type, is
    outside it makes [parseStruct] fail, and with a diagnostic containing
    [invalid map key type] when the fields before it are accepted. *)
Theorem map_key_type_checked :
  (forall k, isValidMapKeyType k = true <-> k ∈ mapKeyTypeNames) /\
  Forall (fun k => k ∉ mapKeyTypeNames) ["float"; "double"; "bytes"; "message"] /\
  (forall field parts,
     (mapProtoTypes field parts true).1 =
     (if (4 <=? length parts)%nat then TrimSpace (part parts 2)
      else match Field.Type_ field with
           | MapType Key _ => inferProtoType Key
           | _ => ""
           end)) /\
  (forall typeName structType info fi,
     parseStruct typeName structType = OK info -> fi ∈ TypeInfo.Fields info ->
     FieldInfo.ProtoType fi = "map" ->
     FieldInfo.IsMap fi = true /\ FieldInfo.MapKeyProto fi ∈ mapKeyTypeNames) /\
  (forall typeName structType field tag n,
     field ∈ structType ->
     Field.Tag field = Some tag ->
     parseFieldNum tag (part (Split tag ",") 0) = OK n ->
     chooseProtoType field tag (Split tag ",") false = OK "map" ->
     (mapProtoTypes field (Split tag ",") true).1 ∉ mapKeyTypeNames ->
     exists e, parseStruct typeName structType = Err e) /\
  (forall typeName pre field post info tag n,
     parseStruct typeName pre = OK info ->
     Field.Tag field = Some tag ->
     parseFieldNum tag (part (Split tag ",") 0) = OK n ->
     chooseProtoType field tag (Split tag ",") false = OK "map" ->
     (mapProtoTypes field (Split tag ",") true).1 ∉ mapKeyTypeNames ->
     exists e, parseStruct typeName (pre ++ field :: post) = Err e /\
       mentions e "invalid map key type").
Proof.
  split_and!.
  - apply isValidMapKeyType_spec.
  - apply (bool_decide_unpack _). by vm_compute.
  - intros field parts. unfold mapProtoTypes.
    destruct (4 <=? length parts)%nat; [done|]. by destruct (Field.Type_ field).
  - intros typeName structType info fi H Hfi Hmap.
    destruct (parseStruct_origin _ _ _ _ H Hfi) as (field & v & name & _ & Hc & _ & ->).
    destruct (newFieldInfo_keeps field v name) as (_ & _ & Hpt & _ & _ & Hm & _ & Hk).
    rewrite Hpt in Hmap.
    apply checkField_OK in Hc as (tag & _ & _ & Hp).
    destruct Hp as (_ & _ & _ & _ & _ & Hm' & _ & Hkey & _).
    rewrite Hmap, bool_decide_eq_true_2 in Hm' by done.
    rewrite Hm, Hk by done. split; [done|].
    apply isValidMapKeyType_spec. auto.
  - intros typeName structType field tag n Hin Htag Hn Hpt Hbad.
    destruct (map_key_rejected typeName field tag n Htag Hn Hpt) as (e & He & _).
    { rewrite <- isValidMapKeyType_spec in Hbad. by destruct (isValidMapKeyType _). }
    by eapply parseStruct_rejects.
  - intros typeName pre field post info tag n Hpre Htag Hn Hpt Hbad.
    destruct (map_key_rejected typeName field tag n Htag Hn Hpt) as (e & He & Hm).
    { rewrite <- isValidMapKeyType_spec in Hbad. by destruct (isValidMapKeyType _). }
    exists e. split; [|done]. by eapply parseStruct_stops.
Qed.

(** ** Splitting at the last colon *)

Lemma LastIndex_lower s substr : -1 <= LastIndex s substr.
Proof.
  induction s as [|c s IH]; simpl.
  - destruct (HasPrefix _ _); lia.
  - destruct (Z.leb_spec 0 (LastIndex s substr)); [lia|].
    destruct (HasPrefix _ _); lia.
Qed.

Lemma HasPrefix_colon c s : HasPrefix (String c s) ":" = true <-> c = ":"%char.
Proof.
  cbn [HasPrefix]. rewrite andb_true_r, Ascii.eqb_eq. split; congruence.
Qed.

(** [LastIndex] finds a colon, and none follows it. *)
Lemma LastIndex_colon s :
  0 <= LastIndex s ":" ->
  let i := Z.to_nat (LastIndex s ":") in
  s = strTake i s +:+ ":" +:+ strDrop (S i) s /\
  LastIndex (strDrop (S i) s) ":" = -1.
Proof.
  induction s as [|c s IH]; [simpl; lia|].
  cbn [LastIndex]. cbv zeta.
  destruct (Z.leb_spec 0 (LastIndex s ":")) as [Hr|Hr].
  - intros _. destruct (IH Hr) as [Hs Hnone].
    replace (Z.to_nat (LastIndex s ":" + 1)) with (S (Z.to_nat (LastIndex s ":"))) by lia.
    cbn [strTake strDrop]. split; [|done].
    change (String c s = String c (strTake (Z.to_nat (LastIndex s ":")) s +:+
                                     ":" +:+ strDrop (S (Z.to_nat (LastIndex s ":"))) s)).
    by rewrite <- Hs.
  - destruct (HasPrefix (String c s) ":") eqn:Hc; [|lia].
    apply HasPrefix_colon in Hc as ->. intros _. simpl.
    split; [done|]. pose proof (LastIndex_lower s ":"). lia.
Qed.

(** The last colon of [a:b] when [b] has none. *)
Lemma LastIndex_app a b :
  LastIndex b ":" = -1 ->
  LastIndex (a +:+ ":" +:+ b) ":" = Z.of_nat (String.length a).
Proof.
  intros Hb. induction a as [|c a IH].
  - change ("" +:+ ":" +:+ b) with (String ":" b).
    cbn [LastIndex String.length]. rewrite Hb.
    replace (0 <=? -1) with false by done.
    by rewrite (proj2 (HasPrefix_colon ":" b) eq_refl).
  - change (String c a +:+ ":" +:+ b) with (String c (a +:+ ":" +:+ b)).
    cbn [LastIndex String.length]. rewrite IH.
    destruct (Z.leb_spec 0 (Z.of_nat (String.length a))); lia.
Qed.

Lemma strTake_app a b : strTake (String.length a) (a +:+ b) = a.
Proof.
  induction a as [|c a IH]; [by destruct b|].
  change (String c a +:+ b) with (String c (a +:+ b)). simpl. by rewrite IH.
Qed.

Lemma strDrop_app a b : strDrop (String.length a) (a +:+ b) = b.
Proof.
  induction a as [|c a IH]; [by destruct b|].
  change (String c a +:+ b) with (String c (a +:+ b)). done.
Qed.

Lemma split_unique a b a' b' :
  a +:+ ":" +:+ b = a' +:+ ":" +:+ b' ->
  LastIndex b ":" = -1 -> LastIndex b' ":" = -1 -> a = a' /\ b = b'.
Proof.
  intros Heq Hb Hb'.
  assert (String.length a = String.length a') as Hlen.
  { apply Nat2Z.inj. rewrite <- (LastIndex_app a b Hb), <- (LastIndex_app a' b' Hb').
    congruence. }
  assert (a = a') as <-.
  { rewrite <- (strTake_app a (":" +:+ b)), <- (strTake_app a' (":" +:+ b')).
    rewrite <- Hlen. congruence. }
  split; [done|].
  apply (f_equal (strDrop (String.length a))) in Heq.
  rewrite !strDrop_app in Heq. by simplify_eq.
Qed.

(** What one round of the variant loop does, in terms of [variantOf]. *)
Lemma parseOneofVariant_spec tag vs p :
  match parseOneofVariant tag vs p with
  | OK vs' =>
      exists var, vs' = vs ++ [var] /\ variantOf p var /\
        validFieldNum (OneofVariant.FieldNum var) /\
        OneofVariant.FieldNum var ∉ OneofVariant.FieldNum <$> vs
  | Err e =>
      forall var, variantOf p var ->
        validFieldNum (OneofVariant.FieldNum var) ->
        duplicateError e /\
        OneofVariant.FieldNum var ∈ OneofVariant.FieldNum <$> vs
  end.
Proof.
  unfold parseOneofVariant.
  set (p' := TrimSpace p).
  destruct (Z.eqb_spec (LastIndex p' ":") (-1)) as [Hi|Hi].
  { intros var (a & b & Hp & Hb & _). fold p' in Hp.
    rewrite Hp, (LastIndex_app a b Hb) in Hi. lia. }
  assert (0 <= LastIndex p' ":") as Hi'.
  { pose proof (LastIndex_lower p' ":"). lia. }
  destruct (LastIndex_colon p' Hi') as [Hsplit Hnone].
  replace (Z.to_nat (LastIndex p' ":" + 1))
    with (S (Z.to_nat (LastIndex p' ":"))) by lia.
  set (a := strTake _ p') in *. set (b := strDrop _ p') in *.
  assert (forall var, variantOf p var ->
            OneofVariant.TypeName var = TrimSpace a /\
            Atoi (TrimSpace b) = Some (OneofVariant.FieldNum var)) as Huniq.
  { intros var (a' & b' & Hp & Hb & Hty & Hn). fold p' in Hp.
    rewrite Hsplit in Hp at 1.
    destruct (split_unique _ _ _ _ Hp Hnone Hb) as [<- <-]. done. }
  destruct (Atoi (TrimSpace b)) as [n|] eqn:Hn.
  2:{ intros var [_ ?]%Huniq. done. }
  destruct ((n <? 1) || (536870911 <? n)) eqn:Hrange.
  { intros var [_ ?]%Huniq [? _]. simplify_eq.
    apply orb_true_iff in Hrange as [?%Z.ltb_lt|?%Z.ltb_lt]; lia. }
  apply orb_false_iff in Hrange as [?%Z.ltb_ge ?%Z.ltb_ge].
  destruct ((19000 <=? n) && (n <=? 19999)) eqn:Hreserved.
  { intros var [_ ?]%Huniq [_ ?]. simplify_eq.
    apply andb_true_iff in Hreserved as [?%Z.leb_le ?%Z.leb_le]. lia. }
  assert (~ (19000 <= n <= 19999)) as Hfree.
  { apply andb_false_iff in Hreserved as [?%Z.leb_gt|?%Z.leb_gt]; lia. }
  destruct (find _ vs) as [existing|] eqn:Hfind.
  - intros var [_ ?]%Huniq _. simplify_eq. split; [by eexists|].
    apply find_some in Hfind as [Hin Heq]. apply Z.eqb_eq in Heq.
    apply list_elem_of_fmap. exists existing. split; [done|].
    by apply list_elem_of_In.
  - eexists. split; [done|]. split_and!; simpl.
    + by exists a, b.
    + by unfold validFieldNum.
    + intros (ex & Hex & Hin)%list_elem_of_fmap.
      apply list_elem_of_In in Hin.
      pose proof (find_none _ _ Hfind ex Hin) as Hne. simpl in Hne.
      apply Z.eqb_neq in Hne. congruence.
Qed.

Lemma variantOf_unique p var var' :
  variantOf p var -> variantOf p var' -> var = var'.
Proof.
  intros (a & b & Hp & Hb & Hty & Hn) (a' & b' & Hp' & Hb' & Hty' & Hn').
  rewrite Hp in Hp'. destruct (split_unique _ _ _ _ Hp' Hb Hb') as [<- <-].
  destruct var, var'; simpl in *. congruence.
Qed.

(** The loop over the parts of a oneof tag. *)
Lemma parseOneofVariants_spec tag parts vs :
  match forEach (parseOneofVariant tag) parts vs with
  | OK vs' =>
      exists new, vs' = vs ++ new /\ Forall2 variantOf parts new /\
        Forall (fun var => validFieldNum (OneofVariant.FieldNum var)) new /\
        (NoDup (OneofVariant.FieldNum <$> vs) ->
         NoDup (OneofVariant.FieldNum <$> vs'))
  | Err e =>
      forall new, Forall2 variantOf parts new ->
        Forall (fun var => validFieldNum (OneofVariant.FieldNum var)) new ->
        duplicateError e /\ ~ NoDup (OneofVariant.FieldNum <$> vs ++ new)
  end.
Proof.
  revert vs. induction parts as [|p parts IH]; intros vs.
  - simpl. exists []. rewrite app_nil_r. split_and!; auto.
  - rewrite forEach_cons.
    pose proof (parseOneofVariant_spec tag vs p) as Hp.
    destruct (parseOneofVariant tag vs p) as [vs1|e].
    + destruct Hp as (var & -> & Hvar & Hvalid & Hfresh).
      specialize (IH (vs ++ [var])).
      destruct (forEach _ parts _) as [vs'|e].
      * destruct IH as (new & -> & Hnew & Hvalids & Hnd).
        exists (var :: new). split_and!; auto.
        { by rewrite <- app_assoc. }
        intros Hvs. apply Hnd. rewrite fmap_app. apply NoDup_app.
        split_and!; [done| |apply NoDup_singleton].
        intros n Hn ->%list_elem_of_singleton. done.
      * intros new Hnew Hvalids.
        destruct new as [|var' new]; [by apply Forall2_cons_nil_inv in Hnew|].
        apply Forall2_cons in Hnew as [Hvar' Hnew].
        apply Forall_cons in Hvalids as [_ Hvalids].
        rewrite (variantOf_unique _ _ _ Hvar' Hvar).
        rewrite cons_middle, (assoc_L (++)). by apply IH.
    + intros new Hnew Hvalids.
      destruct new as [|var new]; [by apply Forall2_cons_nil_inv in Hnew|].
      apply Forall2_cons in Hnew as [Hvar Hnew].
      apply Forall_cons in Hvalids as [Hvalid _].
      destruct (Hp var Hvar Hvalid) as [Hd Hin]. split; [done|].
      rewrite fmap_app, fmap_cons.
      intros (_ & Hdisj & _)%NoDup_app. apply (Hdisj _ Hin). left.
Qed.

(** What a oneof field that passes [checkField] went through. *)
Lemma oneof_checkField_OK typeName field tag v :
  Field.Tag field = Some tag ->
  TrimSpace (part (Split tag ",") 0) = "oneof" ->
  checkField typeName field = OK (Some v) ->
  isOneof v = true /\ fieldNum v = -1 /\ protoType v = "oneof" /\
  validateOneofFieldType (Field.Type_ field) = None /\
  (2 <= length (Split tag ","))%nat /\
  Forall2 variantOf (drop 1 (Split tag ",")) (oneofVariants v) /\
  Forall (fun var => validFieldNum (OneofVariant.FieldNum var)) (oneofVariants v) /\
  NoDup (OneofVariant.FieldNum <$> oneofVariants v).
Proof.
  intros Htag Hone Hc.
  apply checkField_OK in Hc as (tag' & Htag' & _ & Hp).
  assert (tag' = tag) as -> by congruence.
  destruct Hp as (_ & Ho & Hnums & Hpt & _).
  rewrite (bool_decide_eq_true_2 _ Hone) in Ho. rewrite Ho in Hnums, Hpt.
  simpl in Hpt. unfold parseNumbers in Hnums.
  destruct (validateOneofFieldType _); [done|].
  destruct (Nat.ltb_spec (length (Split tag ",")) 2); [done|].
  pose proof (parseOneofVariants_spec tag (drop 1 (Split tag ",")) []) as Hvs.
  destruct (forEach _ _ _) as [vs|]; [|done].
  destruct Hvs as (new & -> & Hnew & Hvalid & Hnd). simplify_eq.
  split_and!; try done. apply Hnd. constructor.
Qed.

Lemma oneof_checkField_stops typeName field tag e :
  Field.Tag field = Some tag ->
  TrimSpace (part (Split tag ",") 0) = "oneof" ->
  validateOneofFieldType (Field.Type_ field) = None ->
  parseNumbers typeName field tag (Split tag ",") true = Err e ->
  checkField typeName field = Err e.
Proof.
  intros Htag Hone Hty He. unfold checkField. rewrite Htag.
  rewrite bool_decide_eq_false_2.
  - cbv zeta. rewrite (bool_decide_eq_true_2 _ Hone), He. done.
  - intros ->. by vm_compute in Hone.
Qed.

Lemma untagged_not_oneof tag :
  TrimSpace (part (Split tag ",") 0) = "oneof" -> tag <> "".
Proof. intros Hone ->. by vm_compute in Hone. Qed.

(** A oneof tag with a part that denotes no variant is rejected. *)
Lemma malformed_variant_rejected typeName field tag p :
  Field.Tag field = Some tag ->
  TrimSpace (part (Split tag ",") 0) = "oneof" ->
  p ∈ drop 1 (Split tag ",") ->
  (forall var, variantOf p var ->
     ~ validFieldNum (OneofVariant.FieldNum var)) ->
  exists e, checkField typeName field = Err e.
Proof.
  intros Htag Hone Hp Hbad.
  destruct (checkField typeName field) as [[v|]|e] eqn:Hc; [| |eauto].
  - destruct (oneof_checkField_OK _ _ _ _ Htag Hone Hc)
      as (_ & _ & _ & _ & _ & Hvs & Hvalid & _).
    apply list_elem_of_lookup in Hp as [i Hi].
    destruct (Forall2_lookup_l _ _ _ _ _ Hvs Hi) as (var & Hvar & Hof).
    exfalso. apply (Hbad var Hof).
    rewrite Forall_forall in Hvalid. apply Hvalid.
    by eapply list_elem_of_lookup_2.
  - apply checkField_untagged in Hc as [Hc|Hc]; [congruence|].
    exfalso. apply (untagged_not_oneof tag Hone). congruence.
Qed.

(** C3.  For a field whose trimmed first tag part is [oneof]: if it
    passes [checkField] it has at least one variant, and its variants are
    the parts after the first, in tag order, each split at its last colon
    into the type name (prefix) and the field number (suffix); with no
    variant part (and a type a oneof tag may be used on, the fields before
    it being accepted) [parseStruct] fails with a diagnostic mentioning
    [at least one variant]; a part without a colon or with a non-numeric
    suffix makes [parseStruct] fail; and the tag
    [oneof,TextMessage:2,ImageMessage:3] yields exactly (TextMessage, 2)
    then (ImageMessage, 3). *)
Theorem oneof_tag_variants :
  (forall typeName field tag v,
     Field.Tag field = Some tag ->
     TrimSpace (part (Split tag ",") 0) = "oneof" ->
     checkField typeName field = OK (Some v) ->
     isOneof v = true /\ oneofVariants v <> [] /\
     Forall2 variantOf (drop 1 (Split tag ",")) (oneofVariants v) /\
     forall name,
       FieldInfo.OneofVariants (newFieldInfo field v name) = oneofVariants v) /\
  (forall typeName pre field post info tag,
     parseStruct typeName pre = OK info ->
     Field.Tag field = Some tag ->
     TrimSpace (part (Split tag ",") 0) = "oneof" ->
     length (Split tag ",") = 1%nat ->
     validateOneofFieldType (Field.Type_ field) = None ->
     exists e, parseStruct typeName (pre ++ field :: post) = Err e /\
       mentions e "at least one variant") /\
  (forall typeName structType field tag,
     field ∈ structType ->
     Field.Tag field = Some tag ->
     TrimSpace (part (Split tag ",") 0) = "oneof" ->
     length (Split tag ",") = 1%nat ->
     exists e, parseStruct typeName structType = Err e) /\
  (forall typeName structType field tag p,
     field ∈ structType ->
     Field.Tag field = Some tag ->
     TrimSpace (part (Split tag ",") 0) = "oneof" ->
     p ∈ drop 1 (Split tag ",") ->
     (forall var, ~ variantOf p var) ->
     exists e, parseStruct typeName structType = Err e) /\
  (forall p,
     LastIndex (TrimSpace p) ":" = -1 -> forall var, ~ variantOf p var) /\
  (forall p prefix suffix,
     TrimSpace p = prefix +:+ ":" +:+ suffix -> LastIndex suffix ":" = -1 ->
     Atoi (TrimSpace suffix) = None -> forall var, ~ variantOf p var) /\
  (exists info content,
     parseStruct "Chat"
       [ mkField ["ID"] (Ident "int64") "1";
         mkField ["Content"] (Ident "Message")
           "oneof,TextMessage:2,ImageMessage:3" ] = OK info /\
     content ∈ TypeInfo.Fields info /\
     FieldInfo.Name content = "Content" /\
     FieldInfo.IsOneof content = true /\
     FieldInfo.OneofVariants content =
       [ {| OneofVariant.TypeName := "TextMessage"; OneofVariant.FieldNum := 2 |};
         {| OneofVariant.TypeName := "ImageMessage"; OneofVariant.FieldNum := 3 |} ]).
Proof.
  split_and!.
  - intros typeName field tag v Htag Hone Hc.
    destruct (oneof_checkField_OK _ _ _ _ Htag Hone Hc)
      as (Ho & _ & _ & _ & Hlen & Hvs & _).
    split_and!; try done.
    + intros Hnil. rewrite Hnil in Hvs. apply Forall2_nil_inv_r in Hvs.
      apply (f_equal length) in Hvs. rewrite length_drop in Hvs. simpl in Hvs. lia.
    + intros name. by destruct (newFieldInfo_keeps field v name) as (_ & _ & _ & _ & -> & _).
  - intros typeName pre field post info tag Hpre Htag Hone Hlen Hty.
    eexists. split.
    + eapply parseStruct_stops; [done|].
      apply (oneof_checkField_stops _ _ tag); try done.
      unfold parseNumbers. rewrite Hty, Hlen. reflexivity.
    + intros Q. reflexivity.
  - intros typeName structType field tag Hin Htag Hone Hlen.
    destruct (checkField typeName field) as [[v|]|e] eqn:Hc.
    + destruct (oneof_checkField_OK _ _ _ _ Htag Hone Hc)
        as (_ & _ & _ & _ & Hlen' & _). lia.
    + apply checkField_untagged in Hc as [Hc|Hc]; [congruence|].
      exfalso. apply (untagged_not_oneof tag Hone). congruence.
    + by eapply parseStruct_rejects.
  - intros typeName structType field tag p Hin Htag Hone Hp Hbad.
    destruct (malformed_variant_rejected typeName field tag p Htag Hone Hp) as [e He].
    { intros var Hvar. by apply Hbad in Hvar. }
    by eapply parseStruct_rejects.
  - intros p Hi var (a & b & Hp & Hb & _).
    rewrite Hp, (LastIndex_app a b Hb) in Hi. lia.
  - intros p a b Hp Hb Hn var (a' & b' & Hp' & Hb' & _ & Hn').
    rewrite Hp in Hp'. destruct (split_unique _ _ _ _ Hp' Hb Hb') as [<- <-].
    congruence.
  - eexists. eexists. split; [by vm_compute|].
    split; [left|]. by vm_compute.
Qed.

Lemma parseFieldNum_spec tag part0 :
  match parseFieldNum tag part0 with
  | OK n => Atoi (TrimSpace part0) = Some n /\ validFieldNum n
  | Err _ => forall n, Atoi (TrimSpace part0) = Some n -> ~ validFieldNum n
  end.
Proof.
  destruct (parseFieldNum tag part0) as [n|e] eqn:H.
  - apply parseFieldNum_OK in H. unfold validFieldNum. tauto.
  - unfold parseFieldNum in H. intros n Hn. rewrite Hn in H.
    unfold validFieldNum.
    destruct (Z.ltb_spec n 1); [lia|].
    destruct (Z.ltb_spec 536870911 n); [lia|].
    destruct (Z.leb_spec 19000 n), (Z.leb_spec n 19999); simpl in H;
      try done; lia.
Qed.

Lemma descriptor_numbers_valid typeName field fi n :
  fi ∈ descriptors typeName field -> n ∈ numbers fi -> validFieldNum n.
Proof.
  intros (v & name & Hc & _ & ->)%descriptors_inv.
  rewrite numbers_newFieldInfo.
  pose proof Hc as (tag & Htag & _ & Hp)%checkField_OK.
  destruct Hp as (_ & Ho & Hnums & _).
  destruct (isOneof v) eqn:Hone.
  - symmetry in Ho. apply bool_decide_eq_true_1 in Ho.
    destruct (oneof_checkField_OK _ _ _ _ Htag Ho Hc)
      as (_ & _ & _ & _ & _ & _ & Hvalid & _).
    intros (var & -> & Hvar)%list_elem_of_fmap.
    rewrite Forall_forall in Hvalid. auto.
  - intros ->%list_elem_of_singleton.
    unfold parseNumbers in Hnums.
    pose proof (parseFieldNum_spec tag (part (Split tag ",") 0)) as Hn.
    destruct (parseFieldNum _ _) as [m|]; [|done].
    simplify_eq. tauto.
Qed.

Lemma invalid_number_rejected typeName field tag :
  Field.Tag field = Some tag -> tag <> "" ->
  TrimSpace (part (Split tag ",") 0) <> "oneof" ->
  (forall n, Atoi (TrimSpace (part (Split tag ",") 0)) = Some n ->
     ~ validFieldNum n) ->
  exists e, checkField typeName field = Err e.
Proof.
  intros Htag Hne Hone Hbad.
  destruct (checkField typeName field) as [[v|]|e] eqn:Hc; [| |eauto].
  - apply checkField_OK in Hc as (tag' & Htag' & _ & Hp).
    assert (tag' = tag) as -> by congruence.
    destruct Hp as (_ & Ho & Hnums & _).
    rewrite (bool_decide_eq_false_2 _ Hone) in Ho. rewrite Ho in Hnums.
    unfold parseNumbers in Hnums.
    pose proof (parseFieldNum_spec tag (part (Split tag ",") 0)) as Hn.
    destruct (parseFieldNum _ _) as [m|]; [|done].
    destruct Hn as [Hm Hvalid]. by apply Hbad in Hm.
  - apply checkField_untagged in Hc as [Hc|Hc]; congruence.
Qed.

(** A record of one field passes when the field passes its own checks and
    has a single name. *)
Lemma single_field_accepted typeName field v name :
  checkField typeName field = OK (Some v) -> fieldNames v = [name] ->
  (isOneof v = true -> NoDup (OneofVariant.FieldNum <$> oneofVariants v)) ->
  exists info, parseStruct typeName [field] = OK info.
Proof.
  intros Hc Hnames Hnd.
  pose proof (parseStruct_spec typeName [field]) as Hs.
  destruct (parseStruct typeName [field]) as [info|e]; [eauto|].
  exfalso. destruct Hs as [(f & ->%list_elem_of_singleton & He)|[_ Hdup]];
    [congruence|].
  apply Hdup. unfold assigned. simpl. unfold descriptors at 1.
  rewrite Hc, Hnames. simpl. rewrite numbers_newFieldInfo.
  destruct (isOneof v); simpl; rewrite ?app_nil_r;
    [auto|apply NoDup_singleton].
Qed.

(** A field [name int64] whose tag is a single part that parses as a legal
    number passes [checkField]. *)
Lemma plain_field_checks typeName name tag n :
  Split tag "," = [tag] -> parseFieldNum tag tag = OK n ->
  exists v, checkField typeName (mkField [name] (Ident "int64") tag) = OK (Some v) /\
    isOneof v = false /\ fieldNames v = [name].
Proof.
  intros Hsplit Hn.
  pose proof (ordinary_tag typeName (mkField [name] (Ident "int64") tag) tag n)
    as Ho.
  cbv zeta in Ho. rewrite Hsplit in Ho. specialize (Ho Hn).
  destruct Ho as (Hne & Hone & Hnums).
  exists {| protoTag := tag; isOneof := false; oneofVariants := [];
            fieldNum := n; protoType := "int64"; isMap := false;
            mapKeyProto := ""; mapValueProto := "";
            options := parseOptions [tag] false false "int64";
            fieldNames := [name] |}.
  split; [|done].
  apply checkField_OK. exists tag. split; [done|]. split; [done|].
  unfold passes. rewrite Hsplit. cbn [protoTag isOneof oneofVariants fieldNum
    protoType isMap mapKeyProto mapValueProto options fieldNames].
  by split_and!.
Qed.

(** A field of a named type whose tag is [oneof] followed by one
    well-formed variant passes [checkField]. *)
Lemma oneof_field_checks typeName name tyName tag p0 p1 variant :
  Split tag "," = [p0; p1] -> TrimSpace p0 = "oneof" ->
  tyName ∉ primitiveNames ->
  parseOneofVariant tag [] p1 = OK [variant] ->
  exists v, checkField typeName (mkField [name] (Ident tyName) tag) = OK (Some v) /\
    isOneof v = true /\ oneofVariants v = [variant] /\ fieldNames v = [name].
Proof.
  intros Hsplit Hone Hty Hvar.
  exists {| protoTag := tag; isOneof := true; oneofVariants := [variant];
            fieldNum := -1; protoType := "oneof"; isMap := false;
            mapKeyProto := ""; mapValueProto := "";
            options := parseOptions [p0; p1] true false "oneof";
            fieldNames := [name] |}.
  split; [|done].
  apply checkField_OK. exists tag. split; [done|].
  split; [intros ->; by vm_compute in Hsplit|].
  unfold passes. rewrite Hsplit. cbn [protoTag isOneof oneofVariants fieldNum
    protoType isMap mapKeyProto mapValueProto options fieldNames].
  split_and!; try done.
  - change (part [p0; p1] 0) with p0. by rewrite Hone.
  - unfold parseNumbers. cbn [mkField Field.Type_ validateOneofFieldType].
    rewrite bool_decide_eq_false_2 by done.
    cbn [length Nat.ltb Nat.leb drop forEach]. cbn. by rewrite Hvar.
Qed.

(** [parseFieldNum] accepts every legal number. *)
Lemma parseFieldNum_accepts tag part0 n :
  Atoi (TrimSpace part0) = Some n -> validFieldNum n ->
  parseFieldNum tag part0 = OK n.
Proof.
  intros Hn Hv. pose proof (parseFieldNum_spec tag part0) as Hs.
  destruct (parseFieldNum tag part0) as [m|e].
  - destruct Hs as [Hm _]. congruence.
  - by destruct (Hs n Hn).
Qed.

(** A record with a single ordinary field of type [int64] is accepted
    exactly when the field number is legal. *)
Lemma plain_field_accepted typeName name tag n :
  Split tag "," = [tag] -> Atoi (TrimSpace tag) = Some n ->
  (exists info, parseStruct typeName [mkField [name] (Ident "int64") tag] = OK info)
  <-> validFieldNum n.
Proof.
  intros Hsplit Hn. split.
  - intros [info Hinfo].
    destruct (decide (validFieldNum n)) as [|Hbad]; [done|exfalso].
    destruct (invalid_number_rejected typeName
      (mkField [name] (Ident "int64") tag) tag) as [e He]; try done.
    + intros ->. by vm_compute in Hn.
    + rewrite Hsplit. change (part [tag] 0) with tag. intros Hone.
      rewrite Hone in Hn. by vm_compute in Hn.
    + rewrite Hsplit. change (part [tag] 0) with tag. intros m Hm.
      by assert (m = n) as -> by congruence.
    + destruct (parseStruct_checks typeName _ info
        (mkField [name] (Ident "int64") tag) Hinfo) as [r Hr];
        [apply list_elem_of_singleton; done|congruence].
  - intros Hv.
    destruct (plain_field_checks typeName name tag n Hsplit
      (parseFieldNum_accepts tag tag n Hn Hv)) as (v & Hc & Hone & Hnames).
    apply (single_field_accepted _ _ v name Hc Hnames).
    by rewrite Hone.
Qed.

(** A record with a single oneof field of one variant is accepted exactly
    when the variant's number is legal. *)
Lemma oneof_field_accepted typeName name tyName tag p0 p1 variant :
  Split tag "," = [p0; p1] -> TrimSpace p0 = "oneof" ->
  tyName ∉ primitiveNames -> variantOf p1 variant ->
  (exists info, parseStruct typeName [mkField [name] (Ident tyName) tag] = OK info)
  <-> validFieldNum (OneofVariant.FieldNum variant).
Proof.
  intros Hsplit Hone Hty Hvar.
  pose proof (parseOneofVariant_spec tag [] p1) as Hs. split.
  - intros [info Hinfo].
    destruct (parseStruct_checks typeName _ info
        (mkField [name] (Ident tyName) tag) Hinfo) as [r Hr];
        [apply list_elem_of_singleton; done|].
    destruct r as [v|];
      [|apply checkField_untagged in Hr as [[=]|[= ->]];
        by vm_compute in Hsplit].
    apply (oneof_checkField_OK _ _ tag) in Hr
      as (_ & _ & _ & _ & _ & Hvs & Hvalid & _);
      [|done|by rewrite Hsplit].
    rewrite Hsplit in Hvs. cbn [drop] in Hvs.
    apply Forall2_cons_inv_l in Hvs as (var & vs & Hvar' & _ & Heq).
    rewrite Heq in Hvalid. apply Forall_cons in Hvalid as [Hvalid _].
    by rewrite (variantOf_unique _ _ _ Hvar Hvar').
  - intros Hv. destruct (parseOneofVariant tag [] p1) as [vs|e] eqn:Hp.
    + destruct Hs as (var & -> & Hvar' & _).
      rewrite <- (variantOf_unique _ _ _ Hvar Hvar') in Hp.
      destruct (oneof_field_checks typeName name tyName tag p0 p1 variant
        Hsplit Hone Hty Hp) as (v & Hc & _ & Hvs & Hnames).
      apply (single_field_accepted _ _ v name Hc Hnames).
      intros _. rewrite Hvs. apply NoDup_singleton.
    + destruct (Hs variant Hvar Hv) as [_ Hin]. by apply elem_of_nil in Hin.
Qed.

(** C2.  A field number slot (the first part of an ordinary tag, the
    suffix after the last colon of a oneof variant) that parses as the
    integer [n] is accepted exactly when [n] is in [1, 536870911] and not
    in [19000, 19999]; a slot that does not parse is rejected.  Every
    number of a parsed record is legal, and a record with a field whose
    slot is rejected makes [parseStruct] return an error; a record made of
    one [int64] field, or of one oneof field with one variant, is parsed
    exactly when the number in its slot is legal.  In particular
    1, 18999, 20000 and 536870911 are accepted and 0, 19000, 19999,
    536870912, negative values and non-numeric slots are rejected. *)
Theorem field_number_range :
  (forall tag part0 n,
     Atoi (TrimSpace part0) = Some n ->
     (validFieldNum n -> parseFieldNum tag part0 = OK n) /\
     (~ validFieldNum n -> exists e, parseFieldNum tag part0 = Err e)) /\
  (forall tag part0,
     Atoi (TrimSpace part0) = None ->
     exists e, parseFieldNum tag part0 = Err e) /\
  (forall tag p var,
     variantOf p var ->
     (validFieldNum (OneofVariant.FieldNum var) ->
      parseOneofVariant tag [] p = OK [var]) /\
     (~ validFieldNum (OneofVariant.FieldNum var) ->
      exists e, parseOneofVariant tag [] p = Err e)) /\
  (forall typeName structType info fi n,
     parseStruct typeName structType = OK info ->
     fi ∈ TypeInfo.Fields info -> n ∈ numbers fi -> validFieldNum n) /\
  (forall typeName structType field tag,
     field ∈ structType -> Field.Tag field = Some tag -> tag <> "" ->
     TrimSpace (part (Split tag ",") 0) <> "oneof" ->
     (forall n, Atoi (TrimSpace (part (Split tag ",") 0)) = Some n ->
        ~ validFieldNum n) ->
     exists e, parseStruct typeName structType = Err e) /\
  (forall typeName structType field tag p,
     field ∈ structType -> Field.Tag field = Some tag ->
     TrimSpace (part (Split tag ",") 0) = "oneof" ->
     p ∈ drop 1 (Split tag ",") ->
     (forall var, variantOf p var ->
        ~ validFieldNum (OneofVariant.FieldNum var)) ->
     exists e, parseStruct typeName structType = Err e) /\
  (forall typeName name tag n,
     Split tag "," = [tag] -> Atoi (TrimSpace tag) = Some n ->
     (exists info,
        parseStruct typeName [mkField [name] (Ident "int64") tag] = OK info)
     <-> validFieldNum n) /\
  (forall typeName name tyName tag p0 p1 variant,
     Split tag "," = [p0; p1] -> TrimSpace p0 = "oneof" ->
     tyName ∉ primitiveNames -> variantOf p1 variant ->
     (exists info,
        parseStruct typeName [mkField [name] (Ident tyName) tag] = OK info)
     <-> validFieldNum (OneofVariant.FieldNum variant)) /\
  Forall validFieldNum [1; 18999; 20000; 536870911] /\
  Forall (fun n => ~ validFieldNum n) [0; 19000; 19999; 536870912] /\
  (forall n, n < 0 -> ~ validFieldNum n) /\
  Forall (fun tag =>
            exists info,
              parseStruct "T" [mkField ["X"] (Ident "int64") tag] = OK info)
    [ "1"; "18999"; "20000"; "536870911"] /\
  Forall (fun tag =>
            exists e,
              parseStruct "T" [mkField ["X"] (Ident "int64") tag] = Err e)
    [ "0"; "19000"; "19999"; "536870912"; "-7"; "x1" ] /\
  Forall (fun tag =>
            exists info,
              parseStruct "T" [mkField ["X"] (Ident "Message") tag] = OK info)
    [ "oneof,A:1"; "oneof,A:18999"; "oneof,A:20000"; "oneof,A:536870911"] /\
  Forall (fun tag =>
            exists e,
              parseStruct "T" [mkField ["X"] (Ident "Message") tag] = Err e)
    [ "oneof,A:0"; "oneof,A:19000"; "oneof,A:19999"; "oneof,A:536870912";
      "oneof,A:-7"; "oneof,A:x1" ].
Proof.
  split_and!.
  - intros tag part0 n Hn.
    pose proof (parseFieldNum_spec tag part0) as H.
    destruct (parseFieldNum tag part0) as [m|e].
    + destruct H as [Hm Hvalid]. rewrite Hn in Hm. simplify_eq.
      split; [done|]. tauto.
    + split; [|eauto]. intros Hvalid. by apply H in Hn.
  - intros tag part0 Hn. unfold parseFieldNum. rewrite Hn. eauto.
  - intros tag p var Hvar.
    pose proof (parseOneofVariant_spec tag [] p) as H.
    destruct (parseOneofVariant tag [] p) as [vs|e].
    + destruct H as (var' & -> & Hvar' & Hvalid & _).
      rewrite (variantOf_unique _ _ _ Hvar Hvar'). split; [done|]. tauto.
    + split; [|eauto]. intros Hvalid.
      destruct (H var Hvar Hvalid) as [_ Hin]. by apply elem_of_nil in Hin.
  - intros typeName structType info fi n H Hfi Hn.
    rewrite (parseStruct_descriptors _ _ _ H) in Hfi.
    apply list_elem_of_bind in Hfi as (field & Hfi & _).
    by eapply descriptor_numbers_valid.
  - intros typeName structType field tag Hin Htag Hne Hone Hbad.
    destruct (invalid_number_rejected typeName field tag Htag Hne Hone Hbad)
      as [e He].
    by eapply parseStruct_rejects.
  - intros typeName structType field tag p Hin Htag Hone Hp Hbad.
    destruct (malformed_variant_rejected typeName field tag p Htag Hone Hp Hbad)
      as [e He].
    by eapply parseStruct_rejects.
  - apply plain_field_accepted.
  - apply oneof_field_accepted.
  - unfold validFieldNum. repeat constructor; lia.
  - unfold validFieldNum. repeat constructor; lia.
  - unfold validFieldNum. lia.
  - repeat constructor; eexists; by vm_compute.
  - repeat constructor; eexists; by vm_compute.
  - repeat constructor; eexists; by vm_compute.
  - repeat constructor; eexists; by vm_compute.
Qed.

(** Distinct positions of a list whose number sets have no repetition
    overall hold disjoint number sets. *)
Lemma NoDup_bind_disjoint (fields : list FieldInfo.t) i j fi fj n :
  NoDup (fields ≫= numbers) -> i <> j ->
  fields !! i = Some fi -> fields !! j = Some fj ->
  n ∈ numbers fi -> n ∉ numbers fj.
Proof.
  revert i j. induction fields as [|f fields IH]; intros i j Hnd Hij Hi Hj Hn Hn';
    [done|].
  rewrite bind_cons in Hnd. apply NoDup_app in Hnd as (_ & Hdisj & Hnd).
  destruct i as [|i], j as [|j]; simpl in *; simplify_eq.
  - apply (Hdisj n Hn). apply list_elem_of_bind. exists fj.
    split; [done|]. by eapply list_elem_of_lookup_2.
  - apply (Hdisj n Hn'). apply list_elem_of_bind. exists fi.
    split; [done|]. by eapply list_elem_of_lookup_2.
  - eapply (IH i j); eauto.
Qed.

(** A oneof tag whose parts are well-formed variants with legal numbers,
    two of them equal. *)
Lemma repeated_variant_rejected typeName field tag vars :
  Field.Tag field = Some tag ->
  TrimSpace (part (Split tag ",") 0) = "oneof" ->
  validateOneofFieldType (Field.Type_ field) = None ->
  Forall2 variantOf (drop 1 (Split tag ",")) vars ->
  Forall (fun var => validFieldNum (OneofVariant.FieldNum var)) vars ->
  ~ NoDup (OneofVariant.FieldNum <$> vars) ->
  exists e, checkField typeName field = Err e /\ duplicateError e.
Proof.
  intros Htag Hone Hty Hvars Hvalid Hdup.
  pose proof (parseOneofVariants_spec tag (drop 1 (Split tag ",")) []) as Hvs.
  destruct (forEach _ _ _) as [vs|e] eqn:Hloop.
  - destruct Hvs as (new & -> & Hnew & _ & Hnd). exfalso. apply Hdup.
    assert (new = vars) as <-; [|apply Hnd; constructor].
    clear -Hnew Hvars. revert vars Hvars.
    induction Hnew as [|p var ps new Hvar Hnew IH]; intros vars Hvars.
    + by apply Forall2_nil_inv_l in Hvars.
    + destruct vars as [|var' vars]; [by apply Forall2_cons_nil_inv in Hvars|].
      apply Forall2_cons in Hvars as [Hvar' Hvars].
      rewrite (variantOf_unique _ _ _ Hvar Hvar'). f_equal. by apply IH.
  - destruct (Hvs vars Hvars Hvalid) as [Hd _].
    exists e. split; [|done].
    apply (oneof_checkField_stops _ _ tag); try done.
    unfold parseNumbers. rewrite Hty, Hloop.
    destruct (Nat.ltb_spec (length (Split tag ",")) 2) as [Hlen|]; [|done].
    exfalso. destruct (Split tag ",") as [|? [|]]; simpl in *; try lia;
      discriminate Hloop.
Qed.

(** C1.  In every successfully parsed record the number sets of distinct
    fields (the field number of an ordinary field, the variant numbers of a
    oneof field) are pairwise disjoint.  A record in which a number is
    assigned twice (by two ordinary fields, by variants of two oneof
    fields, or by an ordinary field and a oneof variant) makes
    [parseStruct] fail, with a diagnostic containing
    [duplicate field number] or with the diagnostic of a field that fails
    its own tag or type check; when every tagged field passes its own
    checks, the uniqueness check decides: [parseStruct] succeeds if no
    number is assigned twice and fails with the diagnostic
    [duplicate field number] otherwise.  A number repeated among the
    variants of one oneof tag, on a type that may carry a oneof tag, the
    parts being well-formed variants with legal numbers and the fields
    before it accepted, fails with that diagnostic too. *)
Theorem duplicate_field_numbers :
  (forall typeName structType info,
     parseStruct typeName structType = OK info ->
     NoDup (TypeInfo.Fields info ≫= numbers) /\
     forall i j fi fj n,
       i <> j ->
       TypeInfo.Fields info !! i = Some fi ->
       TypeInfo.Fields info !! j = Some fj ->
       n ∈ numbers fi -> n ∉ numbers fj) /\
  (forall typeName structType,
     ~ NoDup (assigned typeName structType) ->
     exists e, parseStruct typeName structType = Err e /\
       (mentions e "duplicate field number" \/
        exists field, field ∈ structType /\
          checkField typeName field = Err e)) /\
  (forall typeName structType,
     Forall (fun field => exists r, checkField typeName field = OK r)
       structType ->
     (NoDup (assigned typeName structType) ->
      exists info, parseStruct typeName structType = OK info) /\
     (~ NoDup (assigned typeName structType) ->
      exists e, parseStruct typeName structType = Err e /\
        mentions e "duplicate field number")) /\
  (forall typeName pre field post info tag vars,
     parseStruct typeName pre = OK info ->
     Field.Tag field = Some tag ->
     TrimSpace (part (Split tag ",") 0) = "oneof" ->
     validateOneofFieldType (Field.Type_ field) = None ->
     Forall2 variantOf (drop 1 (Split tag ",")) vars ->
     Forall (fun var => validFieldNum (OneofVariant.FieldNum var)) vars ->
     ~ NoDup (OneofVariant.FieldNum <$> vars) ->
     exists e, parseStruct typeName (pre ++ field :: post) = Err e /\
       mentions e "duplicate field number").
Proof.
  split_and!.
  - intros typeName structType info H.
    pose proof (parseStruct_spec typeName structType) as Hs. rewrite H in Hs.
    destruct Hs as (_ & Hperm & _ & Hnd & _).
    assert (NoDup (TypeInfo.Fields info ≫= numbers)) as Hnd'.
    { unfold assigned in Hnd. by rewrite Hperm. }
    split; [done|]. intros i j fi fj n. by apply NoDup_bind_disjoint.
  - intros typeName structType Hdup.
    pose proof (parseStruct_spec typeName structType) as Hs.
    destruct (parseStruct typeName structType) as [info|e].
    + by destruct Hs as (_ & _ & _ & Hnd & _).
    + exists e. split; [done|].
      destruct Hs as [?|[Hd _]]; [by right|left].
      by apply duplicateError_mentions.
  - intros typeName structType Hall.
    pose proof (parseStruct_spec typeName structType) as Hs.
    rewrite Forall_forall in Hall.
    destruct (parseStruct typeName structType) as [info|e].
    + split; [eauto|]. by destruct Hs as (_ & _ & _ & Hnd & _).
    + destruct Hs as [(field & Hin & He)|[Hd Hdup]].
      * destruct (Hall field Hin) as [r Hr]. congruence.
      * split; [done|]. intros _. exists e. split; [done|].
        by apply duplicateError_mentions.
  - intros typeName pre field post info tag vars Hpre Htag Hone Hty Hvars Hvalid Hdup.
    destruct (repeated_variant_rejected typeName field tag vars
                Htag Hone Hty Hvars Hvalid Hdup) as (e & He & Hd).
    exists e. split; [by eapply parseStruct_stops|].
    by apply duplicateError_mentions.
Qed.

(** ** The properties on concrete records *)

Ltac compute_variant a b :=
  exists a, b; split_and!; by vm_compute.

Lemma duplicate_field_numbers_witness :
  NoDup (TypeInfo.Fields chatInfo ≫= numbers) /\
  (exists e, parseStruct "Chat" clashStruct = Err e /\
     mentions e "duplicate field number") /\
  (exists e, parseStruct "Chat" twoOrdinary = Err e /\
     mentions e "duplicate field number") /\
  (exists e, parseStruct "Chat" twoOneofs = Err e /\
     mentions e "duplicate field number") /\
  (exists e, parseStruct "Chat" (chatStruct ++ twinField :: []) = Err e /\
     mentions e "duplicate field number").
Proof.
  destruct duplicate_field_numbers as (Hok & _ & Hall & Hown).
  split_and!.
  - apply (Hok "Chat" chatStruct). by vm_compute.
  - apply (Hall "Chat" clashStruct).
    + repeat constructor; eexists; by vm_compute.
    + apply (bool_decide_unpack _). by vm_compute.
  - apply (Hall "Chat" twoOrdinary).
    + repeat constructor; eexists; by vm_compute.
    + apply (bool_decide_unpack _). by vm_compute.
  - apply (Hall "Chat" twoOneofs).
    + repeat constructor; eexists; by vm_compute.
    + apply (bool_decide_unpack _). by vm_compute.
  - assert (drop 1 (Split "oneof,TextMessage:2,ImageMessage:2" ",")
            = ["TextMessage:2"; "ImageMessage:2"]) as Hparts by (by vm_compute).
    apply (Hown "Chat" chatStruct twinField [] chatInfo
             "oneof,TextMessage:2,ImageMessage:2" [textVariant; imageVariant 2]).
    + by vm_compute.
    + done.
    + by vm_compute.
    + by vm_compute.
    + rewrite Hparts. repeat constructor.
      * compute_variant "TextMessage" "2".
      * compute_variant "ImageMessage" "2".
    + unfold validFieldNum. repeat constructor; simpl; lia.
    + apply (bool_decide_unpack _). by vm_compute.
Defined.

Lemma fields_sorted_by_number_witness :
  Sorted (fun fi fj => FieldInfo.FieldNum fi <= FieldInfo.FieldNum fj)
    (TypeInfo.Fields chatInfo) /\
  FieldInfo.FieldNum <$> TypeInfo.Fields chatInfo = [-1; 1; 3; 5].
Proof.
  split; [|by vm_compute].
  apply (fields_sorted_by_number "Chat" chatStruct chatInfo). by vm_compute.
Defined.

Lemma field_number_range_witness :
  parseFieldNum "18999" "18999" = OK 18999 /\
  (exists e, parseFieldNum "19000" "19000" = Err e) /\
  parseOneofVariant "oneof,ImageMessage:20000" [] "ImageMessage:20000"
    = OK [imageVariant 20000] /\
  (exists e, parseStruct "Chat"
               (chatStruct ++ [mkField ["Extra"] (Ident "int64") "536870912"])
             = Err e) /\
  (exists e, parseStruct "Chat"
               (mkField ["Content"] (Ident "Message") "oneof,TextMessage:0"
                  :: chatStruct) = Err e) /\
  Forall (fun fi => Forall validFieldNum (numbers fi)) (TypeInfo.Fields chatInfo).
Proof.
  destruct field_number_range
    as (Hnum & _ & Hvar & Hok & Hbad & Hbadvar & _).
  split_and!.
  - apply (Hnum "18999" "18999" 18999); [by vm_compute|].
    unfold validFieldNum. lia.
  - apply (Hnum "19000" "19000" 19000); [by vm_compute|].
    unfold validFieldNum. lia.
  - apply (Hvar "oneof,ImageMessage:20000" "ImageMessage:20000"
             (imageVariant 20000)).
    + compute_variant "ImageMessage" "20000".
    + unfold validFieldNum. simpl. lia.
  - apply (Hbad "Chat" _ (mkField ["Extra"] (Ident "int64") "536870912")
             "536870912").
    + apply list_elem_of_In, in_or_app. right. by left.
    + done.
    + done.
    + by vm_compute.
    + intros n Hn. vm_compute in Hn. injection Hn as <-.
      unfold validFieldNum. lia.
  - apply (Hbadvar "Chat" _
             (mkField ["Content"] (Ident "Message") "oneof,TextMessage:0")
             "oneof,TextMessage:0" "TextMessage:0").
    + left.
    + done.
    + by vm_compute.
    + apply (bool_decide_unpack _). by vm_compute.
    + intros var Hvar0.
      assert (variantOf "TextMessage:0"
                {| OneofVariant.TypeName := "TextMessage";
                   OneofVariant.FieldNum := 0 |}) as H0
        by compute_variant "TextMessage" "0".
      rewrite (variantOf_unique _ _ _ Hvar0 H0).
      unfold validFieldNum. simpl. lia.
  - apply Forall_forall. intros fi Hfi. apply Forall_forall. intros n Hn.
    apply (Hok "Chat" chatStruct chatInfo fi n); [by vm_compute|done|done].
Defined.

Lemma oneof_tag_variants_witness :
  (exists e, parseStruct "Chat" (chatStruct ++ [bareOneofField]) = Err e /\
     mentions e "at least one variant") /\
  (exists e, parseStruct "Chat" (noColonField :: chatStruct) = Err e) /\
  (forall v, checkField "Chat" twinField = OK (Some v) ->
     Forall2 variantOf ["TextMessage:2"; "ImageMessage:2"] (oneofVariants v)).
Proof.
  destruct oneof_tag_variants as (Hok & Hnone & _ & Hbad & Hcolon & _).
  split_and!.
  - apply (Hnone "Chat" chatStruct bareOneofField [] chatInfo "oneof").
    + by vm_compute.
    + done.
    + by vm_compute.
    + by vm_compute.
    + by vm_compute.
  - apply (Hbad "Chat" _ noColonField "oneof,TextMessage" "TextMessage").
    + left.
    + done.
    + by vm_compute.
    + apply (bool_decide_unpack _). by vm_compute.
    + apply Hcolon. by vm_compute.
  - intros v Hv.
    assert (drop 1 (Split "oneof,TextMessage:2,ImageMessage:2" ",")
            = ["TextMessage:2"; "ImageMessage:2"]) as <- by (by vm_compute).
    apply (Hok "Chat" twinField "oneof,TextMessage:2,ImageMessage:2" v);
      [done|by vm_compute|done].
Defined.

Lemma inferred_wire_type_table_witness :
  Forall (fun fi => FieldInfo.ProtoType fi = "string" /\
                    FieldInfo.IsRepeated fi = true)
    (descriptors "Chat" tagsField) /\
  inferProtoType (Ident "Sample") = "message".
Proof.
  destruct inferred_wire_type_table
    as (_ & _ & _ & _ & _ & _ & _ & _ & _ & _ & _ & _ & Hother & _ & _ & _ &
        _ & _ & _ & _ & _ & Hfield).
  split.
  - apply Forall_forall. intros fi Hfi.
    destruct (Hfield "Chat" tagsField "5" fi eq_refl) as [-> ->];
      [by vm_compute|done|done].
  - apply Hother. apply (bool_decide_unpack _). by vm_compute.
Defined.

Lemma interface_fields_rejected_witness :
  exists e, parseStruct "Chat" (chatStruct ++ [anyField]) = Err e /\
    mentions e "interface types are not supported".
Proof.
  destruct interface_fields_rejected as (_ & _ & Hreject & _).
  apply (Hreject "Chat" chatStruct anyField [] chatInfo "1" 1).
  - by vm_compute.
  - done.
  - by vm_compute.
  - by vm_compute.
  - by vm_compute.
Defined.

Lemma map_key_type_checked_witness :
  (exists e, parseStruct "Chat" (chatStruct ++ [floatKeyField]) = Err e /\
     mentions e "invalid map key type") /\
  Forall (fun fi => FieldInfo.ProtoType fi = "map" ->
                    FieldInfo.MapKeyProto fi ∈ mapKeyTypeNames)
    (TypeInfo.Fields chatInfo).
Proof.
  destruct map_key_type_checked as (_ & _ & _ & Hok & _ & Hreject).
  split.
  - apply (Hreject "Chat" chatStruct floatKeyField [] chatInfo "7" 7).
    + by vm_compute.
    + done.
    + by vm_compute.
    + by vm_compute.
    + apply (bool_decide_unpack _). by vm_compute.
  - apply Forall_forall. intros fi Hfi Hmap.
    apply (Hok "Chat" chatStruct chatInfo fi); [by vm_compute|done|done].
Defined.

Lemma explicit_wire_type_checked_witness :
  (exists e, parseStruct "Chat" (chatStruct ++ [optionOnlyField]) = Err e /\
     mentions e "invalid protobuf type") /\
  (forall info,
     parseStruct "Chat" [mkField ["Val"] (Ident "int32") "1, sint32"] = OK info ->
     "sint32" ∈ protoTypeNames).
Proof.
  destruct explicit_wire_type_checked as (_ & _ & Hok & _ & Hreject).
  split.
  - apply (Hreject "Chat" chatStruct optionOnlyField [] chatInfo "6,repeated" 6).
    + by vm_compute.
    + done.
    + vm_compute. lia.
    + by vm_compute.
    + apply (bool_decide_unpack _). by vm_compute.
  - intros info Hinfo.
    assert (TrimSpace (part (Split "1, sint32" ",") 1) = "sint32") as <-
      by (by vm_compute).
    apply (Hok "Chat" [mkField ["Val"] (Ident "int32") "1, sint32"] info
             (mkField ["Val"] (Ident "int32") "1, sint32")).
    + done.
    + left.
    + done.
    + by vm_compute.
    + vm_compute. lia.
Defined.

(** ** Option words *)

Lemma bool_decide_elem_cons (w x : string) (l : list string) :
  bool_decide (w ∈ x :: l) = bool_decide (x = w) || bool_decide (w ∈ l).
Proof.
  apply eq_true_iff_eq.
  rewrite orb_true_iff, !bool_decide_eq_true, elem_of_cons. intuition.
Qed.

Lemma applyOptions_spec isMap parts o :
  let o' := fold_left (applyOption isMap) parts o in
  let words := TrimSpace <$> parts in
  isRepeated o' = isRepeated o || bool_decide ("repeated" ∈ words) /\
  isOptional o' = isOptional o || bool_decide ("optional" ∈ words) /\
  isEnum o' = isEnum o || bool_decide ("enum" ∈ words) /\
  isCustom o' = isCustom o || bool_decide ("custom" ∈ words) /\
  mapValueCustom o' =
    mapValueCustom o || (isMap && bool_decide ("custom" ∈ words)).
Proof.
  revert o. induction parts as [|p parts IH]; intros o.
  - simpl. rewrite !orb_false_r, andb_false_r, orb_false_r. done.
  - cbn [fold_left]. cbv zeta in *. rewrite fmap_cons.
    destruct (IH (applyOption isMap o p)) as (-> & -> & -> & -> & ->).
    rewrite !bool_decide_elem_cons. unfold applyOption.
    generalize (TrimSpace p). intros word. destruct o as [r op en cu mv].
    repeat case_bool_decide; simplify_eq; destruct isMap; simpl;
      rewrite ?orb_true_r, ?orb_false_r; done.
Qed.

Lemma parseOptions_spec parts isMap protoType :
  let o := parseOptions parts false isMap protoType in
  let words := optionWords isMap parts in
  isRepeated o = bool_decide ("repeated" ∈ words) /\
  isOptional o = bool_decide ("optional" ∈ words) /\
  isEnum o = bool_decide (protoType = "enum") || bool_decide ("enum" ∈ words) /\
  isCustom o = bool_decide ("custom" ∈ words) /\
  mapValueCustom o = isMap && bool_decide ("custom" ∈ words).
Proof.
  unfold parseOptions, optionWords. cbn [negb].
  match goal with |- context [fold_left _ ?ps ?o] =>
    destruct (applyOptions_spec isMap ps o) as (-> & -> & -> & -> & ->) end.
  done.
Qed.


Lemma checked_oneof_type typeName field v :
  checkField typeName field = OK (Some v) -> isOneof v = true ->
  validateOneofFieldType (Field.Type_ field) = None.
Proof.
  intros (tag & _ & _ & Hp)%checkField_OK Hone.
  destruct Hp as (_ & _ & Hnums & _). rewrite Hone in Hnums.
  unfold parseNumbers in Hnums.
  by destruct (validateOneofFieldType _).
Qed.

(** * Properties of the rest of the generator *)

(** ** Template helpers *)

Lemma switch_None {A} tag (cases : list (list string * A)) :
  tag ∉ concat cases.*1 -> switch tag cases = None.
Proof.
  induction cases as [|[labels body] cases IH]; [done|].
  simpl. intros Hnot. rewrite bool_decide_eq_false_2.
  - apply IH. intros Hin. apply Hnot, elem_of_app. by right.
  - intros Hin. apply Hnot, elem_of_app. by left.
Qed.

(** A wire type outside the list reaches the [default] case of each
    helper. *)
Ltac other_type H :=
  rewrite !switch_None;
    [reflexivity|
     intros Hin; apply H; cbv [packedTypes app];
     cbv [fmap list_fmap concat app fst] in Hin; revert Hin;
     rewrite !elem_of_cons, !elem_of_nil; tauto..].

Ltac known_type H :=
  cbv [packedTypes app] in H; rewrite !elem_of_cons, elem_of_nil in H;
  repeat (destruct H as [->|H]; [try reflexivity|]); try done.

(** For a field that is not repeated the append function of a wire type
    is named after its read function: [Append] followed by that name, also
    for a string that is no wire type, where both fall back on bytes. *)
Theorem append_names_read_function protoType :
  appendFunc protoType false = "Append" +:+ readFunc protoType.
Proof.
  destruct (decide (protoType ∈
    ["string"; "bytes"; "enum"] ++ packedTypes)) as [H|H].
  - known_type H.
  - unfold appendFunc, readFunc. other_type H.
Qed.

(** For [enum] and the wire types with a packed encoding the unpack
    function is [Unpack], the name of the read function and [s]; for any
    other string, the length-delimited wire types among them, it is
    [Bytes]. *)
Theorem unpack_names_read_function protoType :
  (protoType ∈ "enum" :: packedTypes ->
   unpackFunc protoType = "Unpack" +:+ readFunc protoType +:+ "s") /\
  (protoType ∉ "enum" :: packedTypes -> unpackFunc protoType = "Bytes") /\
  (isLengthDelimited protoType = true -> unpackFunc protoType = "Bytes").
Proof.
  split_and!.
  - intros H. known_type H.
  - intros H. unfold unpackFunc. other_type H.
  - unfold isLengthDelimited.
    intros [->%bool_decide_eq_true| ->%bool_decide_eq_true]%orb_true_iff;
      reflexivity.
Qed.

(** For a repeated field of a wire type with a packed encoding the append
    function is the plural of the one of a single value; for any other
    string, [enum] among them, [appendFunc] ignores the repeated flag. *)
Theorem repeated_append_is_packed protoType :
  (protoType ∈ packedTypes ->
   appendFunc protoType true = appendFunc protoType false +:+ "s") /\
  (protoType ∉ packedTypes ->
   appendFunc protoType true = appendFunc protoType false).
Proof.
  split.
  - intros H. known_type H.
  - intros H. unfold appendFunc. cbv beta iota zeta.
    match goal with |- match ?s with Some _ => _ | None => _ end = _ =>
      assert (s = None) as ->; [|done] end.
    other_type H.
Qed.

(** ** Fields the parser skips *)

Lemma hasProtoTag_false typeName field :
  hasProtoTag field = false <-> checkField typeName field = OK None.
Proof.
  rewrite checkField_untagged. unfold hasProtoTag.
  destruct (Field.Tag field) as [tag|]; [|by intuition].
  rewrite negb_false_iff, bool_decide_eq_true. split; [by intros ->; right|].
  intros [?|?]; congruence.
Qed.

Lemma parseField_untagged typeName field st :
  hasProtoTag field = false -> parseField typeName st field = OK st.
Proof.
  intros H%(hasProtoTag_false typeName). unfold parseField. by rewrite H.
Qed.

Lemma parseFields_filter typeName structType st :
  forEach (parseField typeName) (List.filter hasProtoTag structType) st =
  forEach (parseField typeName) structType st.
Proof.
  revert st. induction structType as [|field fields IH]; intros st; [done|].
  rewrite forEach_cons. simpl.
  destruct (hasProtoTag field) eqn:Htag.
  - rewrite forEach_cons. destruct (parseField typeName st field); [apply IH|done].
  - by rewrite parseField_untagged.
Qed.

(** Fields without a tag, and fields whose tag has no [protobuf] key or an
    empty one, have no effect on the result, errors included. *)
Theorem untagged_fields_ignored typeName structType :
  parseStruct typeName structType =
  parseStruct typeName (List.filter hasProtoTag structType).
Proof. unfold parseStruct. by rewrite parseFields_filter. Qed.

(** ** The names of a field *)

Lemma namesOf_spec typeName field tag names :
  namesOf typeName field tag = OK names ->
  match Field.Names field with
  | [] => names = [getTypeName (Field.Type_ field)] /\
          getTypeName (Field.Type_ field) <> ""
  | _ => names = Field.Names field
  end.
Proof.
  unfold namesOf. destruct (Field.Names field) as [|name rest].
  - case_bool_decide; [done|]. by intros [= <-].
  - by intros [= <-].
Qed.

Lemma checkField_names typeName field v :
  checkField typeName field = OK (Some v) ->
  match Field.Names field with
  | [] => fieldNames v = [getTypeName (Field.Type_ field)] /\
          getTypeName (Field.Type_ field) <> ""
  | _ => fieldNames v = Field.Names field
  end.
Proof.
  intros (tag & _ & _ & Hp)%checkField_OK.
  destruct Hp as (_ & _ & _ & _ & _ & _ & _ & _ & _ & Hnames).
  by apply namesOf_spec in Hnames.
Qed.

(** The numbers a field assigns under each of its names. *)
Lemma checkField_numbers typeName field v :
  checkField typeName field = OK (Some v) ->
  (if isOneof v then OneofVariant.FieldNum <$> oneofVariants v
   else [fieldNum v]) <> [].
Proof.
  intros Hc. destruct (isOneof v) eqn:Hone; [|done].
  pose proof Hc as (tag & Htag & _ & Hp)%checkField_OK.
  destruct Hp as (_ & Ho & _).
  rewrite Hone in Ho. symmetry in Ho. apply bool_decide_eq_true in Ho.
  destruct (oneof_checkField_OK _ _ _ _ Htag Ho Hc)
    as (_ & _ & _ & _ & Hlen & Hvs & _).
  intros Hnil%fmap_nil_inv. rewrite Hnil in Hvs.
  apply Forall2_nil_inv_r, (f_equal length) in Hvs.
  rewrite length_drop in Hvs. simpl in Hvs. lia.
Qed.

Lemma descriptors_numbers typeName field v :
  checkField typeName field = OK (Some v) ->
  descriptors typeName field ≫= numbers =
  fieldNames v ≫= fun _ =>
    if isOneof v then OneofVariant.FieldNum <$> oneofVariants v
    else [fieldNum v].
Proof.
  intros Hc. unfold descriptors. rewrite Hc.
  induction (fieldNames v) as [|name names IH]; [done|].
  rewrite fmap_cons, !bind_cons, IH. by rewrite numbers_newFieldInfo.
Qed.

Lemma repeated_not_NoDup {A B} (l : list A) (k : list B) :
  k <> [] -> (2 <= length l)%nat -> ~ NoDup (l ≫= fun _ => k).
Proof.
  destruct k as [|x k]; [done|]. intros _.
  destruct l as [|a [|b l]]; intros Hlen; [simpl in Hlen; lia..|].
  rewrite !bind_cons. intros [Hx _]%NoDup_cons.
  apply Hx, elem_of_app. right. apply elem_of_app. left. left.
Qed.

(** A field that passes its checks under two names or more assigns its
    numbers twice. *)
Lemma two_names_clash typeName field v :
  checkField typeName field = OK (Some v) ->
  (2 <= length (Field.Names field))%nat ->
  ~ NoDup (descriptors typeName field ≫= numbers).
Proof.
  intros Hc Hlen. rewrite (descriptors_numbers _ _ _ Hc).
  apply repeated_not_NoDup; [by eapply checkField_numbers|].
  pose proof (checkField_names _ _ _ Hc) as Hnames.
  destruct (Field.Names field); [simpl in Hlen; lia|]. by rewrite Hnames.
Qed.

Lemma assigned_elem typeName structType field :
  field ∈ structType ->
  ~ NoDup (descriptors typeName field ≫= numbers) ->
  ~ NoDup (assigned typeName structType).
Proof.
  intros (pre & post & ->)%list_elem_of_split Hno. unfold assigned.
  rewrite !bind_app, !bind_cons, bind_app.
  intros (_ & _ & (Hnd & _)%NoDup_app)%NoDup_app. done.
Qed.

Lemma tagged_checked typeName field tag :
  Field.Tag field = Some tag -> tag <> "" ->
  checkField typeName field <> OK None.
Proof.
  intros Htag Hne [Hc|Hc]%checkField_untagged; congruence.
Qed.

Lemma parseFields_state typeName structType info :
  parseStruct typeName structType = OK info ->
  exists st, forEach (parseField typeName) structType (∅, []) = OK st /\
    stateOK st.
Proof.
  unfold parseStruct. intros H.
  pose proof (parseFields_spec typeName structType (∅, []) stateOK_init) as Hs.
  destruct (forEach _ structType _) as [st|]; [|done].
  exists st. split; [done|]. tauto.
Qed.

(** A declaration that gives one tag to several names ([A, B int64]) is
    never parsed: the second name meets the numbers the first has taken.
    When the declaration passes its own checks and the fields before it
    are accepted, the diagnostic is the one of the uniqueness check. *)
Theorem shared_tag_rejected :
  (forall typeName structType field tag,
     field ∈ structType -> Field.Tag field = Some tag -> tag <> "" ->
     (2 <= length (Field.Names field))%nat ->
     exists e, parseStruct typeName structType = Err e) /\
  (forall typeName pre field post info v,
     parseStruct typeName pre = OK info ->
     checkField typeName field = OK (Some v) ->
     (2 <= length (Field.Names field))%nat ->
     exists e, parseStruct typeName (pre ++ field :: post) = Err e /\
       mentions e "duplicate field number").
Proof.
  split.
  - intros typeName structType field tag Hin Htag Hne Hlen.
    pose proof (parseStruct_spec typeName structType) as Hs.
    destruct (parseStruct typeName structType) as [info|e]; [exfalso|eauto].
    destruct Hs as (_ & _ & _ & Hnd & Hall).
    rewrite Forall_forall in Hall. destruct (Hall _ Hin) as [[v|] Hc].
    + revert Hnd. apply (assigned_elem typeName structType field Hin).
      by apply (two_names_clash _ _ v).
    + by apply (tagged_checked typeName field tag).
  - intros typeName pre field post info v Hpre Hc Hlen.
    destruct (parseFields_state _ _ _ Hpre) as (st & Hst & Hok).
    unfold parseStruct. rewrite forEach_app, Hst, forEach_cons.
    unfold parseField at 1. rewrite Hc.
    pose proof (registerNames_spec typeName field v (fieldNames v) st Hok) as Hs.
    destruct (forEach _ (fieldNames v) st) as [st'|e].
    + exfalso. destruct Hs as [[Hnd _] Hfields].
      rewrite Hfields, bind_app in Hnd.
      apply NoDup_app in Hnd as (_ & _ & Hnd).
      apply (two_names_clash _ _ _ Hc Hlen). unfold descriptors. by rewrite Hc.
    + exists e. split; [done|]. apply duplicateError_mentions. tauto.
Qed.

Lemma descriptors_single typeName field v :
  checkField typeName field = OK (Some v) ->
  NoDup (descriptors typeName field ≫= numbers) ->
  fieldNames v = [registeredName field] /\
  descriptors typeName field = [newFieldInfo field v (registeredName field)].
Proof.
  intros Hc Hnd.
  assert (fieldNames v = [registeredName field]) as Hnames.
  { pose proof (checkField_names _ _ _ Hc) as Hnames.
    unfold registeredName.
    destruct (Field.Names field) as [|name [|name' rest]] eqn:HN;
      [tauto|done|].
    exfalso. apply (two_names_clash _ _ _ Hc); [|done].
    rewrite HN. simpl. lia. }
  split; [done|]. unfold descriptors. by rewrite Hc, Hnames.
Qed.

(** The descriptor of a tagged field of a parsed struct. *)
Lemma parsed_descriptor typeName structType info field :
  parseStruct typeName structType = OK info ->
  field ∈ structType -> hasProtoTag field = true ->
  exists v, checkField typeName field = OK (Some v) /\
    fieldNames v = [registeredName field] /\
    descriptors typeName field = [newFieldInfo field v (registeredName field)] /\
    newFieldInfo field v (registeredName field) ∈ TypeInfo.Fields info.
Proof.
  intros H Hin Htag.
  pose proof (parseStruct_spec typeName structType) as Hs. rewrite H in Hs.
  destruct Hs as (_ & Hperm & _ & Hnd & Hall).
  rewrite Forall_forall in Hall. destruct (Hall _ Hin) as [[v|] Hc].
  - exists v. split; [done|].
    assert (NoDup (descriptors typeName field ≫= numbers)) as Hnd'.
    { destruct (decide (NoDup (descriptors typeName field ≫= numbers)));
        [done|]. by apply (assigned_elem typeName structType field Hin) in Hnd. }
    destruct (descriptors_single _ _ _ Hc Hnd') as [Hnames Hd].
    split_and!; try done.
    rewrite Hperm. apply list_elem_of_bind. exists field.
    split; [|done]. rewrite Hd. left.
  - apply (hasProtoTag_false typeName) in Hc. congruence.
Qed.

Lemma parsed_names typeName structType :
  NoDup (assigned typeName structType) ->
  Forall (fun field => exists r, checkField typeName field = OK r) structType ->
  FieldInfo.Name <$> (structType ≫= descriptors typeName) =
  registeredName <$> List.filter hasProtoTag structType.
Proof.
  unfold assigned.
  induction structType as [|field fields IH]; [done|].
  rewrite !bind_cons, bind_app, fmap_app.
  intros (Hnd & _ & Hnds)%NoDup_app [[r Hc] Hall]%Forall_cons.
  rewrite (IH Hnds Hall). simpl. destruct r as [v|].
  - destruct (descriptors_single _ _ _ Hc Hnd) as [_ ->].
    destruct (hasProtoTag field) eqn:Htag.
    + simpl. by destruct (newFieldInfo_keeps field v (registeredName field))
        as (-> & _).
    + apply (hasProtoTag_false typeName) in Htag. congruence.
  - pose proof Hc as ->%(hasProtoTag_false typeName).
    unfold descriptors. by rewrite Hc.
Qed.

(** A parsed record carries the name it was asked for and exactly one
    descriptor for each tagged field, under the field's name or, for an
    embedded field, the name of its type. *)
Theorem one_descriptor_per_tagged_field typeName structType info :
  parseStruct typeName structType = OK info ->
  TypeInfo.Name info = typeName /\
  FieldInfo.Name <$> TypeInfo.Fields info ≡ₚ
    registeredName <$> List.filter hasProtoTag structType /\
  length (TypeInfo.Fields info) =
    length (List.filter hasProtoTag structType).
Proof.
  intros H. pose proof (parseStruct_spec typeName structType) as Hs.
  rewrite H in Hs. destruct Hs as (Hname & Hperm & _ & Hnd & Hall).
  assert (FieldInfo.Name <$> TypeInfo.Fields info ≡ₚ
          registeredName <$> List.filter hasProtoTag structType) as Hnames.
  { rewrite Hperm. by rewrite parsed_names. }
  split_and!; try done.
  apply Permutation_length in Hnames. by rewrite !length_fmap in Hnames.
Qed.

(** ** What [analyzeType] and the steps after it leave alone *)

Lemma analyzeType_frame fi expr :
  let fi' := analyzeType fi expr in
  FieldInfo.GoType fi' = FieldInfo.GoType fi /\
  FieldInfo.IsMessage fi' = FieldInfo.IsMessage fi /\
  FieldInfo.IsCustom fi' = FieldInfo.IsCustom fi /\
  FieldInfo.NeedsTypeConv fi' = FieldInfo.NeedsTypeConv fi /\
  FieldInfo.ConvType fi' = FieldInfo.ConvType fi /\
  FieldInfo.MapKeyType fi' = FieldInfo.MapKeyType fi /\
  FieldInfo.MapValueType fi' = FieldInfo.MapValueType fi /\
  FieldInfo.MapValueProto fi' = FieldInfo.MapValueProto fi /\
  FieldInfo.MapValueIsMsg fi' = FieldInfo.MapValueIsMsg fi /\
  FieldInfo.MapValueIsPtr fi' = FieldInfo.MapValueIsPtr fi /\
  FieldInfo.MapValueCustom fi' = FieldInfo.MapValueCustom fi.
Proof.
  destruct expr as [ | | | [len|] elt | | | | | | ]; simpl; auto 12.
  destruct (isByteIdent elt); simpl; auto 12.
  destruct elt; simpl; auto 12.
Qed.

(** Brings the goal about [newFieldInfo] down to the steps after
    [analyzeType], with [lem] as what is known of its result. *)
Ltac analyzed lem :=
  unfold newFieldInfo;
  match goal with |- context [analyzeType ?fi0 ?ty] =>
    let H := fresh "Han" in
    pose proof (lem fi0 ty) as H; simpl in H;
    generalize dependent (analyzeType fi0 ty) end;
  simpl.

Lemma newFieldInfo_frame field v name :
  let fi := newFieldInfo field v name in
  FieldInfo.GoType fi = exprToString (Field.Type_ field) /\
  FieldInfo.IsMessage fi = bool_decide (protoType v = "message") /\
  FieldInfo.IsCustom fi = isCustom (options v).
Proof.
  analyzed analyzeType_frame.
  intros fi (H1 & H2 & H3 & _). rewrite <- H1, <- H2, <- H3.
  destruct (FieldInfo.IsMap fi) eqn:Hmap, (FieldInfo.IsEnum fi) eqn:Henum;
    simpl; rewrite ?Hmap, ?Henum; repeat case_match; simpl;
    rewrite ?Hmap, ?Henum; auto.
Qed.

(** ** Embedded fields *)

Lemma append_empty_r s : s +:+ "" = s.
Proof.
  induction s as [|c s IH]; [done|].
  change (String c s +:+ "") with (String c (s +:+ "")). by rewrite IH.
Qed.

Lemma append_assoc a b c : (a +:+ b) +:+ c = a +:+ (b +:+ c).
Proof.
  induction a as [|x a IH]; [done|].
  change ((String x a +:+ b) +:+ c) with (String x ((a +:+ b) +:+ c)).
  by rewrite IH.
Qed.

(** The name of a type ends the text of the type. *)
Lemma getTypeName_suffix expr :
  exists prefix, exprToString expr = prefix +:+ getTypeName expr.
Proof.
  induction expr as [name|X IH sel|X IH| | | | | | | ];
    try (eexists; simpl; by rewrite append_empty_r).
  - by exists "".
  - exists (exprToString X +:+ "."). simpl. by rewrite append_assoc.
  - destruct IH as [prefix IH]. exists ("*" +:+ prefix). simpl.
    rewrite IH. by rewrite append_assoc.
Qed.

(** An embedded field with a tag is registered under the name of its type
    (for [*pkg.Type], [Type]), which ends the text of its Go type; when the
    type has no name, as a slice or a map has none, the struct is
    rejected. *)
Theorem embedded_field_named_after_type :
  (forall X Sel, getTypeName (StarExpr (SelectorExpr X Sel)) = Sel) /\
  (forall typeName structType info field,
     parseStruct typeName structType = OK info ->
     field ∈ structType -> hasProtoTag field = true ->
     Field.Names field = [] ->
     exists fi, fi ∈ TypeInfo.Fields info /\
       fi ∈ descriptors typeName field /\
       FieldInfo.Name fi = getTypeName (Field.Type_ field) /\
       FieldInfo.Name fi <> "" /\
       exists prefix, FieldInfo.GoType fi = prefix +:+ FieldInfo.Name fi) /\
  (forall typeName structType field,
     field ∈ structType -> hasProtoTag field = true ->
     Field.Names field = [] -> getTypeName (Field.Type_ field) = "" ->
     exists e, parseStruct typeName structType = Err e).
Proof.
  split_and!; [done| |].
  - intros typeName structType info field H Hin Htag Hnames.
    destruct (parsed_descriptor _ _ _ _ H Hin Htag) as (v & Hc & _ & Hd & Hfi).
    exists (newFieldInfo field v (registeredName field)).
    split; [done|]. split; [rewrite Hd; left|].
    destruct (newFieldInfo_keeps field v (registeredName field)) as (-> & _).
    destruct (newFieldInfo_frame field v (registeredName field)) as (-> & _).
    pose proof (checkField_names _ _ _ Hc) as Hn. rewrite Hnames in Hn.
    unfold registeredName. rewrite Hnames.
    split_and!; [done|tauto|apply getTypeName_suffix].
  - intros typeName structType field Hin Htag Hnames Hty.
    pose proof (parseStruct_spec typeName structType) as Hs.
    destruct (parseStruct typeName structType) as [info|e]; [exfalso|eauto].
    destruct Hs as (_ & _ & _ & _ & Hall).
    rewrite Forall_forall in Hall. destruct (Hall _ Hin) as [[v|] Hc].
    + pose proof (checkField_names _ _ _ Hc) as Hn. rewrite Hnames in Hn. tauto.
    + apply (hasProtoTag_false typeName) in Hc. congruence.
Qed.

(** ** Wire types *)

Lemma inferProtoType_names expr :
  inferProtoType expr = "interface" \/ inferProtoType expr ∈ protoTypeNames.
Proof.
  assert (forall p, bool_decide (p ∈ protoTypeNames) = true ->
            p = "interface" \/ p ∈ protoTypeNames) as Hin.
  { intros p Hp. right. by apply bool_decide_eq_true in Hp. }
  induction expr as [name| | |[len|] elt IH| | | | | | ];
    cbn [inferProtoType].
  - repeat (case_bool_decide; [apply Hin; reflexivity|]).
    case_bool_decide; [by left|apply Hin; reflexivity].
  - apply Hin; reflexivity.
  - assumption.
  - assumption.
  - destruct (isByteIdent elt); [apply Hin; reflexivity|assumption].
  - apply Hin; reflexivity.
  - by left.
  - apply Hin; reflexivity.
  - apply Hin; reflexivity.
  - apply Hin; reflexivity.
  - apply Hin; reflexivity.
Qed.

Lemma checked_protoType typeName field v :
  checkField typeName field = OK (Some v) ->
  protoType v ∈ protoTypeNames /\
  (isOneof v = true -> protoType v = "oneof").
Proof.
  intros (tag & _ & _ & Hp)%checkField_OK.
  destruct Hp as (_ & _ & _ & Hpt & Hif & _).
  unfold chooseProtoType in Hpt. destruct (isOneof v).
  - injection Hpt as <-. split; [|done].
    apply (bool_decide_unpack _). by vm_compute.
  - split; [|done]. destruct (2 <=? _)%nat.
    + destruct (isValidProtoType _) eqn:Hvalid; [|done].
      simpl in Hpt. injection Hpt as <-. by apply isValidProtoType_spec.
    + injection Hpt as Hpt. rewrite <- Hpt in *.
      by destruct (inferProtoType_names (Field.Type_ field)).
Qed.

(** Every descriptor of a parsed record carries one of the nineteen wire
    types of [validProtoTypes], whether the tag names it, the Go type
    implies it or the field is a oneof. *)
Theorem wire_types_valid typeName structType info fi :
  parseStruct typeName structType = OK info -> fi ∈ TypeInfo.Fields info ->
  isValidProtoType (FieldInfo.ProtoType fi) = true /\
  FieldInfo.ProtoType fi ∈ protoTypeNames.
Proof.
  intros H Hfi.
  destruct (parseStruct_origin _ _ _ _ H Hfi) as (field & v & name & _ & Hc & _ & ->).
  destruct (newFieldInfo_keeps field v name) as (_ & _ & -> & _).
  destruct (checked_protoType _ _ _ Hc) as [Hin _].
  split; [by apply isValidProtoType_spec|done].
Qed.

(** ** What the Go type contributes to a descriptor *)

Lemma analyzeType_flags fi expr :
  let fi' := analyzeType fi expr in
  FieldInfo.IsPointer fi' = FieldInfo.IsPointer fi || isStarExpr expr /\
  FieldInfo.IsOptional fi' = FieldInfo.IsOptional fi || isStarExpr expr /\
  FieldInfo.IsSliceOfPtr fi' = FieldInfo.IsSliceOfPtr fi || isSliceOfStar expr.
Proof.
  destruct expr as [ | | | [len|] elt | | | | | | ]; simpl;
    rewrite ?orb_false_r, ?orb_true_r; try done.
  destruct (isByteIdent elt) eqn:Hb; simpl.
  - destruct elt; try done. by rewrite !orb_false_r.
  - destruct elt; simpl; rewrite ?orb_false_r, ?orb_true_r; done.
Qed.

Lemma newFieldInfo_flags field v name :
  let fi := newFieldInfo field v name in
  FieldInfo.IsPointer fi = isStarExpr (Field.Type_ field) /\
  FieldInfo.IsOptional fi =
    isOptional (options v) || isStarExpr (Field.Type_ field) /\
  FieldInfo.IsSliceOfPtr fi = isSliceOfStar (Field.Type_ field).
Proof.
  analyzed analyzeType_flags.
  intros fi (H1 & H2 & H3). rewrite <- H2, <- H1, <- H3.
  destruct (FieldInfo.IsMap fi) eqn:Hmap, (FieldInfo.IsEnum fi) eqn:Henum;
    simpl; rewrite ?Hmap, ?Henum; repeat case_match; simpl;
    rewrite ?Hmap, ?Henum; auto.
Qed.

Lemma analyzeType_strings fi expr :
  let fi' := analyzeType fi expr in
  match expr with
  | Ident _ | SelectorExpr _ _ =>
      FieldInfo.BaseType fi' = exprToString expr /\
      FieldInfo.ElemType fi' = exprToString expr /\
      FieldInfo.RawElemType fi' = exprToString expr
  | StarExpr X =>
      FieldInfo.BaseType fi' = exprToString X /\
      FieldInfo.ElemType fi' = exprToString X /\
      FieldInfo.RawElemType fi' = exprToString X
  | ArrayType None Elt =>
      if isByteIdent Elt then
        FieldInfo.BaseType fi' = "[]byte" /\
        FieldInfo.ElemType fi' = "byte" /\
        FieldInfo.RawElemType fi' = "byte"
      else
        FieldInfo.BaseType fi' = FieldInfo.ElemType fi' /\
        FieldInfo.RawElemType fi' = exprToString Elt /\
        FieldInfo.ElemType fi' =
          match Elt with StarExpr X => exprToString X | _ => exprToString Elt end
  | _ =>
      FieldInfo.BaseType fi' = FieldInfo.BaseType fi /\
      FieldInfo.ElemType fi' = FieldInfo.ElemType fi /\
      FieldInfo.RawElemType fi' = FieldInfo.RawElemType fi
  end.
Proof.
  destruct expr as [ | | | [len|] elt | | | | | | ]; simpl; try done.
  destruct (isByteIdent elt); simpl; [done|].
  destruct elt; simpl; done.
Qed.

Lemma newFieldInfo_strings field v name :
  let fi := newFieldInfo field v name in
  match Field.Type_ field with
  | Ident _ | SelectorExpr _ _ =>
      FieldInfo.BaseType fi = FieldInfo.GoType fi /\
      FieldInfo.ElemType fi = FieldInfo.GoType fi /\
      FieldInfo.RawElemType fi = FieldInfo.GoType fi
  | StarExpr X =>
      FieldInfo.BaseType fi = exprToString X /\
      FieldInfo.ElemType fi = exprToString X /\
      FieldInfo.RawElemType fi = exprToString X
  | ArrayType None Elt =>
      if isByteIdent Elt then
        FieldInfo.BaseType fi = "[]byte" /\
        FieldInfo.ElemType fi = "byte" /\
        FieldInfo.RawElemType fi = "byte"
      else
        FieldInfo.BaseType fi = FieldInfo.ElemType fi /\
        FieldInfo.RawElemType fi = exprToString Elt /\
        FieldInfo.ElemType fi =
          match Elt with StarExpr X => exprToString X | _ => exprToString Elt end
  | _ =>
      FieldInfo.BaseType fi = "" /\
      FieldInfo.ElemType fi = "" /\
      FieldInfo.RawElemType fi = ""
  end.
Proof.
  destruct (newFieldInfo_frame field v name) as (HG & _). cbv zeta in *.
  rewrite HG. clear HG.
  analyzed analyzeType_strings.
  intros fi Hs.
  assert (forall fi' : FieldInfo.t,
            FieldInfo.BaseType fi' = FieldInfo.BaseType fi ->
            FieldInfo.ElemType fi' = FieldInfo.ElemType fi ->
            FieldInfo.RawElemType fi' = FieldInfo.RawElemType fi ->
            match Field.Type_ field with
            | Ident _ | SelectorExpr _ _ =>
                FieldInfo.BaseType fi' = exprToString (Field.Type_ field) /\
                FieldInfo.ElemType fi' = exprToString (Field.Type_ field) /\
                FieldInfo.RawElemType fi' = exprToString (Field.Type_ field)
            | StarExpr X =>
                FieldInfo.BaseType fi' = exprToString X /\
                FieldInfo.ElemType fi' = exprToString X /\
                FieldInfo.RawElemType fi' = exprToString X
            | ArrayType None Elt =>
                if isByteIdent Elt then
                  FieldInfo.BaseType fi' = "[]byte" /\
                  FieldInfo.ElemType fi' = "byte" /\
                  FieldInfo.RawElemType fi' = "byte"
                else
                  FieldInfo.BaseType fi' = FieldInfo.ElemType fi' /\
                  FieldInfo.RawElemType fi' = exprToString Elt /\
                  FieldInfo.ElemType fi' =
                    match Elt with
                    | StarExpr X => exprToString X
                    | _ => exprToString Elt
                    end
            | _ =>
                FieldInfo.BaseType fi' = "" /\
                FieldInfo.ElemType fi' = "" /\
                FieldInfo.RawElemType fi' = ""
            end) as Hkeep.
  { intros fi' -> -> ->. exact Hs. }
  apply Hkeep;
    destruct (FieldInfo.IsMap fi) eqn:Hmap, (FieldInfo.IsEnum fi) eqn:Henum;
    simpl; rewrite ?Hmap, ?Henum; repeat case_match; simpl;
    rewrite ?Hmap, ?Henum; auto.
Qed.

Ltac analyzed_frame :=
  unfold newFieldInfo;
  match goal with |- context [analyzeType ?fi0 ?ty] =>
    let Hf := fresh "Hf" in
    let Hk := fresh "Hk" in
    pose proof (analyzeType_frame fi0 ty) as Hf;
    pose proof (analyzeType_keeps fi0 ty) as Hk;
    unfold sameTagData in Hk; simpl in Hf, Hk;
    generalize dependent (analyzeType fi0 ty) end;
  simpl.

Lemma newFieldInfo_enum field v name :
  let fi := newFieldInfo field v name in
  FieldInfo.NeedsTypeConv fi = isEnum (options v) /\
  FieldInfo.ConvType fi = if isEnum (options v) then "int32" else "".
Proof.
  analyzed_frame.
  intros fi (_ & _ & _ & H4 & H5 & _) (_ & _ & _ & _ & _ & Hmap & Henum & _).
  rewrite <- Henum.
  destruct (FieldInfo.IsMap fi), (FieldInfo.IsEnum fi) eqn:He;
    simpl; rewrite ?He; repeat case_match; simpl; rewrite ?He; auto;
    simpl in *; congruence.
Qed.

Lemma newFieldInfo_map field v name :
  let fi := newFieldInfo field v name in
  if isMap v then
    FieldInfo.MapKeyProto fi = mapKeyProto v /\
    FieldInfo.MapValueProto fi = mapValueProto v /\
    FieldInfo.MapValueIsMsg fi = bool_decide (mapValueProto v = "message") /\
    FieldInfo.MapValueCustom fi = mapValueCustom (options v) /\
    match Field.Type_ field with
    | MapType Key Value =>
        FieldInfo.MapKeyType fi = exprToString Key /\
        FieldInfo.MapValueType fi = exprToString Value /\
        FieldInfo.MapValueIsPtr fi = isStarExpr Value
    | _ =>
        FieldInfo.MapKeyType fi = "" /\
        FieldInfo.MapValueType fi = "" /\
        FieldInfo.MapValueIsPtr fi = false
    end
  else
    FieldInfo.MapKeyProto fi = "" /\ FieldInfo.MapValueProto fi = "" /\
    FieldInfo.MapValueIsMsg fi = false /\ FieldInfo.MapValueCustom fi = false /\
    FieldInfo.MapKeyType fi = "" /\ FieldInfo.MapValueType fi = "" /\
    FieldInfo.MapValueIsPtr fi = false.
Proof.
  analyzed_frame.
  intros fi (_ & _ & _ & _ & _ & H6 & H7 & H8 & H9 & H10 & H11)
    (_ & _ & _ & _ & _ & Hmap & Henum & Hkey).
  rewrite <- Hmap.
  destruct (FieldInfo.IsMap fi) eqn:Hm, (FieldInfo.IsEnum fi) eqn:He;
    simpl; rewrite ?Hm, ?He; simpl;
    destruct (Field.Type_ field) as [ | | | | key val | | | | | ]; simpl;
    rewrite ?He; simpl; try (destruct val; simpl); rewrite ?He; simpl;
    auto 10.
Qed.

(** ** Invariants of the descriptors of a parsed record *)

Lemma checked_numbers typeName field v :
  checkField typeName field = OK (Some v) ->
  if isOneof v then fieldNum v = -1
  else oneofVariants v = [] /\ validFieldNum (fieldNum v).
Proof.
  intros (tag & _ & _ & Hp)%checkField_OK.
  destruct Hp as (_ & _ & Hnums & _). unfold parseNumbers in Hnums.
  destruct (isOneof v).
  - destruct (validateOneofFieldType _); [done|].
    destruct (_ <? _)%nat; [done|].
    destruct (forEach _ _ _); by simplify_eq.
  - pose proof (parseFieldNum_spec tag (part (Split tag ",") 0)) as Hn.
    destruct (parseFieldNum _ _) as [n|]; [|done].
    injection Hnums as <- <-. tauto.
Qed.

Lemma checked_isMap typeName field v :
  checkField typeName field = OK (Some v) ->
  isMap v = bool_decide (protoType v = "map").
Proof.
  intros (tag & _ & _ & Hp)%checkField_OK. unfold passes in Hp. tauto.
Qed.

(** In a parsed record the message and map flags say what the wire type
    is, a oneof descriptor has the wire type [oneof], and the sentinel
    [-1] marks the oneof descriptors exactly: every other descriptor has
    a legal field number and no variants.  The wire type [oneof] does not
    imply the oneof flag: the tag [1,oneof] gives an ordinary field with
    that wire type. *)
Theorem descriptor_flags_consistent :
  (forall typeName structType info fi,
     parseStruct typeName structType = OK info ->
     fi ∈ TypeInfo.Fields info ->
     FieldInfo.IsMessage fi = bool_decide (FieldInfo.ProtoType fi = "message") /\
     FieldInfo.IsMap fi = bool_decide (FieldInfo.ProtoType fi = "map") /\
     (FieldInfo.IsOneof fi = true -> FieldInfo.ProtoType fi = "oneof") /\
     (FieldInfo.IsOneof fi = false ->
      FieldInfo.OneofVariants fi = [] /\
      validFieldNum (FieldInfo.FieldNum fi)) /\
     (FieldInfo.FieldNum fi = -1 <-> FieldInfo.IsOneof fi = true)) /\
  (exists info fi,
     parseStruct "T" [mkField ["X"] (Ident "Message") "1,oneof"] = OK info /\
     fi ∈ TypeInfo.Fields info /\
     FieldInfo.ProtoType fi = "oneof" /\ FieldInfo.IsOneof fi = false).
Proof.
  split.
  - intros typeName structType info fi H Hfi.
    destruct (parseStruct_origin _ _ _ _ H Hfi)
      as (field & v & name & _ & Hc & _ & ->).
    destruct (newFieldInfo_keeps field v name)
      as (_ & -> & -> & -> & -> & -> & _).
    destruct (newFieldInfo_frame field v name) as (_ & -> & _).
    pose proof (checked_numbers _ _ _ Hc) as Hn.
    destruct (checked_protoType _ _ _ Hc) as [_ Hone].
    split_and!; try done.
    + by apply (checked_isMap typeName field).
    + intros Ho. by rewrite Ho in Hn.
    + destruct (isOneof v); [done|]. destruct Hn as [_ [Hn _]].
      split; [lia|done].
  - eexists. eexists. split; [by vm_compute|].
    split; [left|]. by vm_compute.
Qed.

(** In a parsed record the enum flag, the conversion flag and the
    conversion type go together: an enum descriptor converts through
    [int32], any other descriptor has no conversion; the wire type [enum]
    sets the flag, and a oneof descriptor never has it. *)
Theorem enum_conversion typeName structType info fi :
  parseStruct typeName structType = OK info ->
  fi ∈ TypeInfo.Fields info ->
  FieldInfo.NeedsTypeConv fi = FieldInfo.IsEnum fi /\
  FieldInfo.ConvType fi = (if FieldInfo.IsEnum fi then "int32" else "") /\
  (FieldInfo.ProtoType fi = "enum" -> FieldInfo.IsEnum fi = true) /\
  (FieldInfo.IsOneof fi = true -> FieldInfo.IsEnum fi = false).
Proof.
  intros H Hfi.
  destruct (parseStruct_origin _ _ _ _ H Hfi)
    as (field & v & name & _ & Hc & _ & ->).
  destruct (newFieldInfo_keeps field v name)
    as (_ & _ & -> & -> & _ & _ & -> & _).
  destruct (newFieldInfo_enum field v name) as (-> & ->).
  split_and!; try done.
  - pose proof Hc as (tag & _ & _ & Hp)%checkField_OK.
    destruct Hp as (_ & _ & _ & _ & _ & _ & _ & _ & Hopt & _).
    destruct (checked_protoType _ _ _ Hc) as [_ Hone].
    intros Hpt. rewrite Hopt. destruct (isOneof v).
    { rewrite Hone in Hpt; done. }
    destruct (parseOptions_spec (Split tag ",") (isMap v) (protoType v))
      as (_ & _ & -> & _).
    by rewrite Hpt.
  - pose proof Hc as (tag & _ & _ & Hp)%checkField_OK.
    destruct Hp as (_ & _ & _ & _ & _ & _ & _ & _ & Hopt & _).
    destruct (checked_protoType _ _ _ Hc) as [_ Hone].
    intros Ho. rewrite Hopt, Ho, (Hone Ho). reflexivity.
Qed.


(** A descriptor is a pointer descriptor exactly when the field's type is
    a pointer type.  In a parsed record such a descriptor is optional
    whatever the tag says, is neither a slice of pointers nor a oneof, and
    its Go type is [*] followed by its base type, which is also its
    element type, raw or not. *)
Theorem pointer_fields_optional :
  (forall typeName field fi,
     fi ∈ descriptors typeName field ->
     FieldInfo.IsPointer fi = isStarExpr (Field.Type_ field)) /\
  (forall typeName structType info fi,
     parseStruct typeName structType = OK info ->
     fi ∈ TypeInfo.Fields info ->
     FieldInfo.IsPointer fi = true ->
     FieldInfo.IsOptional fi = true /\
     FieldInfo.IsSliceOfPtr fi = false /\
     FieldInfo.IsOneof fi = false /\
     FieldInfo.GoType fi = "*" +:+ FieldInfo.BaseType fi /\
     FieldInfo.ElemType fi = FieldInfo.BaseType fi /\
     FieldInfo.RawElemType fi = FieldInfo.BaseType fi).
Proof.
  split.
  - intros typeName field fi (v & name & _ & _ & ->)%descriptors_inv.
    by destruct (newFieldInfo_flags field v name) as (-> & _).
  - intros typeName structType info fi H Hfi.
    destruct (parseStruct_origin _ _ _ _ H Hfi)
      as (field & v & name & _ & Hc & _ & ->).
    destruct (newFieldInfo_flags field v name) as (-> & -> & ->).
    destruct (newFieldInfo_keeps field v name) as (_ & _ & _ & -> & _).
    destruct (newFieldInfo_frame field v name) as (-> & _).
    pose proof (newFieldInfo_strings field v name) as Hs.
    pose proof (checked_oneof_type _ _ _ Hc) as Hty.
    destruct (Field.Type_ field); try done. intros _.
    destruct Hs as (-> & -> & ->).
    split_and!; try done; [apply orb_true_r|].
    destruct (isOneof v); [|done]. by specialize (Hty eq_refl).
Qed.

(** In a parsed record a slice-of-pointers descriptor is repeated, its
    raw element type is [*] followed by its element type, and its Go type
    is [[]] followed by the raw element type; any other descriptor has the
    same raw and plain element type; and the base type is the element
    type except for [[]byte], whose base type is [[]byte] and whose element
    type is [byte].  A slice other than [[]byte] is repeated, with the Go
    type [[]] followed by the raw element type. *)
Theorem element_type_strings :
  (forall typeName structType info fi,
     parseStruct typeName structType = OK info ->
     fi ∈ TypeInfo.Fields info ->
     (FieldInfo.IsSliceOfPtr fi = true ->
      FieldInfo.IsRepeated fi = true /\
      FieldInfo.RawElemType fi = "*" +:+ FieldInfo.ElemType fi /\
      FieldInfo.GoType fi = "[]" +:+ FieldInfo.RawElemType fi) /\
     (FieldInfo.IsSliceOfPtr fi = false ->
      FieldInfo.RawElemType fi = FieldInfo.ElemType fi) /\
     (FieldInfo.BaseType fi = FieldInfo.ElemType fi \/
      FieldInfo.GoType fi = "[]byte" /\ FieldInfo.BaseType fi = "[]byte" /\
      FieldInfo.ElemType fi = "byte")) /\
  (forall typeName field fi Elt,
     fi ∈ descriptors typeName field ->
     Field.Type_ field = ArrayType None Elt -> Elt <> Ident "byte" ->
     FieldInfo.IsRepeated fi = true /\
     FieldInfo.IsSliceOfPtr fi = isStarExpr Elt /\
     FieldInfo.GoType fi = "[]" +:+ FieldInfo.RawElemType fi).
Proof.
  assert (forall Elt, Elt <> Ident "byte" -> isByteIdent Elt = false) as Hbyte.
  { intros Elt HElt. destruct Elt; try done. simpl.
    apply bool_decide_eq_false_2. congruence. }
  split.
  - intros typeName structType info fi H Hfi.
    destruct (parseStruct_origin _ _ _ _ H Hfi)
      as (field & v & name & _ & Hc & _ & ->).
    destruct (newFieldInfo_flags field v name) as (_ & _ & ->).
    rewrite newFieldInfo_IsRepeated.
    pose proof (newFieldInfo_strings field v name) as Hs. cbv zeta in Hs.
    destruct (newFieldInfo_frame field v name) as (HG & _). cbv zeta in HG.
    rewrite HG in *. clear HG.
    destruct (Field.Type_ field) as [ | | |[len|] elt| | | | | | ]; simpl in *;
      try (destruct Hs as (-> & -> & ->); by split_and!; auto).
    destruct (isByteIdent elt) eqn:Hb.
    + destruct Hs as (-> & -> & ->). destruct elt; try done.
      simpl in Hb. apply bool_decide_eq_true in Hb. subst.
      split_and!; [done|done|by right].
    + destruct Hs as (-> & -> & ->). rewrite orb_true_r.
      destruct elt; simpl; split_and!; auto; done.
  - intros typeName field fi Elt (v & name & _ & _ & ->)%descriptors_inv
      Hty HElt.
    destruct (newFieldInfo_flags field v name) as (_ & _ & ->).
    rewrite newFieldInfo_IsRepeated.
    pose proof (newFieldInfo_strings field v name) as Hs. cbv zeta in Hs.
    destruct (newFieldInfo_frame field v name) as (-> & _).
    rewrite Hty in *. simpl. rewrite (Hbyte _ HElt) in *.
    destruct Hs as (_ & -> & _). rewrite orb_true_r. by destruct Elt.
Qed.

(** ** Map descriptors *)

Lemma checked_map typeName field v tag :
  checkField typeName field = OK (Some v) -> Field.Tag field = Some tag ->
  isMap v = true ->
  protoType v = "map" /\ isOneof v = false /\
  (mapKeyProto v, mapValueProto v) = mapProtoTypes field (Split tag ",") true /\
  options v = parseOptions (Split tag ",") false true "map".
Proof.
  intros Hc Htag Hm.
  pose proof Hc as (tag' & Htag' & _ & Hp)%checkField_OK.
  assert (tag' = tag) as -> by congruence.
  destruct Hp as (_ & _ & _ & _ & _ & Hmap & Hmt & _ & Hopt & _).
  destruct (checked_protoType _ _ _ Hc) as [_ Hone].
  rewrite Hm in *. symmetry in Hmap. apply bool_decide_eq_true in Hmap.
  assert (isOneof v = false) as Ho.
  { destruct (isOneof v); [|done]. rewrite Hone in Hmap; done. }
  rewrite Ho, Hmap in Hopt. by rewrite Hmt.
Qed.

(** In a parsed record only map descriptors carry map data.  For a map
    descriptor the value-is-message flag says whether the value wire type
    is [message], and the custom flag of the value is the custom flag of
    the field.  The key and value wire types are the third and fourth
    parts of the tag when it has four parts, otherwise they are inferred
    from the Go map type, which the field must then have; the Go types of
    key and value come from the Go map type.  The value wire type is not
    checked: the tag [1,map,string,bogus] is accepted. *)
Theorem map_descriptors :
  (forall typeName structType info fi,
     parseStruct typeName structType = OK info ->
     fi ∈ TypeInfo.Fields info ->
     (FieldInfo.IsMap fi = true ->
      FieldInfo.MapValueIsMsg fi =
        bool_decide (FieldInfo.MapValueProto fi = "message") /\
      FieldInfo.MapValueCustom fi = FieldInfo.IsCustom fi /\
      FieldInfo.IsOneof fi = false) /\
     (FieldInfo.IsMap fi = false ->
      FieldInfo.MapKeyProto fi = "" /\ FieldInfo.MapValueProto fi = "" /\
      FieldInfo.MapKeyType fi = "" /\ FieldInfo.MapValueType fi = "" /\
      FieldInfo.MapValueIsMsg fi = false /\
      FieldInfo.MapValueIsPtr fi = false /\
      FieldInfo.MapValueCustom fi = false)) /\
  (forall typeName field tag fi,
     fi ∈ descriptors typeName field -> Field.Tag field = Some tag ->
     FieldInfo.IsMap fi = true ->
     let parts := Split tag "," in
     ((4 <= length parts)%nat ->
      FieldInfo.MapKeyProto fi = TrimSpace (part parts 2) /\
      FieldInfo.MapValueProto fi = TrimSpace (part parts 3)) /\
     ((length parts < 4)%nat ->
      exists Key Value, Field.Type_ field = MapType Key Value /\
        FieldInfo.MapKeyProto fi = inferProtoType Key /\
        FieldInfo.MapValueProto fi = inferProtoType Value) /\
     (forall Key Value, Field.Type_ field = MapType Key Value ->
        FieldInfo.MapKeyType fi = exprToString Key /\
        FieldInfo.MapValueType fi = exprToString Value /\
        FieldInfo.MapValueIsPtr fi = isStarExpr Value /\
        FieldInfo.GoType fi =
          "map[" +:+ FieldInfo.MapKeyType fi +:+ "]" +:+
          FieldInfo.MapValueType fi)) /\
  (exists info fi,
     parseStruct "T"
       [ mkField ["M"] (MapType (Ident "string") (Ident "int"))
           "1,map,string,bogus" ] = OK info /\
     fi ∈ TypeInfo.Fields info /\ FieldInfo.MapValueProto fi = "bogus").
Proof.
  split_and!.
  - intros typeName structType info fi H Hfi.
    destruct (parseStruct_origin _ _ _ _ H Hfi)
      as (field & v & name & _ & Hc & _ & ->).
    destruct (newFieldInfo_keeps field v name)
      as (_ & _ & _ & -> & _ & -> & _).
    destruct (newFieldInfo_frame field v name) as (_ & _ & ->).
    pose proof (newFieldInfo_map field v name) as Hm. cbv zeta in Hm.
    split; intros Hmap; rewrite Hmap in Hm.
    + destruct Hm as (_ & -> & -> & -> & _).
      pose proof Hc as (tag & Htag & _ & _)%checkField_OK.
      destruct (checked_map _ _ _ _ Hc Htag Hmap) as (_ & Ho & _ & ->).
      split_and!; try done.
      by destruct (parseOptions_spec (Split tag ",") true "map")
        as (_ & _ & _ & -> & ->).
    + tauto.
  - intros typeName field tag fi (v & name & Hc & _ & ->)%descriptors_inv
      Htag.
    destruct (newFieldInfo_keeps field v name)
      as (_ & _ & _ & _ & _ & -> & _).
    intros Hmap parts.
    pose proof (newFieldInfo_map field v name) as Hm. cbv zeta in Hm.
    rewrite Hmap in Hm. destruct Hm as (-> & -> & _ & _ & Hty).
    destruct (newFieldInfo_frame field v name) as (-> & _).
    destruct (checked_map _ _ _ _ Hc Htag Hmap) as (_ & _ & Hmt & _).
    pose proof Hc as (tag' & Htag' & _ & Hp)%checkField_OK.
    assert (tag' = tag) as -> by congruence.
    destruct Hp as (_ & _ & _ & _ & _ & _ & _ & Hkey & _).
    specialize (Hkey Hmap). unfold mapProtoTypes in Hmt. fold parts in Hmt.
    split_and!.
    + intros Hlen. apply Nat.leb_le in Hlen. rewrite Hlen in Hmt.
      by injection Hmt as -> ->.
    + intros Hlen. apply Nat.leb_gt in Hlen. rewrite Hlen in Hmt.
      destruct (Field.Type_ field); try (injection Hmt as Hk _;
        rewrite Hk in Hkey; by vm_compute in Hkey).
      injection Hmt as -> ->. eauto.
    + intros Key Value HT. rewrite HT in *. simpl.
      by destruct Hty as (-> & -> & ->).
  - eexists. eexists. split; [by vm_compute|].
    split; [left|]. by vm_compute.
Qed.

(** ** Options and oneof fields *)

(** For an ordinary field the option words are the trimmed parts of the
    tag from the third on (from the fifth on for a map with key and value
    types in its tag).  Each flag is set exactly when its word is among
    them, in any position and any number of times, or when the Go type
    (a slice, a pointer) or the wire type ([enum]) sets it; other words
    are ignored.  [custom] on a map also marks the value as custom. *)
Theorem option_words_set_flags typeName field tag fi :
  fi ∈ descriptors typeName field -> Field.Tag field = Some tag ->
  FieldInfo.IsOneof fi = false ->
  let words := optionWords (FieldInfo.IsMap fi) (Split tag ",") in
  FieldInfo.IsRepeated fi =
    bool_decide ("repeated" ∈ words) || repeatedByType (Field.Type_ field) /\
  FieldInfo.IsOptional fi =
    bool_decide ("optional" ∈ words) || isStarExpr (Field.Type_ field) /\
  FieldInfo.IsEnum fi =
    bool_decide (FieldInfo.ProtoType fi = "enum") ||
    bool_decide ("enum" ∈ words) /\
  FieldInfo.IsCustom fi = bool_decide ("custom" ∈ words) /\
  FieldInfo.MapValueCustom fi =
    FieldInfo.IsMap fi && bool_decide ("custom" ∈ words).
Proof.
  intros (v & name & Hc & _ & ->)%descriptors_inv Htag.
  destruct (newFieldInfo_keeps field v name)
    as (_ & _ & -> & -> & _ & -> & -> & _).
  intros Hone words. subst words.
  rewrite newFieldInfo_IsRepeated.
  destruct (newFieldInfo_flags field v name) as (_ & -> & _).
  destruct (newFieldInfo_frame field v name) as (_ & _ & ->).
  pose proof (newFieldInfo_map field v name) as Hm. cbv zeta in Hm.
  pose proof Hc as (tag' & Htag' & _ & Hp)%checkField_OK.
  assert (tag' = tag) as -> by congruence.
  destruct Hp as (_ & _ & _ & _ & _ & _ & _ & _ & Hopt & _).
  rewrite Hone in Hopt.
  destruct (parseOptions_spec (Split tag ",") (isMap v) (protoType v))
    as (H1 & H2 & H3 & H4 & H5).
  rewrite <- Hopt in H1, H2, H3, H4, H5.
  rewrite H1, H2, H3, H4. split_and!; try done.
  destruct (isMap v); [|tauto].
  destruct Hm as (_ & _ & _ & -> & _). by rewrite H5.
Qed.

Lemma validateOneofFieldType_None expr :
  validateOneofFieldType expr = None <->
  (exists name, expr = Ident name /\ name ∉ primitiveNames) \/
  expr = InterfaceType \/
  exists X Sel, expr = SelectorExpr X Sel.
Proof.
  split.
  - destruct expr; simpl; try done; eauto.
    case_bool_decide; [done|]. eauto.
  - intros [(name & -> & Hname)|[->|(X & Sel & ->)]]; simpl; try done.
    by rewrite bool_decide_eq_false_2.
Qed.

Lemma oneof_type_rejected typeName field tag err :
  Field.Tag field = Some tag ->
  TrimSpace (part (Split tag ",") 0) = "oneof" ->
  validateOneofFieldType (Field.Type_ field) = Some err ->
  checkField typeName field =
  Err (Errorf "invalid oneof field %q in type %s: %w"
         [AStr (firstName field); AStr typeName; wrap err]).
Proof.
  intros Htag Hone Hty. unfold checkField. rewrite Htag.
  rewrite bool_decide_eq_false_2 by (by apply untagged_not_oneof).
  cbv zeta. rewrite (bool_decide_eq_true_2 _ Hone).
  unfold parseNumbers. by rewrite Hty.
Qed.

(** A oneof tag is accepted on a named type that is not a primitive, on an
    inline interface and on a qualified type, and on nothing else.  On any
    other type the struct is rejected, whatever the variants are, since
    the type is checked first; the diagnostic mentions [invalid oneof
    field] when the fields before it are accepted.  In a parsed record a
    oneof descriptor carries no other flag. *)
Theorem oneof_needs_interface_like_type :
  (forall expr,
     validateOneofFieldType expr = None <->
     (exists name, expr = Ident name /\ name ∉ primitiveNames) \/
     expr = InterfaceType \/
     exists X Sel, expr = SelectorExpr X Sel) /\
  (forall typeName structType field tag,
     field ∈ structType -> Field.Tag field = Some tag ->
     TrimSpace (part (Split tag ",") 0) = "oneof" ->
     validateOneofFieldType (Field.Type_ field) <> None ->
     exists e, parseStruct typeName structType = Err e) /\
  (forall typeName pre field post info tag,
     parseStruct typeName pre = OK info -> Field.Tag field = Some tag ->
     TrimSpace (part (Split tag ",") 0) = "oneof" ->
     validateOneofFieldType (Field.Type_ field) <> None ->
     exists e, parseStruct typeName (pre ++ field :: post) = Err e /\
       mentions e "invalid oneof field") /\
  (forall typeName structType info fi,
     parseStruct typeName structType = OK info ->
     fi ∈ TypeInfo.Fields info -> FieldInfo.IsOneof fi = true ->
     FieldInfo.IsRepeated fi = false /\ FieldInfo.IsOptional fi = false /\
     FieldInfo.IsPointer fi = false /\ FieldInfo.IsSliceOfPtr fi = false /\
     FieldInfo.IsMessage fi = false /\ FieldInfo.IsEnum fi = false /\
     FieldInfo.IsMap fi = false /\ FieldInfo.IsCustom fi = false).
Proof.
  split_and!.
  - apply validateOneofFieldType_None.
  - intros typeName structType field tag Hin Htag Hone Hty.
    destruct (validateOneofFieldType (Field.Type_ field)) as [err|] eqn:Hv;
      [|done].
    eapply parseStruct_rejects; [done|]. by apply (oneof_type_rejected _ _ tag).
  - intros typeName pre field post info tag Hpre Htag Hone Hty.
    destruct (validateOneofFieldType (Field.Type_ field)) as [err|] eqn:Hv;
      [|done].
    eexists. split.
    + eapply parseStruct_stops; [done|]. by apply (oneof_type_rejected _ _ tag).
    + intros Q. reflexivity.
  - intros typeName structType info fi H Hfi.
    destruct (parseStruct_origin _ _ _ _ H Hfi)
      as (field & v & name & _ & Hc & _ & ->).
    destruct (newFieldInfo_keeps field v name)
      as (_ & _ & _ & -> & _ & -> & -> & _).
    rewrite newFieldInfo_IsRepeated.
    destruct (newFieldInfo_flags field v name) as (-> & -> & ->).
    destruct (newFieldInfo_frame field v name) as (_ & -> & ->).
    intros Hone.
    pose proof (checked_oneof_type _ _ _ Hc Hone) as Hty.
    destruct (checked_protoType _ _ _ Hc) as [_ Hpt].
    rewrite (checked_isMap _ _ _ Hc), (Hpt Hone).
    pose proof Hc as (tag & _ & _ & Hp)%checkField_OK.
    destruct Hp as (_ & _ & _ & _ & _ & _ & _ & _ & Hopt & _).
    rewrite Hopt, Hone. unfold parseOptions. cbn [negb].
    rewrite (Hpt Hone).
    apply validateOneofFieldType_None in Hty
      as [(n & -> & _)|[->|(X & Sel & ->)]]; by split_and!.
Qed.

(** ** The tables and the helpers together *)

(** Every map key type is a wire type, and the wire types that cannot be
    a map key are bytes, double, float, message, enum, map and oneof. *)
Theorem map_key_types_are_wire_types p :
  isValidMapKeyType p = true <->
  isValidProtoType p = true /\
  p ∉ ["bytes"; "double"; "float"; "message"; "enum"; "map"; "oneof"].
Proof.
  rewrite isValidMapKeyType_spec, isValidProtoType_spec.
  unfold mapKeyTypeNames, protoTypeNames.
  rewrite !elem_of_cons, !elem_of_nil.
  split.
  - intros H. split; [tauto|].
    repeat (destruct H as [->|H]; [by (apply (bool_decide_unpack _); vm_compute)|]).
    done.
  - intros [H Hnot].
    repeat (destruct H as [->|H];
            [first [ tauto
                   | exfalso; apply Hnot;
                     by (apply (bool_decide_unpack _); vm_compute) ]|]).
    done.
Qed.

(** For the wire type of a descriptor of a parsed record, the helpers
    fall back on [Bytes] only where they should: [readFunc] and
    [appendFunc] for bytes, message, map and oneof, [unpackFunc] for these
    and for string; every other wire type has read, append and unpack
    functions of its own name. *)
Theorem helpers_cover_wire_types typeName structType info fi :
  parseStruct typeName structType = OK info ->
  fi ∈ TypeInfo.Fields info ->
  let protoType := FieldInfo.ProtoType fi in
  (readFunc protoType = "Bytes" <-> protoType ∈ "bytes" :: compositeTypes) /\
  (appendFunc protoType false = "AppendBytes" <->
   protoType ∈ "bytes" :: compositeTypes) /\
  (unpackFunc protoType = "Bytes" <->
   protoType ∈ "string" :: "bytes" :: compositeTypes) /\
  (isLengthDelimited protoType = true <-> protoType ∈ ["string"; "bytes"]).
Proof.
  intros H Hfi.
  destruct (parseStruct_origin _ _ _ _ H Hfi)
    as (field & v & name & _ & Hc & _ & ->).
  destruct (newFieldInfo_keeps field v name) as (_ & _ & -> & _).
  destruct (checked_protoType _ _ _ Hc) as [Hin _]. cbv zeta.
  generalize dependent (protoType v). intros p Hin.
  unfold protoTypeNames in Hin. rewrite !elem_of_cons, elem_of_nil in Hin.
  repeat (destruct Hin as [->|Hin];
          [split_and!; (split; intros Hp;
             [first [ by (apply (bool_decide_unpack _); vm_compute)
                    | by vm_compute in Hp ]
             |first [ by vm_compute
                    | by (apply (bool_decide_pack _) in Hp;
                          vm_compute in Hp) ]])|]).
  done.
Qed.

(** ** The driver: finding the requested types *)

Lemma forEach_bind {S A B} (body : S -> B -> Result S) (f : A -> list B) l s :
  forEach body (l ≫= f) s = forEach (fun s x => forEach body (f x) s) l s.
Proof.
  revert s. induction l as [|x l IH]; intros s; [done|].
  rewrite bind_cons, forEach_app, forEach_cons.
  destruct (forEach body (f x) s); [apply IH|done].
Qed.

Lemma forEach_ext {S A} (body body' : S -> A -> Result S) l s :
  (forall s x, body s x = body' s x) -> forEach body l s = forEach body' l s.
Proof.
  intros Hext. revert s. induction l as [|x l IH]; intros s; [done|].
  rewrite !forEach_cons, Hext. destruct (body' s x); [apply IH|done].
Qed.

Lemma visitDecl_typeSpecs types typeInfos decl :
  visitDecl types typeInfos decl =
  forEach (matchTypes types) (typeSpecsOf decl) typeInfos.
Proof.
  destruct decl as [[ | | | ] Specs| | ]; try done. simpl.
  revert typeInfos. induction Specs as [|spec Specs IH]; intros m; [done|].
  rewrite forEach_cons. destruct spec as [Name Type_| | ]; simpl.
  - unfold matchTypes at 1. simpl.
    destruct (forEach (matchType Name Type_) types m); [apply IH|done].
  - apply IH.
  - apply IH.
Qed.

(** The four nested loops are one loop over the type specifications. *)
Lemma visitFiles_typeSpecs types files typeInfos :
  forEach (visitFile types) files typeInfos =
  forEach (matchTypes types) (typeSpecs files) typeInfos.
Proof.
  unfold typeSpecs. rewrite forEach_bind. apply forEach_ext.
  intros m file. unfold visitFile. rewrite forEach_bind.
  apply forEach_ext. intros m' decl. apply visitDecl_typeSpecs.
Qed.

Lemma matchTypes_spec types spec (m : gmap string TypeInfo.t) :
  match matchTypes types m spec with
  | OK m' =>
      ((fst spec ∉ types) /\ m' = m) \/
      (fst spec ∈ types /\
       exists structType info,
         snd spec = StructType structType /\
         parseStruct (fst spec) structType = OK info /\
         m' = <[fst spec := info]> m)
  | Err e =>
      fst spec ∈ types /\
      forall structType info,
        snd spec = StructType structType ->
        parseStruct (fst spec) structType <> OK info
  end.
Proof.
  destruct spec as [Name Type_]. unfold matchTypes. simpl.
  revert m. induction types as [|t types IH]; intros m.
  - simpl. left. split; [|done]. by intros ?%elem_of_nil.
  - rewrite forEach_cons. unfold matchType at 1.
    case_bool_decide as Ht.
    + subst t. destruct Type_ as [structType|expr].
      * destruct (parseStruct Name structType) as [info|e] eqn:Hp.
        -- specialize (IH (<[Name := info]> m)).
           destruct (forEach _ types _) as [m'|e].
           ++ right. split; [left|]. exists structType, info.
              split_and!; try done.
              destruct IH as [[_ ->]|(_ & st & info' & [= <-] & Hp' & ->)];
                [done|].
              rewrite insert_insert_eq. congruence.
           ++ destruct IH as [_ IH]. split; [left|done].
        -- split; [left|]. intros st info [= <-]. congruence.
      * split; [left|]. by intros st info [=].
    + specialize (IH m). destruct (forEach _ types m) as [m'|e].
      * destruct IH as [[Hno ->]|(Hin & IH)].
        -- left. split; [|done]. by intros [?|?]%elem_of_cons.
        -- right. split; [by right|done].
      * destruct IH as [Hin IH]. split; [by right|done].
Qed.

Lemma matchTypes_usable types spec (m : gmap string TypeInfo.t) :
  (exists m', matchTypes types m spec = OK m') <-> usable types spec.
Proof.
  pose proof (matchTypes_spec types spec m) as Hs. unfold usable.
  destruct (matchTypes types m spec) as [m'|e].
  - split; [|eauto]. intros _ Hin.
    destruct Hs as [[Hno _]|(_ & st & info & ? & ? & _)]; [done|eauto].
  - destruct Hs as [Hin Hno]. split; [by intros [? ?]|].
    intros Hu. destruct (Hu Hin) as (st & info & Hty & Hp).
    by apply Hno in Hp.
Qed.

(** What the loop over the type specifications leaves in [typeInfos]. *)
Lemma visitSpecs_spec types specs (m : gmap string TypeInfo.t) :
  match forEach (matchTypes types) specs m with
  | OK m' =>
      Forall (usable types) specs /\
      (forall t, is_Some (m' !! t) <->
         is_Some (m !! t) \/ (t ∈ types /\ t ∈ specs.*1)) /\
      (forall t info, m' !! t = Some info ->
         m !! t = Some info \/
         (t ∈ types /\ exists structType,
            (t, StructType structType) ∈ specs /\
            parseStruct t structType = OK info))
  | Err e => ~ Forall (usable types) specs
  end.
Proof.
  revert m. induction specs as [|spec specs IH]; intros m.
  - simpl. split_and!; [done| |by left].
    intros t. split; [by left|]. by intros [?|[_ ?%elem_of_nil]].
  - rewrite forEach_cons.
    pose proof (matchTypes_spec types spec m) as Hs.
    pose proof (matchTypes_usable types spec m) as Hu.
    destruct (matchTypes types m spec) as [m1|e].
    + specialize (IH m1). destruct (forEach _ specs m1) as [m'|e].
      * destruct IH as (Hall & Hdom & Hval).
        assert (usable types spec) as Hus by (apply Hu; eauto).
        split_and!; [by constructor| |].
        -- intros t. rewrite Hdom, fmap_cons, elem_of_cons.
           destruct Hs as [[Hno ->]|(Hin & st & info & _ & _ & ->)].
           ++ split; [tauto|]. intros [?|[Ht [->|?]]]; tauto.
           ++ rewrite lookup_insert_is_Some.
              destruct (decide (fst spec = t)) as [<-|Hne]; [tauto|].
              split; [tauto|]. intros [?|[Ht [?|?]]]; try tauto.
              congruence.
        -- intros t info Ht. apply Hval in Ht as [Ht|(Hin & st & Hst & Hp)].
           ++ destruct Hs as [[Hno ->]|(Hin & st & info' & Hty & Hp & ->)];
                [by left|].
              destruct (decide (fst spec = t)) as [<-|Hne].
              ** rewrite lookup_insert_eq in Ht. injection Ht as <-.
                 right. split; [done|]. exists st. split; [|done].
                 destruct spec as [n ty]. simpl in *. subst ty. left.
              ** rewrite lookup_insert_ne in Ht by done. by left.
           ++ right. split; [done|]. exists st. split; [by right|done].
      * intros [_ Hall]%Forall_cons. by apply IH.
    + intros [Hus _]%Forall_cons. apply Hu in Hus as [m' Hm']. done.
Qed.

Lemma checkFound_spec (m : gmap string TypeInfo.t) types :
  match forEach (checkFound m) types tt with
  | OK _ => forall t, t ∈ types -> is_Some (m !! t)
  | Err e =>
      exists t, t ∈ types /\ m !! t = None /\
        e = Errorf "type %s not found" [AStr t]
  end.
Proof.
  induction types as [|t types IH]; [by intros t ?%elem_of_nil|].
  rewrite forEach_cons. unfold checkFound at 1.
  destruct (m !! t) as [info|] eqn:Ht.
  - destruct (forEach _ types tt) as [[]|e].
    + intros t' [->|?]%elem_of_cons; [by rewrite Ht|auto].
    + destruct IH as (t' & ? & ? & ?). exists t'. split; [by right|done].
  - exists t. split; [left|done].
Qed.

(** [main] gets past the search for the requested types exactly when
    every requested type is declared in a [type] declaration of the files
    and every declaration of a requested type is a struct type that
    [parseStruct] accepts.  When all these declarations are usable but a
    requested type is not declared, the run ends with [type ... not
    found] for such a type. *)
Theorem requested_types_found types files :
  ((exists typeInfos, findTypes types files = OK typeInfos) <->
   (forall t, t ∈ types -> t ∈ (typeSpecs files).*1) /\
   Forall (usable types) (typeSpecs files)) /\
  (Forall (usable types) (typeSpecs files) ->
   ~ (forall t, t ∈ types -> t ∈ (typeSpecs files).*1) ->
   exists t, t ∈ types /\ (t ∉ (typeSpecs files).*1) /\
     findTypes types files = Err (Errorf "type %s not found" [AStr t])).
Proof.
  unfold findTypes. rewrite visitFiles_typeSpecs.
  pose proof (visitSpecs_spec types (typeSpecs files) ∅) as Hs.
  destruct (forEach (matchTypes types) (typeSpecs files) ∅) as [m|e].
  - destruct Hs as (Hall & Hdom & _).
    pose proof (checkFound_spec m types) as Hc.
    assert (forall t, t ∈ types ->
              is_Some (m !! t) <-> t ∈ (typeSpecs files).*1) as Hfound.
    { intros t Ht. rewrite Hdom, lookup_empty, is_Some_alt. tauto. }
    destruct (forEach (checkFound m) types tt) as [[]|e'].
    + split.
      * split; [|eauto]. intros _. split; [|done].
        intros t Ht. by apply Hfound, Hc.
      * intros _ Hno. exfalso. apply Hno. intros t Ht. by apply Hfound, Hc.
    + destruct Hc as (t & Ht & Hnone & ->). split.
      * split; [by intros [? ?]|]. intros [Hdecl _].
        pose proof (proj2 (Hfound t Ht) (Hdecl t Ht)) as Hsome.
        rewrite Hnone in Hsome. by destruct Hsome.
      * intros _ _. exists t. split_and!; try done.
        intros Hin. pose proof (proj2 (Hfound t Ht) Hin) as Hsome.
        rewrite Hnone in Hsome. by destruct Hsome.
  - split; [|done]. split; [by intros [? ?]|]. tauto.
Qed.

(** When [main] gets past the search, [typeInfos] has an entry for each
    requested type and for nothing else, and the entry of a type is what
    [parseStruct] returns for a struct declaration of that name in the
    files, under that name. *)
Theorem found_types_content types files typeInfos :
  findTypes types files = OK typeInfos ->
  (forall t, is_Some (typeInfos !! t) <-> t ∈ types) /\
  (forall t info, typeInfos !! t = Some info ->
     TypeInfo.Name info = t /\
     exists structType,
       (t, StructType structType) ∈ typeSpecs files /\
       parseStruct t structType = OK info).
Proof.
  unfold findTypes. rewrite visitFiles_typeSpecs.
  pose proof (visitSpecs_spec types (typeSpecs files) ∅) as Hs.
  destruct (forEach (matchTypes types) (typeSpecs files) ∅) as [m|e]; [|done].
  destruct Hs as (_ & Hdom & Hval).
  pose proof (checkFound_spec m types) as Hc.
  destruct (forEach (checkFound m) types tt) as [[]|e']; [|done].
  intros [= <-]. split.
  - intros t. split; [|apply Hc].
    rewrite Hdom, lookup_empty, is_Some_alt. tauto.
  - intros t info Ht.
    apply Hval in Ht as [Ht|(_ & st & Hin & Hp)]; [by rewrite lookup_empty in Ht|].
    split; [|eauto].
    pose proof (parseStruct_spec t st) as Hps. rewrite Hp in Hps. tauto.
Qed.

(** ** The driver: reading the directory *)

Lemma readEntries_result ParseFile Join dir entries files0 pkg0 :
  match forEach (readEntry ParseFile Join dir) entries (files0, pkg0) with
  | OK (files, pkg) =>
      Forall (fun entry => skipped entry = false ->
                exists f, ParseFile (Join dir (DirEntry.Name entry)) = OK f)
        entries /\
      ((files0 = [] -> pkg0 = "") ->
       (files = [] -> pkg = "") /\
       (files = [] <->
        files0 = [] /\ Forall (fun entry => skipped entry = true) entries))
  | Err e =>
      exists entry err, entry ∈ entries /\ skipped entry = false /\
        ParseFile (Join dir (DirEntry.Name entry)) = Err err
  end.
Proof.
  revert files0 pkg0. induction entries as [|entry entries IH];
    intros files0 pkg0.
  - simpl. split; [done|]. intros Hinv. split; [done|]. by split; [|intros []].
  - rewrite forEach_cons. unfold readEntry at 1.
    destruct (skipped entry) eqn:Hskip.
    + specialize (IH files0 pkg0).
      destruct (forEach _ entries _) as [[files pkg]|e].
      * destruct IH as [Hall Hinv]. split; [constructor; [by rewrite Hskip|done]|].
        intros H0. destruct (Hinv H0) as [H1 H2]. split; [done|].
        rewrite H2, Forall_cons. tauto.
      * destruct IH as (entry' & err & ? & ? & ?).
        exists entry', err. split; [by right|done].
    + destruct (ParseFile _) as [f|err] eqn:Hparse;
        [|exists entry, err; split; [left|done]].
      assert (forall files1 pkg1,
                files1 <> [] \/ files1 = files0 /\ pkg1 = pkg0 /\ pkg0 <> "" ->
                match forEach (readEntry ParseFile Join dir) entries
                        (files1, pkg1) with
                | OK (files, pkg) =>
                    Forall (fun entry => skipped entry = false ->
                              exists f,
                                ParseFile (Join dir (DirEntry.Name entry))
                                = OK f) (entry :: entries) /\
                    ((files0 = [] -> pkg0 = "") ->
                     (files = [] -> pkg = "") /\
                     (files = [] <->
                      files0 = [] /\
                      Forall (fun entry => skipped entry = true)
                        (entry :: entries)))
                | Err e =>
                    exists entry' err, entry' ∈ entry :: entries /\
                      skipped entry' = false /\
                      ParseFile (Join dir (DirEntry.Name entry')) = Err err
                end) as Hstep.
      { intros files1 pkg1 H1. specialize (IH files1 pkg1).
        destruct (forEach _ entries _) as [[files pkg]|e].
        - destruct IH as [Hall Hinv]. split; [constructor; eauto|].
          intros H0.
          assert (files1 <> []) as Hne.
          { destruct H1 as [?|(-> & -> & Hp)]; [done|]. intros ->. auto. }
          destruct Hinv as [H2 H3]; [done|]. split; [done|].
          rewrite H3, Forall_cons, Hskip. split; [tauto|].
          intros (_ & [=] & _).
        - destruct IH as (entry' & err & ? & ? & ?).
          exists entry', err. split; [by right|done]. }
      case_bool_decide as Hpkg.
      * apply Hstep. left. by intros ?%app_eq_nil%proj2.
      * case_bool_decide as Hname.
        -- apply Hstep. right. done.
        -- apply Hstep. left. by intros ?%app_eq_nil%proj2.
Qed.

(** The directory is read successfully exactly when it has an entry that
    is not skipped and every such entry parses: a file that does not
    parse ends the run even when its package is not the one kept.  When
    every entry is skipped the run ends with [no Go files found]. *)
Theorem directory_read_iff ParseFile Join dir entries :
  ((exists r, readFiles ParseFile Join dir entries = OK r) <->
   (exists entry, entry ∈ entries /\ skipped entry = false) /\
   (forall entry, entry ∈ entries -> skipped entry = false ->
      exists f, ParseFile (Join dir (DirEntry.Name entry)) = OK f)) /\
  (Forall (fun entry => skipped entry = true) entries ->
   readFiles ParseFile Join dir entries = Err (Errorf "no Go files found" [])).
Proof.
  unfold readFiles.
  pose proof (readEntries_result ParseFile Join dir entries [] "") as Hs.
  destruct (forEach _ entries _) as [[files pkg]|e].
  - destruct Hs as [Hall Hinv]. destruct Hinv as [_ Hnil]; [done|].
    rewrite Forall_forall in Hall.
    case_bool_decide as Hlen.
    + apply length_zero_iff_nil in Hlen. apply Hnil in Hlen as [_ Hskip].
      split; [|done]. split; [by intros [? ?]|].
      intros [(entry & Hin & Hno) _]. rewrite Forall_forall in Hskip.
      apply Hskip in Hin. congruence.
    + split.
      * split; [|eauto]. intros _. split; [|auto].
        destruct (decide (Forall (fun entry => skipped entry = true) entries))
          as [Hskip|Hskip].
        -- exfalso. apply Hlen. apply length_zero_iff_nil, Hnil. done.
        -- apply not_Forall_Exists, Exists_exists in Hskip; [|apply _].
           destruct Hskip as (entry & Hin & Hno). exists entry.
           split; [done|]. by apply not_true_is_false.
      * intros Hskip. exfalso. apply Hlen, length_zero_iff_nil, Hnil. done.
  - destruct Hs as (entry & err & Hin & Hskip & Herr). split.
    + split; [by intros [? ?]|]. intros [_ Hall].
      destruct (Hall entry Hin Hskip) as [f Hf]. congruence.
    + intros Hall. rewrite Forall_forall in Hall. apply Hall in Hin.
      congruence.
Qed.

Lemma readEntries_packages ParseFile Join dir entries files0 pkg0 files pkg :
  (forall path f, ParseFile path = OK f -> File.Name f <> "") ->
  (pkg0 = "" <-> files0 = []) ->
  Forall (fun f => File.Name f = pkg0) files0 ->
  forEach (readEntry ParseFile Join dir) entries (files0, pkg0)
    = OK (files, pkg) ->
  (pkg = "" <-> files = []) /\
  Forall (fun f => File.Name f = pkg) files /\
  (pkg0 <> "" -> pkg = pkg0) /\
  (forall f, f ∈ files <->
     f ∈ files0 \/
     exists entry, entry ∈ entries /\ skipped entry = false /\
       ParseFile (Join dir (DirEntry.Name entry)) = OK f /\
       File.Name f = pkg) /\
  (pkg0 = "" -> pkg <> "" ->
   exists pre entry post f,
     entries = pre ++ entry :: post /\
     Forall (fun entry => skipped entry = true) pre /\
     skipped entry = false /\
     ParseFile (Join dir (DirEntry.Name entry)) = OK f /\
     pkg = File.Name f).
Proof.
  intros Hnamed. revert files0 pkg0.
  induction entries as [|entry entries IH]; intros files0 pkg0 Hinv Hall.
  - intros [= <- <-]. split_and!; try done.
    intros f. split; [by left|]. by intros [?|(? & ?%elem_of_nil & _)].
  - rewrite forEach_cons. unfold readEntry at 1.
    destruct (skipped entry) eqn:Hskip.
    + intros Hrun.
      destruct (IH _ _ Hinv Hall Hrun) as (H1 & H2 & H3 & H4 & H5).
      split_and!; try done.
      * intros f. rewrite H4. split.
        -- intros [?|(e & ? & ?)]; [by left|]. right. exists e.
           split; [by right|done].
        -- intros [?|(e & [->|?]%elem_of_cons & Hs & ?)]; [by left| |].
           ++ congruence.
           ++ right. by exists e.
      * intros Hp0 Hp. destruct (H5 Hp0 Hp)
          as (pre & e & post & f & -> & Hpre & ? & ? & ?).
        exists (entry :: pre), e, post, f. split_and!; try done.
        by constructor.
    + destruct (ParseFile _) as [f0|err] eqn:Hparse; [|done].
      pose proof (Hnamed _ _ Hparse) as Hf0.
      case_bool_decide as Hpkg.
      * subst pkg0. assert (files0 = []) as -> by (by apply Hinv).
        intros Hrun. simpl in Hrun.
        destruct (IH [f0] (File.Name f0)) as (H1 & H2 & H3 & H4 & _);
          [done|by constructor|done|].
        specialize (H3 Hf0). subst pkg.
        split_and!; try done.
        -- intros f. rewrite H4. split.
           ++ intros [->%list_elem_of_singleton|(e & ? & ?)]; right.
              ** exists entry. split; [left|done].
              ** exists e. split; [by right|done].
           ++ intros [?%elem_of_nil|(e & [->|?]%elem_of_cons & Hs & Hp & ?)];
                [done| |].
              ** left. apply list_elem_of_singleton. congruence.
              ** right. by exists e.
        -- intros _ _. by exists [], entry, entries, f0.
      * case_bool_decide as Hname.
        -- intros Hrun.
           destruct (IH _ _ Hinv Hall Hrun) as (H1 & H2 & H3 & H4 & _).
           specialize (H3 Hpkg). subst pkg.
           split_and!; try done.
           intros f. rewrite H4. split.
           ++ intros [?|(e & ? & ?)]; [by left|]. right. exists e.
              split; [by right|done].
           ++ intros [?|(e & [->|?]%elem_of_cons & Hs & Hp & ?)]; [by left| |].
              ** congruence.
              ** right. by exists e.
        -- intros Hrun.
           destruct (IH (files0 ++ [f0]) pkg0) as (H1 & H2 & H3 & H4 & _);
             [|by apply Forall_app; split; [|constructor]|done|].
           { split; [done|]. by intros ?%app_eq_nil%proj2. }
           specialize (H3 Hpkg). subst pkg.
           split_and!; try done.
           intros f. rewrite H4, elem_of_app, list_elem_of_singleton. split.
           ++ intros [[?| ->]|(e & ? & ?)]; [by left| |].
              ** right. exists entry. split; [left|done].
              ** right. exists e. split; [by right|done].
           ++ intros [?|(e & [->|?]%elem_of_cons & Hs & Hp & ?)];
                [by left; left| |].
              ** left. right. congruence.
              ** right. by exists e.
Qed.

(** When parsed files have a package name and the directory is read
    successfully, the package is that of the first entry that is not
    skipped, and the files kept are exactly the parsed files of that
    package among the entries that are not skipped: files of other
    packages are parsed and dropped. *)
Theorem files_share_package ParseFile Join dir entries files pkgName :
  (forall path f, ParseFile path = OK f -> File.Name f <> "") ->
  readFiles ParseFile Join dir entries = OK (files, pkgName) ->
  files <> [] /\ pkgName <> "" /\
  Forall (fun f => File.Name f = pkgName) files /\
  (forall f, f ∈ files <->
     exists entry, entry ∈ entries /\ skipped entry = false /\
       ParseFile (Join dir (DirEntry.Name entry)) = OK f /\
       File.Name f = pkgName) /\
  (exists pre entry post f,
     entries = pre ++ entry :: post /\
     Forall (fun entry => skipped entry = true) pre /\
     skipped entry = false /\
     ParseFile (Join dir (DirEntry.Name entry)) = OK f /\
     pkgName = File.Name f).
Proof.
  intros Hnamed. unfold readFiles.
  destruct (forEach _ entries _) as [[files' pkg]|e] eqn:Hrun; [|done].
  case_bool_decide as Hlen; [done|]. intros [= <- <-].
  destruct (readEntries_packages _ _ _ _ _ _ _ _ Hnamed
              (conj (fun _ => eq_refl) (fun _ => eq_refl))
              (Forall_nil_2 _) Hrun) as (H1 & H2 & _ & H4 & H5).
  assert (files' <> []) as Hne.
  { intros ->. by apply Hlen. }
  assert (pkg <> "") as Hpkg by tauto.
  split_and!; try done.
  - intros f. rewrite H4. split; [|by right].
    by intros [?%elem_of_nil|?].
  - by apply H5.
Qed.

(** ** The order of the fields *)

Lemma parseStruct_accepts typeName structType :
  (exists info, parseStruct typeName structType = OK info) <->
  Forall (fun field => exists r, checkField typeName field = OK r) structType /\
  NoDup (assigned typeName structType).
Proof.
  pose proof (parseStruct_spec typeName structType) as Hs.
  destruct (parseStruct typeName structType) as [info|e].
  - split; [|eauto]. intros _. tauto.
  - split; [by intros [? ?]|]. intros [Hall Hnd]. exfalso.
    destruct Hs as [(field & Hin & He)|[_ Hno]]; [|done].
    rewrite Forall_forall in Hall. destruct (Hall _ Hin). congruence.
Qed.

(** Two lists with the same elements, both sorted by a key that no two
    elements share, are equal. *)
Lemma sorted_unique {A} (key : A -> Z) (l k : list A) :
  Sorted (fun x y => key x <= key y) l ->
  Sorted (fun x y => key x <= key y) k ->
  l ≡ₚ k -> NoDup (key <$> l) -> l = k.
Proof.
  intros Hl%Sorted_StronglySorted; [|intros x y z; lia].
  intros Hk%Sorted_StronglySorted; [|intros x y z; lia].
  revert k Hk. induction Hl as [|x l Hl IH Hx]; intros k Hk Hperm Hnd.
  - by apply Permutation_nil_l in Hperm.
  - destruct Hk as [|y k Hk Hy].
    { by apply Permutation_nil_r in Hperm. }
    rewrite fmap_cons in Hnd. apply NoDup_cons in Hnd as [Hxl Hnd].
    assert (x = y) as <-.
    { assert (x ∈ y :: k) as [->|Hxk]%elem_of_cons
        by (rewrite <- Hperm; left); [done|].
      assert (y ∈ x :: l) as [->|Hyl]%elem_of_cons
        by (rewrite Hperm; left); [done|].
      rewrite Forall_forall in Hx, Hy.
      pose proof (Hx _ Hyl). pose proof (Hy _ Hxk).
      exfalso. apply Hxl. apply list_elem_of_fmap. exists y.
      split; [lia|done]. }
    f_equal. apply IH; [done| |done]. by apply (inj (cons x)).
Qed.

(** The order in which a struct declares its fields matters neither for
    whether it is accepted nor for the descriptors of its record: they
    are the same up to order, and the same list when no two of them share
    a field number, as when the struct has at most one oneof field. *)
Theorem field_order_irrelevant typeName structType structType' :
  structType ≡ₚ structType' ->
  ((exists info, parseStruct typeName structType = OK info) <->
   (exists info', parseStruct typeName structType' = OK info')) /\
  (forall info info',
     parseStruct typeName structType = OK info ->
     parseStruct typeName structType' = OK info' ->
     TypeInfo.Fields info ≡ₚ TypeInfo.Fields info' /\
     (NoDup (FieldInfo.FieldNum <$> TypeInfo.Fields info) -> info = info')).
Proof.
  intros Hperm.
  assert (structType ≫= descriptors typeName ≡ₚ
          structType' ≫= descriptors typeName) as Hd
    by by rewrite Hperm.
  split.
  - rewrite !parseStruct_accepts. unfold assigned.
    by rewrite Hperm.
  - intros info info' H H'.
    pose proof (parseStruct_spec typeName structType) as Hs.
    pose proof (parseStruct_spec typeName structType') as Hs'.
    rewrite H in Hs. rewrite H' in Hs'.
    destruct Hs as (Hn & Hp & Hsorted & _).
    destruct Hs' as (Hn' & Hp' & Hsorted' & _).
    assert (TypeInfo.Fields info ≡ₚ TypeInfo.Fields info') as Hfields
      by by rewrite Hp, Hp'.
    split; [done|]. intros Hnd.
    destruct info as [n fields], info' as [n' fields']. simpl in *.
    f_equal; [congruence|].
    by apply (sorted_unique FieldInfo.FieldNum).
Qed.

(** ** The diagnostics *)

Lemma forEach_Err {S A} (body : S -> A -> Result S) l s e :
  forEach body l s = Err e -> exists s' x, x ∈ l /\ body s' x = Err e.
Proof.
  revert s. induction l as [|x l IH]; intros s; [done|].
  rewrite forEach_cons. destruct (body s x) as [s'|e'] eqn:Hx.
  - intros (s'' & y & ? & ?)%IH. exists s'', y. split; [by right|done].
  - intros [= ->]. exists s, x. split; [left|done].
Qed.

Ltac known_diagnostic :=
  apply (bool_decide_unpack _); by vm_compute.

Lemma parseOneofVariant_diagnostic tag vs p e :
  parseOneofVariant tag vs p = Err e -> errorFormat e ∈ diagnostics.
Proof.
  unfold parseOneofVariant. cbv zeta.
  repeat case_match; intros [=]; subst e; known_diagnostic.
Qed.

Lemma parseFieldNum_diagnostic tag p e :
  parseFieldNum tag p = Err e -> errorFormat e ∈ diagnostics.
Proof.
  unfold parseFieldNum.
  repeat case_match; intros [=]; subst e; known_diagnostic.
Qed.

Lemma checkField_diagnostic typeName field e :
  checkField typeName field = Err e -> errorFormat e ∈ diagnostics.
Proof.
  unfold checkField. destruct (Field.Tag field) as [tag|]; [|done].
  case_bool_decide; [done|]. cbv zeta.
  destruct (parseNumbers _ _ _ _ _) as [[vs n]|e'] eqn:Hnums;
    cbv beta iota zeta.
  - destruct (chooseProtoType _ _ _ _) as [pt|e'] eqn:Hpt;
      cbv beta iota zeta.
    + destruct (bool_decide (pt = "interface"));
        [intros [=]; subst e; known_diagnostic|].
      destruct (mapProtoTypes _ _ _) as [k val].
      destruct (_ && _); [intros [=]; subst e; known_diagnostic|].
      unfold namesOf. destruct (Field.Names field); [|done].
      destruct (bool_decide (getTypeName _ = "")); [|done].
      intros [=]. subst e. known_diagnostic.
    + intros [= <-]. unfold chooseProtoType in Hpt.
      repeat case_match; try done. injection Hpt as <-. known_diagnostic.
  - intros [= <-]. unfold parseNumbers in Hnums.
    destruct (bool_decide _).
    + destruct (validateOneofFieldType _);
        [injection Hnums as <-; known_diagnostic|].
      destruct (_ <? _)%nat; [injection Hnums as <-; known_diagnostic|].
      destruct (forEach _ _ _) as [vs|e''] eqn:Hvs; [done|].
      injection Hnums as <-.
      apply forEach_Err in Hvs as (vs & p & _ & Hp).
      by eapply parseOneofVariant_diagnostic.
    + destruct (parseFieldNum _ _) as [n|e''] eqn:Hn; [done|].
      injection Hnums as <-. by eapply parseFieldNum_diagnostic.
Qed.

Lemma registerName_diagnostic typeName field v st name e :
  registerName typeName field v st name = Err e ->
  errorFormat e ∈ diagnostics.
Proof.
  unfold registerName. destruct st as [seen fields].
  destruct (isOneof v).
  - destruct (forEach _ _ _) as [seen'|e'] eqn:Hvs; [done|].
    intros [= <-]. apply forEach_Err in Hvs as (seen' & var & _ & Hvar).
    unfold seeVariant in Hvar. destruct (_ !! _); [|done].
    injection Hvar as <-. known_diagnostic.
  - destruct (_ !! _); [|done]. intros [=]. subst e. known_diagnostic.
Qed.

(** Every error [parseStruct] returns was made from one of the seventeen
    formats of its diagnostics: it returns no other error, and none from
    a library. *)
Theorem errors_are_known typeName structType e :
  parseStruct typeName structType = Err e -> errorFormat e ∈ diagnostics.
Proof.
  unfold parseStruct.
  destruct (forEach _ structType _) as [[seen fields]|e'] eqn:Hrun; [done|].
  intros [= <-]. apply forEach_Err in Hrun as (st & field & _ & Hfield).
  unfold parseField in Hfield.
  destruct (checkField typeName field) as [[v|]|e''] eqn:Hc.
  - apply forEach_Err in Hfield as (st' & name & _ & Hname).
    by eapply registerName_diagnostic.
  - done.
  - injection Hfield as <-. by eapply checkField_diagnostic.
Qed.

(** ** Arrays with a specified length *)

Lemma inferProtoType_bytes expr :
  inferProtoType expr = "bytes" <-> inferredBytes expr = true.
Proof.
  induction expr as [name| | X IH |[len|] elt IH| | | | | | ];
    cbn [inferProtoType inferredBytes]; try (split; (done || discriminate)).
  - repeat case_bool_decide; split; discriminate.
  - exact IH.
  - exact IH.
  - destruct (isByteIdent elt); [done|exact IH].
Qed.

Lemma sized_array_descriptor typeName field len elt fi tag :
  Field.Type_ field = ArrayType (Some len) elt ->
  fi ∈ descriptors typeName field ->
  Field.Tag field = Some tag ->
  FieldInfo.IsOneof fi = false /\
  FieldInfo.IsRepeated fi =
    bool_decide
      ("repeated" ∈ optionWords (FieldInfo.IsMap fi) (Split tag ",")) /\
  FieldInfo.ProtoType fi =
    if (length (Split tag ",") <? 2)%nat then inferProtoType elt
    else TrimSpace (part (Split tag ",") 1).
Proof.
  intros Hty (v & name & Hc & _ & ->)%descriptors_inv Htag.
  destruct (newFieldInfo_keeps field v name) as (_ & _ & -> & -> & _ & -> & _).
  rewrite newFieldInfo_IsRepeated, Hty. cbn [repeatedByType].
  rewrite orb_false_r.
  assert (isOneof v = false) as Hone.
  { destruct (isOneof v) eqn:Hone; [|done].
    pose proof (checked_oneof_type _ _ _ Hc Hone) as Hv.
    rewrite Hty in Hv. done. }
  apply checkField_OK in Hc as (tag' & Htag' & _ & Hp).
  assert (tag' = tag) as -> by congruence.
  destruct Hp as (_ & _ & _ & Hpt & _ & _ & _ & _ & Hopt & _).
  rewrite Hone in *. split; [done|]. split.
  - rewrite Hopt.
    by destruct (parseOptions_spec (Split tag ",") (isMap v) (protoType v))
      as (-> & _).
  - unfold chooseProtoType in Hpt. rewrite Hty in Hpt.
    destruct (2 <=? length (Split tag ","))%nat eqn:Hlen.
    + apply Nat.leb_le in Hlen. rewrite (proj2 (Nat.ltb_ge _ _)) by lia.
      destruct (negb _); [done|]. by injection Hpt as <-.
    + apply Nat.leb_gt in Hlen. rewrite (proj2 (Nat.ltb_lt _ _)) by lia.
      by injection Hpt as <-.
Qed.

(** C10.  For an array with a specified length the wire type is inferred
    from the element alone ([[4]byte] infers int32, [[8]int64] int64),
    [analyzeType] changes nothing, so the base and element type strings
    stay empty and the repeated flag is not set by the type: [analyzeType]
    sets it exactly for a slice whose element is not [byte].  With a
    single-part tag the descriptor is not repeated and has the element's
    inferred wire type.  With any tag the descriptor is not a oneof, its
    repeated flag is set exactly when [repeated] is among the tag's option
    words, and its wire type is the tag's second part when there is one.
    The inferred wire type of any type is bytes exactly when, under
    pointers, arrays and slices, the type is a slice of [byte] or of a
    kind the type switch has no case for; so an array of [[]byte], of
    functions or of channels infers bytes, as its element does. *)
Theorem sized_array_classification :
  (forall len elt,
     inferProtoType (ArrayType (Some len) elt) = inferProtoType elt) /\
  inferProtoType (ArrayType (Some (BasicLit "4")) (Ident "byte")) = "int32" /\
  inferProtoType (ArrayType (Some (BasicLit "8")) (Ident "int64")) = "int64" /\
  (forall fi len elt, analyzeType fi (ArrayType (Some len) elt) = fi) /\
  (forall fi expr,
     FieldInfo.IsRepeated (analyzeType fi expr) = true ->
     FieldInfo.IsRepeated fi = true \/ exists elt, expr = ArrayType None elt) /\
  (forall typeName field len elt fi,
     Field.Type_ field = ArrayType (Some len) elt ->
     fi ∈ descriptors typeName field ->
     FieldInfo.BaseType fi = "" /\ FieldInfo.ElemType fi = "" /\
     FieldInfo.RawElemType fi = "" /\
     forall tag, Field.Tag field = Some tag ->
       length (Split tag ",") = 1%nat ->
       FieldInfo.IsRepeated fi = false /\
       FieldInfo.ProtoType fi = inferProtoType elt) /\
  (forall fi expr,
     FieldInfo.IsRepeated (analyzeType fi expr) =
     FieldInfo.IsRepeated fi || repeatedByType expr) /\
  (forall typeName field len elt fi tag,
     Field.Type_ field = ArrayType (Some len) elt ->
     fi ∈ descriptors typeName field ->
     Field.Tag field = Some tag ->
     FieldInfo.IsOneof fi = false /\
     FieldInfo.IsRepeated fi =
       bool_decide
         ("repeated" ∈ optionWords (FieldInfo.IsMap fi) (Split tag ",")) /\
     FieldInfo.ProtoType fi =
       if (length (Split tag ",") <? 2)%nat then inferProtoType elt
       else TrimSpace (part (Split tag ",") 1)) /\
  (forall expr, inferProtoType expr = "bytes" <-> inferredBytes expr = true) /\
  (forall len elt,
     inferredBytes (ArrayType (Some len) elt) = inferredBytes elt) /\
  (forall len, inferProtoType (ArrayType (Some len) FuncType) = "bytes") /\
  (forall len value,
     inferProtoType (ArrayType (Some len) (ChanType value)) = "bytes") /\
  (forall len,
     inferProtoType (ArrayType (Some len) (ArrayType None (Ident "byte")))
     = "bytes").
Proof.
  split_and!; try reflexivity.
  - intros fi expr. rewrite analyzeType_IsRepeated.
    intros [?|Hr]%orb_true_iff; [by left|right].
    destruct expr as [ | | | [len|] elt | | | | | | ]; try done. eauto.
  - intros typeName field len elt fi Hty Hfi.
    pose proof Hfi as (v & name & _ & _ & ->)%descriptors_inv.
    destruct (newFieldInfo_array field v name len elt Hty) as (-> & -> & ->).
    split_and!; try done.
    intros tag Htag Hlen.
    destruct (inferred_descriptor typeName field tag _ Htag Hlen Hfi) as [-> ->].
    by rewrite Hty.
  - apply analyzeType_IsRepeated.
  - apply sized_array_descriptor.
  - apply inferProtoType_bytes.
Qed.

(** On fields of an array type: [Digest [4]byte] with the tag
    [9,int32,repeated] has a repeated descriptor, and [Keys [2][]byte]
    and [Hooks [4]func()] have descriptors of the wire type bytes. *)
Lemma sized_array_repeated_or_bytes :
  (exists info fi,
     parseStruct "Chat" [flaggedDigestField] = OK info /\
     TypeInfo.Fields info = [fi] /\
     FieldInfo.Name fi = "Digest" /\ FieldInfo.ProtoType fi = "int32" /\
     FieldInfo.IsRepeated fi = true) /\
  (exists info,
     parseStruct "Chat" [keysField; hooksField] = OK info /\
     FieldInfo.Name <$> TypeInfo.Fields info = ["Keys"; "Hooks"] /\
     FieldInfo.ProtoType <$> TypeInfo.Fields info = ["bytes"; "bytes"] /\
     FieldInfo.IsRepeated <$> TypeInfo.Fields info = [false; false]) /\
  inferProtoType (Field.Type_ keysField) = "bytes" /\
  inferProtoType (Field.Type_ hooksField) = "bytes" /\
  inferProtoType FuncType = "bytes" /\
  inferProtoType (ChanType (Ident "int")) = "bytes".
Proof.
  split_and!; try reflexivity.
  - eexists _, _. split; [by vm_compute|]. split; [by vm_compute|].
    by vm_compute.
  - eexists. split; [by vm_compute|]. by vm_compute.
Qed.


(** ** The further properties on examples *)

Ltac by_fields :=
  apply Forall_forall; intros fi Hfi.

Ltac of_series :=
  match goal with
  | |- parseStruct _ _ = OK _ => by vm_compute
  | |- _ ∈ _ => assumption
  end.

Lemma unpack_names_read_function_witness :
  unpackFunc "sint64" = "UnpackSint64s" /\
  unpackFunc "message" = "Bytes" /\
  unpackFunc "string" = "Bytes".
Proof.
  split_and!.
  - destruct (unpack_names_read_function "sint64") as (Hpacked & _ & _).
    apply Hpacked. apply (bool_decide_unpack _). by vm_compute.
  - destruct (unpack_names_read_function "message") as (_ & Hother & _).
    apply Hother. apply (bool_decide_unpack _). by vm_compute.
  - destruct (unpack_names_read_function "string") as (_ & _ & Hlen).
    apply Hlen. by vm_compute.
Defined.

Lemma repeated_append_is_packed_witness :
  appendFunc "fixed32" true = "AppendFixed32s" /\
  appendFunc "enum" true = "AppendInt32" /\
  appendFunc "string" true = "AppendString".
Proof.
  split_and!.
  - destruct (repeated_append_is_packed "fixed32") as [Hpacked _].
    apply Hpacked. apply (bool_decide_unpack _). by vm_compute.
  - destruct (repeated_append_is_packed "enum") as [_ Hother].
    apply Hother. apply (bool_decide_unpack _). by vm_compute.
  - destruct (repeated_append_is_packed "string") as [_ Hother].
    apply Hother. apply (bool_decide_unpack _). by vm_compute.
Defined.

Lemma shared_tag_rejected_witness :
  (exists e, parseStruct "Pair" (seriesStruct ++ [pairField]) = Err e) /\
  (exists e, parseStruct "Pair" ([cacheField] ++ pairField :: seriesStruct)
             = Err e /\
     mentions e "duplicate field number").
Proof.
  destruct shared_tag_rejected as [Hany Hdup]. split.
  - apply (Hany "Pair" _ pairField "1").
    + apply list_elem_of_In, in_or_app. right. by left.
    + done.
    + done.
    + simpl. lia.
  - eapply (Hdup "Pair" [cacheField] pairField seriesStruct).
    + by vm_compute.
    + by vm_compute.
    + simpl. lia.
Defined.

Lemma one_descriptor_per_tagged_field_witness :
  TypeInfo.Name seriesInfo = "Series" /\
  FieldInfo.Name <$> TypeInfo.Fields seriesInfo ≡ₚ
    ["Name"; "Samples"; "Owner"; "Status"; "Labels"; "Meta"; "Payload"] /\
  length (TypeInfo.Fields seriesInfo) = 7%nat.
Proof.
  apply (one_descriptor_per_tagged_field "Series" seriesStruct seriesInfo).
  by vm_compute.
Defined.

Lemma embedded_field_named_after_type_witness :
  (exists fi, fi ∈ TypeInfo.Fields seriesInfo /\
     fi ∈ descriptors "Series" metaField /\
     FieldInfo.Name fi = "Meta" /\ FieldInfo.Name fi <> "" /\
     exists prefix, FieldInfo.GoType fi = prefix +:+ FieldInfo.Name fi) /\
  (exists e, parseStruct "Series" (seriesStruct ++ [namelessField]) = Err e).
Proof.
  destruct embedded_field_named_after_type as (_ & Hname & Hnone). split.
  - apply (Hname "Series" seriesStruct seriesInfo metaField).
    + by vm_compute.
    + apply list_elem_of_In. simpl. auto 10.
    + done.
    + done.
  - apply (Hnone "Series" _ namelessField).
    + apply list_elem_of_In, in_or_app. right. by left.
    + done.
    + done.
    + done.
Defined.

Lemma wire_types_valid_witness :
  Forall (fun fi =>
            isValidProtoType (FieldInfo.ProtoType fi) = true /\
            FieldInfo.ProtoType fi ∈ protoTypeNames)
    (TypeInfo.Fields seriesInfo).
Proof.
  by_fields.
  apply (wire_types_valid "Series" seriesStruct seriesInfo fi); of_series.
Defined.

Lemma descriptor_flags_consistent_witness :
  Forall (fun fi =>
            FieldInfo.IsMessage fi =
              bool_decide (FieldInfo.ProtoType fi = "message") /\
            FieldInfo.IsMap fi = bool_decide (FieldInfo.ProtoType fi = "map") /\
            (FieldInfo.IsOneof fi = true -> FieldInfo.ProtoType fi = "oneof") /\
            (FieldInfo.IsOneof fi = false ->
             FieldInfo.OneofVariants fi = [] /\
             validFieldNum (FieldInfo.FieldNum fi)) /\
            (FieldInfo.FieldNum fi = -1 <-> FieldInfo.IsOneof fi = true))
    (TypeInfo.Fields seriesInfo).
Proof.
  destruct descriptor_flags_consistent as [Hflags _]. by_fields.
  apply (Hflags "Series" seriesStruct seriesInfo fi); of_series.
Defined.

Lemma enum_conversion_witness :
  Forall (fun fi =>
            FieldInfo.NeedsTypeConv fi = FieldInfo.IsEnum fi /\
            FieldInfo.ConvType fi =
              (if FieldInfo.IsEnum fi then "int32" else "") /\
            (FieldInfo.ProtoType fi = "enum" -> FieldInfo.IsEnum fi = true) /\
            (FieldInfo.IsOneof fi = true -> FieldInfo.IsEnum fi = false))
    (TypeInfo.Fields seriesInfo).
Proof.
  by_fields.
  apply (enum_conversion "Series" seriesStruct seriesInfo fi); of_series.
Defined.

Lemma pointer_fields_optional_witness :
  Forall (fun fi => FieldInfo.IsPointer fi = true)
    (descriptors "Series" ownerField) /\
  Forall (fun fi =>
            FieldInfo.IsPointer fi = true ->
            FieldInfo.IsOptional fi = true /\
            FieldInfo.IsSliceOfPtr fi = false /\
            FieldInfo.IsOneof fi = false /\
            FieldInfo.GoType fi = "*" +:+ FieldInfo.BaseType fi /\
            FieldInfo.ElemType fi = FieldInfo.BaseType fi /\
            FieldInfo.RawElemType fi = FieldInfo.BaseType fi)
    (TypeInfo.Fields seriesInfo).
Proof.
  destruct pointer_fields_optional as [Hptr Hopt]. split; by_fields.
  - by apply (Hptr "Series" ownerField fi).
  - apply (Hopt "Series" seriesStruct seriesInfo fi); of_series.
Defined.

Lemma element_type_strings_witness :
  Forall (fun fi =>
            (FieldInfo.IsSliceOfPtr fi = true ->
             FieldInfo.IsRepeated fi = true /\
             FieldInfo.RawElemType fi = "*" +:+ FieldInfo.ElemType fi /\
             FieldInfo.GoType fi = "[]" +:+ FieldInfo.RawElemType fi) /\
            (FieldInfo.IsSliceOfPtr fi = false ->
             FieldInfo.RawElemType fi = FieldInfo.ElemType fi) /\
            (FieldInfo.BaseType fi = FieldInfo.ElemType fi \/
             FieldInfo.GoType fi = "[]byte" /\
             FieldInfo.BaseType fi = "[]byte" /\
             FieldInfo.ElemType fi = "byte"))
    (TypeInfo.Fields seriesInfo) /\
  Forall (fun fi =>
            FieldInfo.IsRepeated fi = true /\
            FieldInfo.IsSliceOfPtr fi = true /\
            FieldInfo.GoType fi = "[]" +:+ FieldInfo.RawElemType fi)
    (descriptors "Series" samplesField).
Proof.
  destruct element_type_strings as [Hrec Hslice]. split; by_fields.
  - apply (Hrec "Series" seriesStruct seriesInfo fi); of_series.
  - by apply (Hslice "Series" samplesField fi (StarExpr (Ident "Sample"))).
Defined.

Lemma map_descriptors_witness :
  Forall (fun fi =>
            (FieldInfo.IsMap fi = true ->
             FieldInfo.MapValueIsMsg fi =
               bool_decide (FieldInfo.MapValueProto fi = "message") /\
             FieldInfo.MapValueCustom fi = FieldInfo.IsCustom fi /\
             FieldInfo.IsOneof fi = false) /\
            (FieldInfo.IsMap fi = false ->
             FieldInfo.MapKeyProto fi = "" /\
             FieldInfo.MapValueProto fi = "" /\
             FieldInfo.MapKeyType fi = "" /\ FieldInfo.MapValueType fi = "" /\
             FieldInfo.MapValueIsMsg fi = false /\
             FieldInfo.MapValueIsPtr fi = false /\
             FieldInfo.MapValueCustom fi = false))
    (TypeInfo.Fields seriesInfo) /\
  Forall (fun fi =>
            FieldInfo.MapKeyProto fi = "string" /\
            FieldInfo.MapValueProto fi = "message" /\
            FieldInfo.MapKeyType fi = "string" /\
            FieldInfo.MapValueType fi = "*Label" /\
            FieldInfo.MapValueIsPtr fi = true /\
            FieldInfo.GoType fi = "map[string]*Label")
    (descriptors "Series" labelsField).
Proof.
  destruct map_descriptors as (Hrec & Hmap & _). split; by_fields.
  - apply (Hrec "Series" seriesStruct seriesInfo fi); of_series.
  - assert (Forall (fun fi => FieldInfo.IsMap fi = true)
              (descriptors "Series" labelsField)) as Hm
      by (vm_compute; by repeat constructor).
    rewrite Forall_forall in Hm.
    destruct (Hmap "Series" labelsField "5" fi Hfi eq_refl (Hm fi Hfi))
      as (_ & Hinfer & Hgo).
    destruct Hinfer as (Key & Value & [= <- <-] & -> & ->);
      [vm_compute; lia|].
    destruct (Hgo (Ident "string") (StarExpr (Ident "Label")) eq_refl)
      as (HK & HV & HP & HG).
    rewrite HG, HK, HV, HP. by split_and!.
Defined.

Lemma option_words_set_flags_witness :
  Forall (fun fi =>
            FieldInfo.IsRepeated fi = false /\
            FieldInfo.IsOptional fi = true /\
            FieldInfo.IsEnum fi = false /\
            FieldInfo.IsCustom fi = true /\
            FieldInfo.MapValueCustom fi = false)
    (descriptors "Series" ownerField).
Proof.
  by_fields.
  assert (Forall (fun fi =>
                    FieldInfo.IsOneof fi = false /\
                    FieldInfo.IsMap fi = false /\
                    FieldInfo.ProtoType fi = "message")
            (descriptors "Series" ownerField)) as Hm
    by (vm_compute; by repeat constructor).
  rewrite Forall_forall in Hm. destruct (Hm fi Hfi) as (Hone & Hmap & Hpt).
  destruct (option_words_set_flags "Series" ownerField
              "3, message ,custom, optional" fi Hfi eq_refl Hone)
    as (-> & -> & -> & -> & ->).
  rewrite Hmap, Hpt. by vm_compute.
Defined.

Lemma oneof_needs_interface_like_type_witness :
  validateOneofFieldType (Ident "Body") = None /\
  (exists e, parseStruct "Series" (seriesStruct ++ [sliceOneofField]) = Err e) /\
  (exists e, parseStruct "Series" ([cacheField] ++ sliceOneofField :: seriesStruct)
             = Err e /\
     mentions e "invalid oneof field") /\
  Forall (fun fi =>
            FieldInfo.IsOneof fi = true ->
            FieldInfo.IsRepeated fi = false /\
            FieldInfo.IsOptional fi = false /\
            FieldInfo.IsPointer fi = false /\
            FieldInfo.IsSliceOfPtr fi = false /\
            FieldInfo.IsMessage fi = false /\ FieldInfo.IsEnum fi = false /\
            FieldInfo.IsMap fi = false /\ FieldInfo.IsCustom fi = false)
    (TypeInfo.Fields seriesInfo).
Proof.
  destruct oneof_needs_interface_like_type as (Hshape & Hany & Hdiag & Hrec).
  split_and!.
  - apply Hshape. left. exists "Body". split; [done|].
    apply (bool_decide_unpack _). by vm_compute.
  - apply (Hany "Series" _ sliceOneofField "oneof,Text:1").
    + apply list_elem_of_In, in_or_app. right. by left.
    + done.
    + by vm_compute.
    + done.
  - apply (Hdiag "Series" [cacheField] sliceOneofField seriesStruct
             {| TypeInfo.Name := "Series"; TypeInfo.Fields := [] |}
             "oneof,Text:1").
    + by vm_compute.
    + done.
    + by vm_compute.
    + done.
  - by_fields.
    apply (Hrec "Series" seriesStruct seriesInfo fi); of_series.
Defined.

Lemma map_key_types_are_wire_types_witness :
  isValidMapKeyType "sfixed64" = true /\ isValidMapKeyType "double" = false.
Proof.
  split.
  - apply (map_key_types_are_wire_types "sfixed64").
    split; [by vm_compute|]. apply (bool_decide_unpack _). by vm_compute.
  - apply not_true_is_false.
    intros [_ Hnot]%(map_key_types_are_wire_types "double").
    apply Hnot. apply (bool_decide_unpack _). by vm_compute.
Defined.

Lemma helpers_cover_wire_types_witness :
  Forall (fun fi =>
            let protoType := FieldInfo.ProtoType fi in
            (readFunc protoType = "Bytes" <->
             protoType ∈ "bytes" :: compositeTypes) /\
            (appendFunc protoType false = "AppendBytes" <->
             protoType ∈ "bytes" :: compositeTypes) /\
            (unpackFunc protoType = "Bytes" <->
             protoType ∈ "string" :: "bytes" :: compositeTypes) /\
            (isLengthDelimited protoType = true <->
             protoType ∈ ["string"; "bytes"]))
    (TypeInfo.Fields seriesInfo).
Proof.
  by_fields.
  apply (helpers_cover_wire_types "Series" seriesStruct seriesInfo fi);
    of_series.
Defined.

Lemma field_order_irrelevant_witness :
  (exists info', parseStruct "Series" (reverse seriesStruct) = OK info') /\
  parseStruct "Series" (reverse seriesStruct) = OK seriesInfo.
Proof.
  destruct (field_order_irrelevant "Series" seriesStruct
              (reverse seriesStruct)) as [Hacc Hsame].
  { symmetry. apply reverse_Permutation. }
  assert (parseStruct "Series" seriesStruct = OK seriesInfo) as Hinfo
    by (vm_compute; reflexivity).
  destruct (proj1 Hacc (ex_intro _ seriesInfo Hinfo)) as [info' Hinfo'].
  split; [by exists info'|]. rewrite Hinfo'. f_equal. symmetry.
  apply (Hsame seriesInfo info' Hinfo Hinfo').
  apply (bool_decide_unpack _). vm_compute. reflexivity.
Defined.

Lemma errors_are_known_witness :
  Forall (fun structType =>
            exists e, parseStruct "T" structType = Err e /\
              errorFormat e ∈ diagnostics)
    [ [pairField]; [namelessField]; [sliceOneofField]; twoOrdinary;
      [anyField]; [floatKeyField] ].
Proof.
  by_fields.
  assert (exists e, parseStruct "T" fi = Err e) as [e He].
  { revert fi Hfi. apply Forall_forall.
    repeat constructor; eexists; by vm_compute. }
  exists e. split; [done|]. by apply (errors_are_known "T" fi).
Defined.

Lemma requested_types_found_witness :
  Forall (usable ["Chat"; "User"]) (typeSpecs [chatFile; userFile]) /\
  exists t, t ∈ ["Chat"; "Admin"] /\
    findTypes ["Chat"; "Admin"] [chatFile; userFile]
    = Err (Errorf "type %s not found" [AStr t]).
Proof.
  split.
  - apply (proj1 (requested_types_found ["Chat"; "User"] [chatFile; userFile])).
    eexists. vm_compute. reflexivity.
  - destruct (proj2 (requested_types_found ["Chat"; "Admin"]
                       [chatFile; userFile])) as (t & Ht & _ & Herr).
    + repeat constructor; intros Hin; simpl in Hin;
        apply list_elem_of_In in Hin; simpl in Hin;
        try (exfalso; intuition discriminate).
      eexists _, _. split; [reflexivity|]. vm_compute. reflexivity.
    + intros Hall. pose proof (Hall "Admin") as Hin.
      apply list_elem_of_In in Hin; [|apply list_elem_of_In; simpl; auto].
      simpl in Hin. intuition discriminate.
    + eauto.
Defined.

Lemma found_types_content_witness :
  exists typeInfos,
    findTypes ["Chat"; "User"] [chatFile; userFile] = OK typeInfos /\
    (forall t, is_Some (typeInfos !! t) <-> t ∈ ["Chat"; "User"]) /\
    (forall t info, typeInfos !! t = Some info -> TypeInfo.Name info = t).
Proof.
  assert (exists typeInfos,
            findTypes ["Chat"; "User"] [chatFile; userFile] = OK typeInfos)
    as [typeInfos Hfound] by (eexists; vm_compute; reflexivity).
  exists typeInfos. split; [done|].
  destruct (found_types_content _ _ _ Hfound) as [Hdom Hinfo].
  split; [done|]. intros t info Ht. by destruct (Hinfo t info Ht).
Defined.

Lemma directory_read_iff_witness :
  (exists entry, entry ∈ chatDir /\ skipped entry = false) /\
  readFiles chatParser slashJoin "." (take 1 chatDir)
  = Err (Errorf "no Go files found" []).
Proof.
  split.
  - apply (proj1 (proj1 (directory_read_iff chatParser slashJoin "." chatDir))).
    eexists. vm_compute. reflexivity.
  - apply (proj2 (directory_read_iff chatParser slashJoin "." (take 1 chatDir))).
    repeat constructor.
Defined.

Lemma files_share_package_witness :
  exists files pkgName,
    readFiles chatParser slashJoin "." chatDir = OK (files, pkgName) /\
    files <> [] /\ Forall (fun f => File.Name f = pkgName) files.
Proof.
  exists [chatFile; userFile], "chat".
  assert (readFiles chatParser slashJoin "." chatDir
          = OK ([chatFile; userFile], "chat")) as Hread
    by (vm_compute; reflexivity).
  split; [done|].
  assert (forall path f, chatParser path = OK f -> File.Name f <> "")
    as Hnamed.
  { unfold chatParser. intros path f.
    repeat case_bool_decide; intros [= <-]; done. }
  by destruct (files_share_package chatParser slashJoin "." chatDir
                 [chatFile; userFile] "chat" Hnamed Hread)
    as (Hne & _ & Hall & _).
Defined.

Lemma sized_array_classification_witness :
  Forall (fun fi => FieldInfo.IsRepeated fi = false /\
                    FieldInfo.ProtoType fi = "int32" /\
                    FieldInfo.BaseType fi = "" /\ FieldInfo.ElemType fi = "")
    (descriptors "Chat" digestField) /\
  Forall (fun fi => FieldInfo.IsRepeated fi = true /\
                    FieldInfo.ProtoType fi = "int32" /\
                    FieldInfo.IsOneof fi = false)
    (descriptors "Chat" flaggedDigestField).
Proof.
  destruct sized_array_classification
    as (_ & _ & _ & _ & _ & Hfield & _ & Htagged & _).
  split; apply Forall_forall; intros fi Hfi.
  - destruct (Hfield "Chat" digestField (BasicLit "4") (Ident "byte") fi
                eq_refl Hfi) as (Hbase & Helem & _ & Htag).
    destruct (Htag "9" eq_refl) as [Hrep Hpt]; [by vm_compute|].
    done.
  - destruct (Htagged "Chat" flaggedDigestField (BasicLit "4") (Ident "byte")
                fi "9,int32,repeated" eq_refl Hfi eq_refl)
      as (Hone & Hrep & Hpt).
    split_and!; [|done|done].
    rewrite Hrep.
    apply list_elem_of_singleton in Hfi. subst fi. by vm_compute.
Defined.
